(** * GuC additional data struct builder and engine-reset isolation selftest

    A shallow embedding of
    - drivers/gpu/drm/i915/intel_guc_ads.c  (module [Ads]),
    - drivers/gpu/drm/i915/selftests/intel_shit.c  (modules [Worker], [Igt]),
    followed by the properties of the descriptor blob, the register
    save/restore lists, the scheduling policies and the selftest verdict. *)

From Stdlib Require Import ZArith Lia.
From stdpp Require Import base option list gmap.

Local Open Scope Z_scope.

(** 32-bit unsigned storage: every [u32] field or local keeps its value
    modulo 2^32. *)
Definition u32 (x : Z) : Z := x mod 2 ^ 32.

(* ================================================================= *)
(** ** intel_guc_ads.c *)

Module Ads.

(** What intel_guc_ads.c takes from the driver's headers (intel_guc_fwif.h,
    intel_lrc.h, i915_reg.h, asm/page.h): constants, register address
    macros and the sizes of the firmware interface structures.  They are
    not part of the translated file, so the embedding is parametric in
    them. *)
Record fwif := {
  PAGE_SHIFT : Z;
  LRC_HEADER_PAGES : Z;
  LRC_PPHWSP_SZ : Z;
  GUC_REGSET_MAX_REGISTERS : Z;
  GUC_MAX_ENGINES_NUM : nat;
  GUC_CLIENT_PRIORITY_NUM : nat;
  GUC_RENDER_ENGINE : nat;
  GUC_MMIO_WHITE_LIST_MAX : nat;
  GUC_S3_SAVE_SPACE_PAGES : Z;
  POLICY_DEFAULT_EXECUTION_QUANTUM_US : Z;
  POLICY_DEFAULT_PREEMPTION_TIME_US : Z;
  POLICY_DEFAULT_FAULT_TIME_US : Z;
  POLICY_DEFAULT_DPC_PROMOTE_TIME_US : Z;
  POLICY_MAX_NUM_WI : Z;
  GUC_REGSET_ENGINERESET : Z;
  GUC_REGSET_SAVE_DEFAULT_VALUE : Z;
  GUC_REGSET_SAVE_CURRENT_VALUE : Z;
  GFX_RUN_LIST_ENABLE : Z;
  GFX_INTERRUPT_STEERING : Z;
  RCS : nat;
  RING_HWS_PGA : Z -> Z;
  RING_MODE_GEN7 : Z -> Z;
  RING_IMR : Z -> Z;
  RING_FORCE_TO_NONPRIV : Z -> nat -> Z;
  sizeof_guc_ads : Z;
  sizeof_guc_policies : Z;
  sizeof_guc_mmio_reg_state : Z
}.

(** *** Firmware interface structures *)

Record guc_policy := {
  execution_quantum : Z;
  preemption_time : Z;
  fault_time : Z;
  policy_flags : Z
}.

Record guc_policies := {
  policy : list (list guc_policy);
  dpc_promote_time : Z;
  is_valid : Z;
  max_num_work_items : Z
}.

Record guc_mmio_reg := {
  offset : Z;
  value : Z;
  flags : Z
}.

Record guc_mmio_regset := {
  registers : list guc_mmio_reg;
  values_valid : Z;
  number_of_registers : Z
}.

Record guc_mmio_white_list := {
  mmio_start : Z;
  offsets : list Z;
  count : Z
}.

Record guc_mmio_reg_state := {
  global_reg : guc_mmio_regset;
  engine_reg : list guc_mmio_regset;
  white_list : list guc_mmio_white_list
}.

Record guc_ads := {
  reg_state_addr : Z;
  reg_state_buffer : Z;
  golden_context_lrca : Z;
  scheduler_policies : Z;
  eng_state_size : list Z
}.

(** The anonymous packed struct [*blob] of [intel_guc_ads_create]; its
    last member, the raw [reg_state_buffer] bytes, is never written and is
    kept only through its size. *)
Record ads_blob := {
  ads : guc_ads;
  policies : guc_policies;
  reg_state : guc_mmio_reg_state
}.

(** The fields of [struct intel_engine_cs] the builder reads. *)
Record intel_engine_cs := {
  id : nat;
  guc_id : nat;
  mmio_base : Z;
  context_size : Z
}.

(** One entry of [workarounds->guc_reg]. *)
Record i915_wa_reg := {
  addr : Z;
  wa_value : Z
}.

(** The collaborators of [intel_guc_ads_create]: the engines in
    [for_each_engine] order, the register file read by [I915_READ], the
    [guc_count] valid entries of [workarounds->guc_reg], the GGTT offset of
    the pinned render default context, and what [intel_guc_allocate_vma]
    returns: an error code, or the GGTT offset of the new object together
    with the contents of its first page as mapped by [kmap]. *)
Record ads_env := {
  engines : list intel_engine_cs;
  I915_READ : Z -> Z;
  guc_reg : list i915_wa_reg;
  kernel_ctx_ggtt_offset : Z;
  allocate_vma : Z + (Z * ads_blob)
}.

Section Builder.
Variable h : fwif.

Definition PAGE_SIZE : Z := Z.shiftl 1 (PAGE_SHIFT h).

(** [PAGE_ALIGN(x)] is [ALIGN(x, PAGE_SIZE)], that is
    [(x + (PAGE_SIZE - 1)) & ~(PAGE_SIZE - 1)]. *)
Definition PAGE_ALIGN (x : Z) : Z :=
  Z.land (x + (PAGE_SIZE - 1)) (Z.lnot (PAGE_SIZE - 1)).

(** *** guc_policy_init, guc_policies_init

    The stores of the two functions, in program order.  [policy_store]
    names one assignment; [store] performs it. *)
Inductive policy_field :=
| F_execution_quantum
| F_preemption_time
| F_fault_time
| F_policy_flags.

Inductive policy_store :=
| St_dpc_promote_time (v : Z)
| St_max_num_work_items (v : Z)
| St_policy (p i : nat) (f : policy_field) (v : Z)
| St_is_valid (v : Z).

Definition set_field (f : policy_field) (v : Z) (c : guc_policy) : guc_policy :=
  match f with
  | F_execution_quantum =>
      {| execution_quantum := v; preemption_time := preemption_time c;
         fault_time := fault_time c; policy_flags := policy_flags c |}
  | F_preemption_time =>
      {| execution_quantum := execution_quantum c; preemption_time := v;
         fault_time := fault_time c; policy_flags := policy_flags c |}
  | F_fault_time =>
      {| execution_quantum := execution_quantum c;
         preemption_time := preemption_time c;
         fault_time := v; policy_flags := policy_flags c |}
  | F_policy_flags =>
      {| execution_quantum := execution_quantum c;
         preemption_time := preemption_time c;
         fault_time := fault_time c; policy_flags := v |}
  end.

Definition get_field (f : policy_field) (c : guc_policy) : Z :=
  match f with
  | F_execution_quantum => execution_quantum c
  | F_preemption_time => preemption_time c
  | F_fault_time => fault_time c
  | F_policy_flags => policy_flags c
  end.

Definition store (pol : guc_policies) (s : policy_store) : guc_policies :=
  match s with
  | St_dpc_promote_time v =>
      {| policy := policy pol; dpc_promote_time := v;
         is_valid := is_valid pol;
         max_num_work_items := max_num_work_items pol |}
  | St_max_num_work_items v =>
      {| policy := policy pol; dpc_promote_time := dpc_promote_time pol;
         is_valid := is_valid pol; max_num_work_items := v |}
  | St_policy p i f v =>
      {| policy := alter (alter (set_field f v) i) p (policy pol);
         dpc_promote_time := dpc_promote_time pol;
         is_valid := is_valid pol;
         max_num_work_items := max_num_work_items pol |}
  | St_is_valid v =>
      {| policy := policy pol; dpc_promote_time := dpc_promote_time pol;
         is_valid := v; max_num_work_items := max_num_work_items pol |}
  end.

(** The default value [guc_policy_init] gives to each field. *)
Definition policy_default (f : policy_field) : Z :=
  match f with
  | F_execution_quantum => POLICY_DEFAULT_EXECUTION_QUANTUM_US h
  | F_preemption_time => POLICY_DEFAULT_PREEMPTION_TIME_US h
  | F_fault_time => POLICY_DEFAULT_FAULT_TIME_US h
  | F_policy_flags => 0
  end.

(** [guc_policy_init(&policies->policy[p][i])]. *)
Definition guc_policy_init_stores (p i : nat) : list policy_store :=
  [ St_policy p i F_execution_quantum (policy_default F_execution_quantum);
    St_policy p i F_preemption_time (policy_default F_preemption_time);
    St_policy p i F_fault_time (policy_default F_fault_time);
    St_policy p i F_policy_flags (policy_default F_policy_flags) ].

(** The two nested [for] loops of [guc_policies_init]. *)
Definition guc_policies_loop_stores : list policy_store :=
  p ← seq 0 (GUC_CLIENT_PRIORITY_NUM h);
  i ← seq (GUC_RENDER_ENGINE h) (GUC_MAX_ENGINES_NUM h - GUC_RENDER_ENGINE h);
  guc_policy_init_stores p i.

Definition guc_policies_init_stores : list policy_store :=
  [ St_dpc_promote_time (POLICY_DEFAULT_DPC_PROMOTE_TIME_US h);
    St_max_num_work_items (POLICY_MAX_NUM_WI h) ]
  ++ guc_policies_loop_stores
  ++ [ St_is_valid 1 ].

Definition guc_policies_init (pol : guc_policies) : guc_policies :=
  foldl store pol guc_policies_init_stores.

(** *** GUC_ADD_MMIO_REG_ADS *)

Definition set_offset (v : Z) (r : guc_mmio_reg) : guc_mmio_reg :=
  {| offset := v; value := value r; flags := flags r |}.
Definition set_flags (v : Z) (r : guc_mmio_reg) : guc_mmio_reg :=
  {| offset := offset r; value := value r; flags := v |}.
Definition set_value (v : Z) (r : guc_mmio_reg) : guc_mmio_reg :=
  {| offset := offset r; value := v; flags := flags r |}.

(** The macro body.  The boolean is [WARN_ON]'s result: [true] when the
    list is full, in which case [continue] leaves the enclosing
    [do { } while (0)] and nothing is stored. *)
Definition GUC_ADD_MMIO_REG_ADS (node : guc_mmio_regset)
    (reg_addr _flags defvalue : Z) : guc_mmio_regset * bool :=
  let __count := number_of_registers node in
  if GUC_REGSET_MAX_REGISTERS h <=? __count then (node, true)
  else
    let k := Z.to_nat __count in
    let r1 := alter (set_offset reg_addr) k (registers node) in
    let r2 := alter (set_flags _flags) k r1 in
    let r3 := if defvalue =? 0 then r2
              else alter (set_value defvalue) k r2 in
    ({| registers := r3;
        values_valid := values_valid node;
        number_of_registers := u32 (number_of_registers node + 1) |},
     false).

(** A list under construction together with the number of warnings
    [WARN_ON] has raised so far. *)
Definition building : Type := guc_mmio_regset * nat.

Definition add_register (s : building) (c : Z * Z * Z) : building :=
  let '(reg_addr, _flags, defvalue) := c in
  let '(node, warned) := GUC_ADD_MMIO_REG_ADS s.1 reg_addr _flags defvalue in
  (node, if warned then S s.2 else s.2).

(** *** The [for_each_engine] body of the "MMIO reg state" loop *)

(** Restore value of the ring mode register:
    [I915_READ(RING_MODE_GEN7(engine)) | GFX_RUN_LIST_ENABLE |
     GFX_INTERRUPT_STEERING | (0xFFFF<<16)], a [u32]. *)
Definition ring_mode_value (read : Z -> Z) (e : intel_engine_cs) : Z :=
  u32 (Z.lor (Z.lor (Z.lor (read (RING_MODE_GEN7 h (mmio_base e)))
                           (GFX_RUN_LIST_ENABLE h))
                    (GFX_INTERRUPT_STEERING h))
             (Z.shiftl 0xFFFF 16)).

Definition save_current : Z :=
  Z.lor (GUC_REGSET_ENGINERESET h) (GUC_REGSET_SAVE_CURRENT_VALUE h).
Definition save_default : Z :=
  Z.lor (GUC_REGSET_ENGINERESET h) (GUC_REGSET_SAVE_DEFAULT_VALUE h).

(** The [(reg_addr, _flags, defvalue)] arguments of the macro uses for one
    engine, in program order. *)
Definition engine_adds (env : ads_env) (e : intel_engine_cs)
    : list (Z * Z * Z) :=
  [ (RING_HWS_PGA h (mmio_base e), save_current, 0);
    (RING_MODE_GEN7 h (mmio_base e), save_default,
     ring_mode_value (I915_READ env) e);
    (RING_IMR h (mmio_base e), save_current, 0) ]
  ++ (if decide (id e = RCS h)
      then (fun w => (addr w, save_default, wa_value w)) <$> guc_reg env
      else []).

Definition fill_regset (env : ads_env) (e : intel_engine_cs) (s : building)
    : building :=
  foldl add_register s (engine_adds env e).

(** [white_list[engine->guc_id]]: start of the window, count, and the
    snapshot of the [GUC_MMIO_WHITE_LIST_MAX] slots. *)
Definition fill_white_list (env : ads_env) (e : intel_engine_cs)
    (w : guc_mmio_white_list) : guc_mmio_white_list :=
  {| mmio_start := RING_FORCE_TO_NONPRIV h (mmio_base e) 0;
     offsets :=
       foldl (fun o i =>
                <[i := I915_READ env (RING_FORCE_TO_NONPRIV h (mmio_base e) i)]> o)
             (offsets w) (seq 0 (GUC_MMIO_WHITE_LIST_MAX h));
     count := Z.of_nat (GUC_MMIO_WHITE_LIST_MAX h) |}.

(** One iteration of the first [for_each_engine] loop.  The engine's rows
    are [engine_reg[guc_id]] and [white_list[guc_id]]; an index outside the
    arrays is undefined in C and changes nothing here. *)
Definition reg_state_engine (env : ads_env)
    (s : guc_mmio_reg_state * nat) (e : intel_engine_cs)
    : guc_mmio_reg_state * nat :=
  let '(rs, warned) := s in
  match engine_reg rs !! guc_id e with
  | None => (rs, warned)
  | Some eng_reg =>
      let '(eng_reg', warned') := fill_regset env e (eng_reg, warned) in
      ({| global_reg := global_reg rs;
          engine_reg := <[guc_id e := eng_reg']> (engine_reg rs);
          white_list := alter (fill_white_list env e) (guc_id e)
                              (white_list rs) |},
       warned')
  end.

(** *** intel_guc_ads_create *)

(** [LR_HW_CONTEXT_SIZE], with [sizeof(u32) = 4]. *)
Definition LR_HW_CONTEXT_SIZE : Z := 80 * 4.

Definition skipped_offset : Z := u32 (LRC_HEADER_PAGES h * PAGE_SIZE).
Definition skipped_size : Z :=
  u32 (LRC_PPHWSP_SZ h * PAGE_SIZE + LR_HW_CONTEXT_SIZE).

(** Layout of the packed [*blob]: [ptr_offset(blob, member)] is the sum of
    the sizes of the members before it. *)
Definition sizeof_reg_state_buffer : Z :=
  GUC_S3_SAVE_SPACE_PAGES h * PAGE_SIZE.
Definition offsetof_policies : Z := sizeof_guc_ads h.
Definition offsetof_reg_state : Z :=
  sizeof_guc_ads h + sizeof_guc_policies h.
Definition offsetof_reg_state_buffer : Z :=
  sizeof_guc_ads h + sizeof_guc_policies h + sizeof_guc_mmio_reg_state h.
Definition sizeof_blob : Z :=
  sizeof_guc_ads h + sizeof_guc_policies h + sizeof_guc_mmio_reg_state h
  + sizeof_reg_state_buffer.

(** Everything between [kmap] and [kunmap]: the filled blob and the number
    of warnings raised on the way. *)
Definition ads_fill (env : ads_env) (base : Z) (blob : ads_blob)
    : ads_blob * nat :=
  let policies1 := guc_policies_init (policies blob) in
  let '(reg_state1, warned) :=
    foldl (reg_state_engine env) (reg_state blob, 0%nat) (engines env) in
  let lrca := u32 (kernel_ctx_ggtt_offset env + skipped_offset) in
  let sizes :=
    foldl (fun l e => <[guc_id e := u32 (context_size e - skipped_size)]> l)
          (eng_state_size (ads blob)) (engines env) in
  ({| ads :=
        {| reg_state_addr := u32 (base + offsetof_reg_state);
           reg_state_buffer := u32 (base + offsetof_reg_state_buffer);
           golden_context_lrca := lrca;
           scheduler_policies := u32 (base + offsetof_policies);
           eng_state_size := sizes |};
      policies := policies1;
      reg_state := reg_state1 |},
   warned).

(** Returns the error of a failed allocation, or 0 with the blob that is
    left in the object ([guc->ads_vma]). *)
Definition intel_guc_ads_create (env : ads_env)
    : Z * option (ads_blob * nat) :=
  match allocate_vma env with
  | inl err => (err, None)
  | inr (base, blob) => (0, Some (ads_fill env base blob))
  end.

(** *** Reading a list back, and the state of a new object *)

(** The entry a macro use describes. *)
Definition entry_of (c : Z * Z * Z) : guc_mmio_reg :=
  {| offset := c.1.1; value := c.2; flags := c.1.2 |}.

(** The valid entries of a list: the first [number_of_registers]. *)
Definition entries (node : guc_mmio_regset) : list guc_mmio_reg :=
  take (Z.to_nat (number_of_registers node)) (registers node).

(** A list nothing was added to yet, in storage whose [value] fields are
    still zero: the array has its [GUC_REGSET_MAX_REGISTERS] slots and the
    count is 0. *)
Definition regset_fresh (node : guc_mmio_regset) : Prop :=
  Z.of_nat (length (registers node)) = GUC_REGSET_MAX_REGISTERS h
  ∧ number_of_registers node = 0
  ∧ Forall (fun r => value r = 0) (registers node).

(** The state of a list during construction: the array has all its slots,
    [n] of them are in use, and the value fields of the others are still
    zero. *)
Definition under_construction (node : guc_mmio_regset) (n : nat) : Prop :=
  Z.of_nat (length (registers node)) = GUC_REGSET_MAX_REGISTERS h
  ∧ number_of_registers node = Z.of_nat n
  ∧ Forall (fun r => value r = 0) (drop n (registers node)).

(** The mapped page of a new object, as far as the builder depends on it:
    the per-engine arrays have [GUC_MAX_ENGINES_NUM] rows, and every
    register list is fresh. *)
Definition blob_fresh (blob : ads_blob) : Prop :=
  length (engine_reg (reg_state blob)) = GUC_MAX_ENGINES_NUM h
  ∧ length (white_list (reg_state blob)) = GUC_MAX_ENGINES_NUM h
  ∧ length (eng_state_size (ads blob)) = GUC_MAX_ENGINES_NUM h
  ∧ Forall regset_fresh (engine_reg (reg_state blob)).

(** The policy matrix has its [GUC_CLIENT_PRIORITY_NUM] rows of
    [GUC_MAX_ENGINES_NUM] cells. *)
Definition policies_shaped (pol : guc_policies) : Prop :=
  length (policy pol) = GUC_CLIENT_PRIORITY_NUM h
  ∧ Forall (fun row => length row = GUC_MAX_ENGINES_NUM h) (policy pol).

(** The cell [policy[p][i]]. *)
Definition cell (pol : guc_policies) (p i : nat) : option guc_policy :=
  policy pol !! p ≫= fun row => row !! i.

(** All stores of a list to field [f] carry the value [v]. *)
Definition stores_agree (l : list policy_store) (f : policy_field) (v : Z)
    : Prop :=
  ∀ p i v', St_policy p i f v' ∈ l -> v' = v.

(** A store to anything but [is_valid]. *)
Definition not_is_valid (s : policy_store) : Prop :=
  match s with
  | St_is_valid _ => False
  | _ => True
  end.

(** A zero-filled page laid out as [*blob]. *)
Definition regset_zero : guc_mmio_regset :=
  {| registers :=
       replicate (Z.to_nat (GUC_REGSET_MAX_REGISTERS h))
                 {| offset := 0; value := 0; flags := 0 |};
     values_valid := 0;
     number_of_registers := 0 |}.

Definition blob_zero : ads_blob :=
  {| ads :=
       {| reg_state_addr := 0; reg_state_buffer := 0;
          golden_context_lrca := 0; scheduler_policies := 0;
          eng_state_size := replicate (GUC_MAX_ENGINES_NUM h) 0 |};
     policies :=
       {| policy :=
            replicate (GUC_CLIENT_PRIORITY_NUM h)
              (replicate (GUC_MAX_ENGINES_NUM h)
                 {| execution_quantum := 0; preemption_time := 0;
                    fault_time := 0; policy_flags := 0 |});
          dpc_promote_time := 0; is_valid := 0; max_num_work_items := 0 |};
     reg_state :=
       {| global_reg := regset_zero;
          engine_reg := replicate (GUC_MAX_ENGINES_NUM h) regset_zero;
          white_list :=
            replicate (GUC_MAX_ENGINES_NUM h)
              {| mmio_start := 0;
                 offsets := replicate (GUC_MMIO_WHITE_LIST_MAX h) 0;
                 count := 0 |} |} |}.

End Builder.

#[global] Instance policy_field_eq_dec : EqDecision policy_field.
Proof. solve_decision. Defined.
End Ads.

(* ================================================================= *)
(** ** selftests/intel_shit.c: the worker thread *)

Module Worker.

(** Where [shit_active_engine] stands in its [while] loop: at the loop
    test, between [i915_request_add(new)] and the wait for [old], or past
    the loop. *)
Inductive wpc :=
| LoopHead
| Submitted (old : option nat)
| Exited.

(** Requests are named by the order of their allocation.  [outstanding]
    is the set of requests that were added to the engine and have not
    completed yet. *)
Record wstate := {
  rq : list (option nat);
  count : Z;
  err : Z;
  pc : wpc;
  next_request : nat;
  outstanding : gset nat
}.

(** What can happen next: a pass over the first half of the loop body with
    a successful or a failed [i915_request_alloc], [kthread_should_stop()]
    turning true, the second half of the body (wait for [old], drop it),
    and the engine completing a request. *)
Inductive action :=
| a_submit
| a_alloc_fail (e : Z)
| a_stop
| a_retire
| a_complete (r : nat).

(** The state on entry to the loop, both contexts created:
    [rq[2] = {}], [count = 0], [err = 0]. *)
Definition init : wstate :=
  {| rq := [None; None]; count := 0; err := 0; pc := LoopHead;
     next_request := 0; outstanding := ∅ |}.

(** [unsigned long] arithmetic. *)
Definition ulong (x : Z) : Z := x mod 2 ^ 64.

(** One step; [None] when the action cannot happen in [s].
    - [a_submit]: [idx = count++ & 1; old = rq[idx];], a successful
      [i915_request_alloc], [rq[idx] = i915_request_get(new);
      i915_request_add(new);].
    - [a_alloc_fail e]: the same with [IS_ERR(new)]: [err = e; break].
    - [a_stop]: the loop test fails.
    - [a_retire]: [if (old) { i915_request_wait(old, 0,
      MAX_SCHEDULE_TIMEOUT); i915_request_put(old); }], which returns only
      once [old] has completed.
    - [a_complete r]: the engine completes [r], at any time. *)
Definition step (a : action) (s : wstate) : option wstate :=
  match a, pc s with
  | a_submit, LoopHead =>
      let idx := Z.to_nat (Z.land (count s) 1) in
      let old := mjoin (rq s !! idx) in
      let new := next_request s in
      Some {| rq := <[idx := Some new]> (rq s);
              count := ulong (count s + 1);
              err := err s;
              pc := Submitted old;
              next_request := S new;
              outstanding := {[new]} ∪ outstanding s |}
  | a_alloc_fail e, LoopHead =>
      Some {| rq := rq s; count := ulong (count s + 1); err := e;
              pc := Exited; next_request := next_request s;
              outstanding := outstanding s |}
  | a_stop, LoopHead =>
      Some {| rq := rq s; count := count s; err := err s;
              pc := Exited; next_request := next_request s;
              outstanding := outstanding s |}
  | a_retire, Submitted old =>
      let blocked :=
        match old with
        | Some r => bool_decide (r ∈ outstanding s)
        | None => false
        end in
      if blocked then None
      else Some {| rq := rq s; count := count s; err := err s;
                   pc := LoopHead; next_request := next_request s;
                   outstanding := outstanding s |}
  | a_complete r, _ =>
      if bool_decide (r ∈ outstanding s)
      then Some {| rq := rq s; count := count s; err := err s;
                   pc := pc s; next_request := next_request s;
                   outstanding := outstanding s ∖ {[r]} |}
      else None
  | _, _ => None
  end.

Fixpoint run (l : list action) (s : wstate) : option wstate :=
  match l with
  | [] => Some s
  | a :: l' =>
      match step a s with
      | Some s' => run l' s'
      | None => None
      end
  end.

(** The requests the worker still holds a pointer to: the two slots and,
    between submit and wait, [old]. *)
Definition slots (s : wstate) : gset nat :=
  list_to_set (omap (fun x : option nat => x) (rq s)).

Definition held (s : wstate) : gset nat :=
  match pc s with
  | Submitted (Some r) => {[r]} ∪ slots s
  | _ => slots s
  end.

(** What every step keeps: [rq] has its two slots, and a request that has
    not completed is still held. *)
Definition inv (s : wstate) : Prop :=
  length (rq s) = 2%nat ∧ outstanding s ⊆ held s.

End Worker.

(* ================================================================= *)
(** ** selftests/intel_shit.c: the harness *)

Module Igt.

Definition EIO : Z := 5.

(** The part of [struct i915_gpu_error] the harness reads and writes.
    [reset_engine_count] is indexed by engine id. *)
Record i915_gpu_error := {
  reset_count : Z;
  reset_engine_count : list Z;
  flags : Z
}.

(** The calls the harness makes on its collaborators, in the order it
    makes them. *)
Inductive event :=
| ev_pr_info
| ev_pr_err
| ev_reset_count
| ev_reset_engine_count (e : nat)
| ev_kthread_run (e : nat)
| ev_kthread_stop (e : nat)
| ev_set_bit (n : Z)
| ev_clear_bit (n : Z)
| ev_reset_engine (e : nat)
| ev_cond_resched
| ev_terminally_wedged
| ev_runtime_pm_get
| ev_runtime_pm_put.

#[global] Instance event_eq_dec : EqDecision event.
Proof. solve_decision. Defined.

Record hstate := {
  error : i915_gpu_error;
  log : list event
}.

(** How often [i915_reset_engine] was called on [e], read off the log. *)
Definition completed_resets (e : nat) (s : hstate) : Z :=
  Z.of_nat (length (filter (fun ev => ev = ev_reset_engine e) (log s))).

(** The collaborators.  An engine is named by its id; [engines] is the
    [for_each_engine] order.  [kthread_run target active] is 0 when the
    worker for [active] was started and [PTR_ERR] of the result otherwise,
    [kthread_stop target active] is the value that worker returned,
    [timeout_ticks do_reset target] is how many times
    [time_before(jiffies, end_time)] holds in the round of [target], and
    [i915_subtests] is the selftest runner. *)
Record igt_env := {
  engines : list nat;
  intel_has_reset_engine : bool;
  intel_has_gpu_reset : bool;
  kthread_run : nat -> nat -> Z;
  kthread_stop : nat -> nat -> Z;
  i915_reset_engine : nat -> i915_gpu_error -> Z * i915_gpu_error;
  timeout_ticks : bool -> nat -> nat;
  I915_RESET_ENGINE : Z;
  I915_WEDGED : Z;
  i915_subtests : list (hstate -> Z * hstate) -> hstate -> Z * hstate
}.

Definition emit (l : list event) (s : hstate) : hstate :=
  {| error := error s; log := log s ++ l |}.

Definition i915_reset_count (g : i915_gpu_error) : Z := reset_count g.

Definition i915_reset_engine_count (g : i915_gpu_error) (e : nat) : Z :=
  default 0 (reset_engine_count g !! e).

Definition i915_terminally_wedged (env : igt_env) (g : i915_gpu_error) : bool :=
  Z.testbit (flags g) (I915_WEDGED env).

Definition set_bit (n : Z) (g : i915_gpu_error) : i915_gpu_error :=
  {| reset_count := reset_count g;
     reset_engine_count := reset_engine_count g;
     flags := Z.lor (flags g) (Z.shiftl 1 n) |}.

Definition clear_bit (n : Z) (g : i915_gpu_error) : i915_gpu_error :=
  {| reset_count := reset_count g;
     reset_engine_count := reset_engine_count g;
     flags := Z.ldiff (flags g) (Z.shiftl 1 n) |}.

Section Harness.
Variable env : igt_env.
Variable do_reset : bool.

(** The inner [for_each_engine(active, i915, tmp)] loop that starts the
    workers.  [threads] holds the ids with a non-NULL [threads[tmp]],
    [resets] the assigned entries of [resets[]].  A non-zero first
    component is the [goto unwind]. *)
Fixpoint start_workers (target : nat) (actives : list nat)
    (threads : gset nat) (resets : gmap nat Z) (s : hstate)
    : Z * gset nat * gmap nat Z * hstate :=
  match actives with
  | [] => (0, threads, resets, s)
  | active :: rest =>
      if decide (active = target) then
        start_workers target rest threads resets s
      else
        let resets' :=
          <[active := i915_reset_engine_count (error s) active]> resets in
        let s1 := emit [ev_reset_engine_count active; ev_kthread_run active] s in
        let tsk := kthread_run env target active in
        if decide (tsk = 0) then
          start_workers target rest ({[active]} ∪ threads) resets' s1
        else (tsk, threads, resets', s1)
  end.

(** The [do { } while (time_before(jiffies, end_time))] loop. *)
Fixpoint reset_loop (target : nat) (ticks : nat) (s : hstate) : Z * hstate :=
  let '(err, s1) :=
    if do_reset then
      let '(r, g) := i915_reset_engine env target (error s) in
      (r, {| error := g; log := log s ++ [ev_reset_engine target] |})
    else (0, s) in
  if decide (err = 0) then
    match ticks with
    | O => (0, s1)
    | S n => reset_loop target n s1
    end
  else (err, emit [ev_pr_err] s1).

(** The loop after [unwind:]. *)
Fixpoint stop_workers (target : nat) (threads : gset nat)
    (resets : gmap nat Z) (actives : list nat) (err : Z) (s : hstate)
    : Z * hstate :=
  match actives with
  | [] => (err, s)
  | active :: rest =>
      if decide (active ∈ threads) then
        let ret := kthread_stop env target active in
        let err1 :=
          if decide (ret = 0) then err
          else if decide (err = 0) then ret else err in
        let s1 := emit ([ev_kthread_stop active]
                        ++ (if decide (ret = 0) then [] else [ev_pr_err])
                        ++ [ev_reset_engine_count active]) s in
        if decide (default 0 (resets !! active)
                   = i915_reset_engine_count (error s) active)
        then stop_workers target threads resets rest err1 s1
        else stop_workers target threads resets rest (- EIO)
               (emit [ev_reset_engine_count active; ev_pr_err] s1)
      else stop_workers target threads resets rest err s
  end.

(** The state in which the workers of a round are stopped: after the reset
    loop when all of them were started, at once otherwise. *)
Definition reset_phase (target : nat) (err0 : Z) (s : hstate) : Z * hstate :=
  if decide (err0 = 0) then
    let bit := I915_RESET_ENGINE env + Z.of_nat target in
    let s1 := {| error := set_bit bit (error s);
                 log := log s ++ [ev_set_bit bit] |} in
    let '(err, s2) := reset_loop target (timeout_ticks env do_reset target) s1 in
    (err, {| error := clear_bit bit (error s2);
             log := log s2 ++ [ev_clear_bit bit] |})
  else (err0, s).

(** One iteration of the outer [for_each_engine(engine, i915, id)] loop,
    entered with [err = 0]. *)
Definition round (target : nat) (s : hstate) : Z * hstate :=
  let global := i915_reset_count (error s) in
  let s0 := emit [ev_reset_count] s in
  let '(err0, threads, resets, s1) :=
    start_workers target (engines env) ∅ ∅ s0 in
  let '(err1, s2) := reset_phase target err0 s1 in
  let '(err2, s3) := stop_workers target threads resets (engines env) err1 s2 in
  let s4 := emit [ev_reset_count] s3 in
  if decide (global = i915_reset_count (error s3)) then (err2, s4)
  else (- EIO, emit [ev_reset_count; ev_pr_err] s4).

Fixpoint rounds (targets : list nat) (s : hstate) : Z * hstate :=
  match targets with
  | [] => (0, s)
  | target :: rest =>
      let '(err, s1) := round target s in
      if decide (err = 0) then rounds rest (emit [ev_cond_resched] s1)
      else (err, s1)
  end.

Definition igt_active_engines (s : hstate) : Z * hstate :=
  if negb (intel_has_reset_engine env) then (0, s)
  else
    let '(err, s1) := rounds (engines env) (emit [ev_pr_info] s) in
    let s2 := emit [ev_terminally_wedged] s1 in
    if i915_terminally_wedged env (error s1) then (- EIO, s2) else (err, s2).

End Harness.

Definition igt_active_engines_reset (env : igt_env) : hstate -> Z * hstate :=
  igt_active_engines env true.

Definition igt_active_engines_no_reset (env : igt_env) : hstate -> Z * hstate :=
  igt_active_engines env false.

Definition intel_shit_live_selftests (env : igt_env) (s : hstate)
    : Z * hstate :=
  if negb (intel_has_gpu_reset env) then (0, s)
  else
    let '(err, s1) :=
      i915_subtests env
        [igt_active_engines_reset env; igt_active_engines_no_reset env]
        (emit [ev_runtime_pm_get] s) in
    (err, emit [ev_runtime_pm_put] s1).

(** *** The verdict as the specification words it

    In reset-enabled mode a violation is reported when a non-target
    engine's counter changed, when the target engine's counter did not grow
    by the number of completed reset attempts, or when the global counter
    did not grow by that number. *)
Definition spec_reports_violation (engines : list nat) (target : nat)
    (before after : i915_gpu_error) (completed : Z) : bool :=
  negb (forallb (fun e => bool_decide (e = target)
                   || bool_decide (i915_reset_engine_count after e
                                   = i915_reset_engine_count before e))
                engines)
  || negb (bool_decide (i915_reset_engine_count after target
                        = i915_reset_engine_count before target + completed))
  || negb (bool_decide (i915_reset_count after
                        = i915_reset_count before + completed)).

End Igt.

(* ================================================================= *)
(** ** A concrete platform

    The inputs at which the statements below are exercised: 4 KiB pages, a
    one-page context header, 25 registers per list, five firmware engines,
    and three engines enumerated by the driver. *)

Module Sample.

Definition i915 : Ads.fwif :=
  {| Ads.PAGE_SHIFT := 12;
     Ads.LRC_HEADER_PAGES := 1;
     Ads.LRC_PPHWSP_SZ := 1;
     Ads.GUC_REGSET_MAX_REGISTERS := 25;
     Ads.GUC_MAX_ENGINES_NUM := 5;
     Ads.GUC_CLIENT_PRIORITY_NUM := 4;
     Ads.GUC_RENDER_ENGINE := 0;
     Ads.GUC_MMIO_WHITE_LIST_MAX := 12;
     Ads.GUC_S3_SAVE_SPACE_PAGES := 10;
     Ads.POLICY_DEFAULT_EXECUTION_QUANTUM_US := 1000000;
     Ads.POLICY_DEFAULT_PREEMPTION_TIME_US := 500000;
     Ads.POLICY_DEFAULT_FAULT_TIME_US := 250000;
     Ads.POLICY_DEFAULT_DPC_PROMOTE_TIME_US := 500000;
     Ads.POLICY_MAX_NUM_WI := 15;
     Ads.GUC_REGSET_ENGINERESET := 0x2;
     Ads.GUC_REGSET_SAVE_DEFAULT_VALUE := 0x4;
     Ads.GUC_REGSET_SAVE_CURRENT_VALUE := 0x8;
     Ads.GFX_RUN_LIST_ENABLE := Z.shiftl 1 15;
     Ads.GFX_INTERRUPT_STEERING := Z.shiftl 1 14;
     Ads.RCS := 0;
     Ads.RING_HWS_PGA := fun base => base + 0x80;
     Ads.RING_MODE_GEN7 := fun base => base + 0x29c;
     Ads.RING_IMR := fun base => base + 0xa8;
     Ads.RING_FORCE_TO_NONPRIV := fun base i => base + 0x4D0 + Z.of_nat i * 4;
     Ads.sizeof_guc_ads := 64;
     Ads.sizeof_guc_policies := 648;
     Ads.sizeof_guc_mmio_reg_state := 2128 |}.

Definition rcs : Ads.intel_engine_cs :=
  {| Ads.id := 0; Ads.guc_id := 0; Ads.mmio_base := 0x2000;
     Ads.context_size := 22 * 4096 |}.
Definition bcs : Ads.intel_engine_cs :=
  {| Ads.id := 1; Ads.guc_id := 2; Ads.mmio_base := 0x22000;
     Ads.context_size := 2 * 4096 |}.
Definition vcs : Ads.intel_engine_cs :=
  {| Ads.id := 2; Ads.guc_id := 1; Ads.mmio_base := 0x12000;
     Ads.context_size := 2 * 4096 |}.

(** Two workarounds, one of them with the value 0. *)
Definition ads_env : Ads.ads_env :=
  {| Ads.engines := [rcs; bcs; vcs];
     Ads.I915_READ := fun reg => Z.land reg 0xFFF;
     Ads.guc_reg := [ {| Ads.addr := 0x7014; Ads.wa_value := 0x400040 |};
                      {| Ads.addr := 0xe4f0; Ads.wa_value := 0 |} ];
     Ads.kernel_ctx_ggtt_offset := 0x100000;
     Ads.allocate_vma := inr (0x200000, Ads.blob_zero i915) |}.

(** What [intel_guc_ads_create] leaves in the object on this platform. *)
Definition filled : Ads.ads_blob * nat :=
  Ads.ads_fill i915 ads_env 0x200000 (Ads.blob_zero i915).

(** 26 macro uses, one more than a list holds. *)
Definition adds : list (Z * Z * Z) :=
  (fun i => (0x2000 + 4 * i, 0x6, i)) <$> seqZ 0 26.

(** The selftest runner: the tests in order, up to the first failure. *)
Fixpoint run_subtests (tests : list (Igt.hstate -> Z * Igt.hstate))
    (s : Igt.hstate) : Z * Igt.hstate :=
  match tests with
  | [] => (0, s)
  | t :: rest =>
      let '(err, s1) := t s in
      if decide (err = 0) then run_subtests rest s1 else (err, s1)
  end.

(** A reset that counts the way the driver does: the engine's own counter
    goes up, the global counter of full resets does not. *)
Definition reset_counting_engine (e : nat) (g : Igt.i915_gpu_error)
    : Z * Igt.i915_gpu_error :=
  (0, {| Igt.reset_count := Igt.reset_count g;
         Igt.reset_engine_count := alter Z.succ e (Igt.reset_engine_count g);
         Igt.flags := Igt.flags g |}).

(** A reset that also bumps the global counter on every attempt. *)
Definition reset_counting_both (e : nat) (g : Igt.i915_gpu_error)
    : Z * Igt.i915_gpu_error :=
  (0, {| Igt.reset_count := Igt.reset_count g + 1;
         Igt.reset_engine_count := alter Z.succ e (Igt.reset_engine_count g);
         Igt.flags := Igt.flags g |}).

(** Four engines; every worker starts and returns 0; the reset loop runs
    three times. *)
Definition igt_env (has_reset_engine has_gpu_reset : bool)
    (reset : nat -> Igt.i915_gpu_error -> Z * Igt.i915_gpu_error)
    : Igt.igt_env :=
  {| Igt.engines := [0; 1; 2; 3]%nat;
     Igt.intel_has_reset_engine := has_reset_engine;
     Igt.intel_has_gpu_reset := has_gpu_reset;
     Igt.kthread_run := fun _ _ => 0;
     Igt.kthread_stop := fun _ _ => 0;
     Igt.i915_reset_engine := reset;
     Igt.timeout_ticks := fun _ _ => 2%nat;
     Igt.I915_RESET_ENGINE := 2;
     Igt.I915_WEDGED := 63;
     Igt.i915_subtests := run_subtests |}.

Definition idle : Igt.hstate :=
  {| Igt.error := {| Igt.reset_count := 7;
                     Igt.reset_engine_count := [0; 0; 0; 0];
                     Igt.flags := 0 |};
     Igt.log := [] |}.

End Sample.

(* ================================================================= *)
(** ** intel_guc_ads.c: lists, rows and tables in any state *)

Module AdsState.
Import Ads.

Section State.
Variable h : fwif.

(** A list whose array has its [GUC_REGSET_MAX_REGISTERS] slots and whose
    count lies within them; the contents of the slots are arbitrary. *)
Definition regset_wf (node : guc_mmio_regset) : Prop :=
  Z.of_nat (length (registers node)) = GUC_REGSET_MAX_REGISTERS h
  ∧ 0 <= number_of_registers node <= GUC_REGSET_MAX_REGISTERS h.

(** What a macro use with room leaves in a slot that held [r]: the offset
    and the flags given, and the value given unless it is 0. *)
Definition entry_over (r : guc_mmio_reg) (c : Z * Z * Z) : guc_mmio_reg :=
  {| offset := c.1.1;
     value := if decide (c.2 = 0) then value r else c.2;
     flags := c.1.2 |}.

(** How many of [k] further macro uses find room in a list that holds
    [n] entries. *)
Definition room (n k : nat) : nat :=
  (Z.to_nat (GUC_REGSET_MAX_REGISTERS h) - n) `min` k.

(** The per-engine arrays have their [GUC_MAX_ENGINES_NUM] rows and every
    whitelist its [GUC_MMIO_WHITE_LIST_MAX] slots. *)
Definition reg_state_shaped (rs : guc_mmio_reg_state) : Prop :=
  length (engine_reg rs) = GUC_MAX_ENGINES_NUM h
  ∧ length (white_list rs) = GUC_MAX_ENGINES_NUM h
  ∧ Forall (fun w => length (offsets w) = GUC_MMIO_WHITE_LIST_MAX h)
           (white_list rs).

(** The cell [guc_policy_init] leaves. *)
Definition policy_defaults : guc_policy :=
  {| execution_quantum := POLICY_DEFAULT_EXECUTION_QUANTUM_US h;
     preemption_time := POLICY_DEFAULT_PREEMPTION_TIME_US h;
     fault_time := POLICY_DEFAULT_FAULT_TIME_US h;
     policy_flags := 0 |}.

(** The cells the loops of [guc_policies_init] visit. *)
Definition in_loops (p i : nat) : Prop :=
  (p < GUC_CLIENT_PRIORITY_NUM h)%nat
  ∧ (GUC_RENDER_ENGINE h <= i < GUC_MAX_ENGINES_NUM h)%nat.

End State.

#[global] Instance in_loops_dec (h : fwif) (p i : nat) :
  Decision (in_loops h p i).
Proof. unfold in_loops. apply _. Defined.

End AdsState.

(* ================================================================= *)
(** ** selftests/intel_shit.c: which request sits in which slot *)

Module WorkerOrder.
Import Worker.

(** With [n] requests allocated so far, the two most recent ones sit in the
    slots of their parity, a slot no request was put in is still [NULL],
    [count] is [n] as long as the loop runs, and between a submit and the
    wait [old] is the request allocated two before the newest. *)
Definition slots_inv (s : wstate) : Prop :=
  let n := next_request s in
  length (rq s) = 2%nat
  ∧ (∀ k, (k < n <= k + 2)%nat -> rq s !! (k mod 2)%nat = Some (Some k))
  ∧ (∀ k, (n <= k < 2)%nat -> rq s !! k = Some None)
  ∧ (pc s ≠ Exited -> count s = ulong (Z.of_nat n))
  ∧ (∀ old, pc s = Submitted old ->
            old = if decide (3 <= n)%nat then Some (n - 3)%nat else None).

End WorkerOrder.

(* ================================================================= *)
(** ** selftests/intel_shit.c: the calls of the worker thread *)

Module Thread.

(** The calls [shit_active_engine] makes, in program order.  A request is
    named by the order of its allocation; [t_should_stop b] is a call of
    [kthread_should_stop()] that returns [b], [t_request_alloc idx] a call
    of [i915_request_alloc(engine, ctx[idx])], and [t_request_put None] is
    [i915_request_put(NULL)]. *)
Inductive tev :=
| t_mock_file
| t_mutex_lock
| t_mutex_unlock
| t_live_context (k : nat)
| t_context_put (k : nat)
| t_should_stop (b : bool)
| t_request_alloc (idx : nat)
| t_request_get (r : nat)
| t_request_add (r : nat)
| t_request_wait (r : nat)
| t_request_put (r : option nat)
| t_mock_file_free.

#[global] Instance tev_eq_dec : EqDecision tev.
Proof. solve_decision. Defined.

(** What the collaborators return: 0 stands for a valid pointer, anything
    else for the [PTR_ERR] of an error pointer.  [allocs] holds the result
    of [i915_request_alloc] for every iteration entered; when it is used
    up, [kthread_should_stop()] returns true. *)
Record tenv := {
  mock_file : Z;
  live_context : nat -> Z;
  allocs : list Z
}.

(** The [while (!kthread_should_stop())] loop: the value left in [err], the
    final [rq[]], and the calls made. *)
Fixpoint submit_loop (results : list Z) (rq : list (option nat)) (count : Z)
    (next : nat) : Z * list (option nat) * list tev :=
  match results with
  | [] => (0, rq, [t_should_stop true])
  | a :: rest =>
      let idx := Z.to_nat (Z.land count 1) in
      let old := mjoin (rq !! idx) in
      if decide (a = 0) then
        let '(err, rq', tr) :=
          submit_loop rest (<[idx := Some next]> rq)
                      (Worker.ulong (count + 1)) (S next) in
        (err, rq',
         [t_should_stop false; t_mutex_lock; t_request_alloc idx;
          t_request_get next; t_request_add next; t_mutex_unlock]
         ++ match old with
            | Some r => [t_request_wait r; t_request_put (Some r)]
            | None => []
            end
         ++ tr)
      else (a, rq,
            [t_should_stop false; t_mutex_lock; t_request_alloc idx;
             t_mutex_unlock])
  end.

Definition shit_active_engine (env : tenv) : Z * list tev :=
  if decide (mock_file env = 0) then
    let tr0 := [t_mock_file; t_mutex_lock; t_live_context 0; t_mutex_unlock] in
    if decide (live_context env 0 = 0) then
      let tr1 := [t_mutex_lock; t_live_context 1; t_mutex_unlock] in
      if decide (live_context env 1 = 0) then
        let '(err, rq, tr) := submit_loop (allocs env) [None; None] 0 0 in
        (err,
         tr0 ++ tr1 ++ tr
         ++ [t_request_put (mjoin (rq !! 0%nat));
             t_request_put (mjoin (rq !! 1%nat));
             t_mock_file_free])
      else (live_context env 1, tr0 ++ tr1 ++ [t_context_put 0; t_mock_file_free])
    else (live_context env 0, tr0 ++ [t_mock_file_free])
  else (mock_file env, [t_mock_file]).

(** *** Disciplines a sequence of calls may keep *)

(** [struct_mutex]: [Some held'] when, starting with the mutex held or not
    as [held] says, it is never taken while held nor released while free,
    [live_context], [i915_request_alloc] and [i915_request_add] are called
    with it held and [i915_request_wait] without; [held'] is its state at
    the end. *)
Fixpoint mutex_run (held : bool) (tr : list tev) : option bool :=
  match tr with
  | [] => Some held
  | e :: tr' =>
      match e with
      | t_mutex_lock => if held then None else mutex_run true tr'
      | t_mutex_unlock => if held then mutex_run false tr' else None
      | t_live_context _ | t_request_alloc _ | t_request_add _ =>
          if held then mutex_run held tr' else None
      | t_request_wait _ => if held then None else mutex_run held tr'
      | _ => mutex_run held tr'
      end
  end.

(** Request references: [Some held'] when, starting with references to the
    requests in [held], [i915_request_get] is called on requests no
    reference is held to, and [i915_request_wait] and [i915_request_put] on
    requests a reference is held to; [held'] is what is held at the end. *)
Fixpoint refs_run (held : gset nat) (tr : list tev) : option (gset nat) :=
  match tr with
  | [] => Some held
  | e :: tr' =>
      match e with
      | t_request_get r =>
          if decide (r ∈ held) then None else refs_run ({[r]} ∪ held) tr'
      | t_request_wait r =>
          if decide (r ∈ held) then refs_run held tr' else None
      | t_request_put (Some r) =>
          if decide (r ∈ held) then refs_run (held ∖ {[r]}) tr' else None
      | _ => refs_run held tr'
      end
  end.

(** The requests queued and the requests waited for, in order. *)
Definition added (tr : list tev) : list nat :=
  omap (fun e => match e with t_request_add r => Some r | _ => None end) tr.

Definition waited (tr : list tev) : list nat :=
  omap (fun e => match e with t_request_wait r => Some r | _ => None end) tr.

(** The first value of a list that is not 0, or 0. *)
Definition first_error (l : list Z) : Z :=
  default 0 (head (filter (fun x => x ≠ 0) l)).

(** One iteration that submits request [j]. *)
Definition iteration (j : nat) : list tev :=
  [t_should_stop false; t_mutex_lock; t_request_alloc (j mod 2);
   t_request_get j; t_request_add j; t_mutex_unlock]
  ++ (if decide (2 <= j)%nat
      then [t_request_wait (j - 2); t_request_put (Some (j - 2)%nat)]
      else []).

(** The way out of the loop after [n] requests: a stop, or a failed
    allocation. *)
Definition loop_exit (n : nat) (rest : list Z) : list tev :=
  match rest with
  | [] => [t_should_stop true]
  | _ => [t_should_stop false; t_mutex_lock; t_request_alloc (n mod 2);
          t_mutex_unlock]
  end.

(** The state of the loop after [n] requests, as a state of [Worker]. *)
Definition at_loop_head (rq : list (option nat)) (count : Z) (n : nat)
    : Worker.wstate :=
  {| Worker.rq := rq; Worker.count := count; Worker.err := 0;
     Worker.pc := Worker.LoopHead; Worker.next_request := n;
     Worker.outstanding := ∅ |}.

(** The requests a reference is held to after [n] requests were
    submitted: the last two. *)
Definition recent_set (n : nat) : gset nat :=
  list_to_set (seq (n - 2) (n `min` 2)).

End Thread.

(* ================================================================= *)
(** ** What the log of the harness shows *)

Module IgtLog.
Import Igt.

(** The engines [kthread_run] was called for, [kthread_stop] was called
    for, and [i915_reset_engine] was called on, in order. *)
Definition kthreads_run (l : list event) : list nat :=
  omap (fun ev => match ev with ev_kthread_run a => Some a | _ => None end) l.

Definition kthreads_stopped (l : list event) : list nat :=
  omap (fun ev => match ev with ev_kthread_stop a => Some a | _ => None end) l.

Definition resets_issued (l : list event) : list nat :=
  omap (fun ev => match ev with ev_reset_engine e => Some e | _ => None end) l.

End IgtLog.

(* ================================================================= *)
(** ** Inputs in which a collaborator fails *)

Module Faults.

Definition ENOMEM : Z := 12.

(** A worker whose fourth request cannot be allocated. *)
Definition thread_env : Thread.tenv :=
  {| Thread.mock_file := 0;
     Thread.live_context := fun _ => 0;
     Thread.allocs := [0; 0; 0; - ENOMEM] |}.

(** The harness of [Sample] when the worker for engine 1 cannot be
    started. *)
Definition start_fails : Igt.igt_env :=
  {| Igt.engines := [0; 1; 2; 3]%nat;
     Igt.intel_has_reset_engine := true;
     Igt.intel_has_gpu_reset := true;
     Igt.kthread_run := fun _ a => if decide (a = 1%nat) then - ENOMEM else 0;
     Igt.kthread_stop := fun _ _ => 0;
     Igt.i915_reset_engine := Sample.reset_counting_engine;
     Igt.timeout_ticks := fun _ _ => 2%nat;
     Igt.I915_RESET_ENGINE := 2;
     Igt.I915_WEDGED := 63;
     Igt.i915_subtests := Sample.run_subtests |}.

(** The harness of [Sample] when every reset fails. *)
Definition reset_fails : Igt.igt_env :=
  Sample.igt_env true true (fun _ g => (- Igt.EIO, g)).

End Faults.

(* ================================================================= *)
(** ** Properties of the register save/restore lists *)

Module RegisterList.
Import Ads.

Section Facts.
Variable h : fwif.

Lemma u32_small (x : Z) : 0 <= x < 2 ^ 32 -> u32 x = x.
Proof. intros Hx. unfold u32. apply Z.mod_small. exact Hx. Qed.

(** A full list: the macro stores nothing and warns. *)
Lemma add_at_capacity (node : guc_mmio_regset) (reg_addr _flags defvalue : Z) :
  GUC_REGSET_MAX_REGISTERS h <= number_of_registers node ->
  GUC_ADD_MMIO_REG_ADS h node reg_addr _flags defvalue = (node, true).
Proof.
  intros Hfull. unfold GUC_ADD_MMIO_REG_ADS.
  destruct (Z.leb_spec (GUC_REGSET_MAX_REGISTERS h) (number_of_registers node));
    [reflexivity | lia].
Qed.

(** Room left: slot [number_of_registers] gets the offset and the flags,
    and the value when it is not zero; the count grows by one. *)
Lemma add_below_capacity (node : guc_mmio_regset)
    (reg_addr _flags defvalue : Z) (r : guc_mmio_reg) :
  GUC_REGSET_MAX_REGISTERS h < 2 ^ 32 ->
  0 <= number_of_registers node < GUC_REGSET_MAX_REGISTERS h ->
  registers node !! Z.to_nat (number_of_registers node) = Some r ->
  GUC_ADD_MMIO_REG_ADS h node reg_addr _flags defvalue =
    ({| registers :=
          <[Z.to_nat (number_of_registers node) :=
              {| offset := reg_addr;
                 value := if decide (defvalue = 0) then value r else defvalue;
                 flags := _flags |}]> (registers node);
        values_valid := values_valid node;
        number_of_registers := number_of_registers node + 1 |}, false).
Proof.
  intros Hmax Hc Hr. unfold GUC_ADD_MMIO_REG_ADS.
  destruct (Z.leb_spec (GUC_REGSET_MAX_REGISTERS h) (number_of_registers node));
    [lia |].
  rewrite u32_small by lia. f_equal. f_equal.
  rewrite list_insert_alter.
  destruct (Z.eqb_spec defvalue 0) as [-> | Hv].
  - rewrite list_alter_alter_eq. apply list_alter_ext; [| reflexivity].
    intros x Hx. rewrite Hr in Hx. injection Hx as <-.
    rewrite decide_True by reflexivity. reflexivity.
  - rewrite !list_alter_alter_eq. apply list_alter_ext; [| reflexivity].
    intros x Hx. rewrite Hr in Hx. injection Hx as <-.
    rewrite decide_False by exact Hv. reflexivity.
Qed.

Lemma fresh_under_construction (node : guc_mmio_regset) :
  regset_fresh h node -> under_construction h node 0.
Proof.
  intros (Hlen & Hcount & Hzero). unfold under_construction.
  rewrite Hcount, drop_0. auto.
Qed.

(** One more entry, below capacity. *)
Lemma add_register_room (s : building) (n : nat) (c : Z * Z * Z) :
  GUC_REGSET_MAX_REGISTERS h < 2 ^ 32 ->
  under_construction h s.1 n ->
  Z.of_nat n < GUC_REGSET_MAX_REGISTERS h ->
  let s' := add_register h s c in
  under_construction h s'.1 (S n)
  ∧ entries s'.1 = entries s.1 ++ [entry_of c]
  ∧ s'.2 = s.2.
Proof.
  intros Hmax Huc Hn. destruct Huc as (Hlen & Hcount & Hzero).
  destruct s as [node warned], c as [[reg_addr _flags] defvalue]. simpl in *.
  assert (Hlt : (n < length (registers node))%nat) by lia.
  destruct (lookup_lt_is_Some_2 _ _ Hlt) as [r Hr].
  assert (Hr0 : value r = 0).
  { apply (proj1 (Forall_lookup _ _) Hzero 0%nat r).
    rewrite lookup_drop, Nat.add_0_r. exact Hr. }
  rewrite (add_below_capacity node reg_addr _flags defvalue r); simpl;
    [| lia | lia | rewrite Hcount, Nat2Z.id; exact Hr ].
  rewrite Hcount, Nat2Z.id.
  assert (Hval : (if decide (defvalue = 0) then value r else defvalue) = defvalue).
  { destruct (decide (defvalue = 0)); congruence. }
  rewrite Hval. unfold under_construction. simpl. repeat split.
  - rewrite length_insert. exact Hlen.
  - lia.
  - rewrite drop_insert_lt by lia.
    rewrite (drop_S _ _ _ Hr) in Hzero. inversion Hzero; assumption.
  - unfold entries; simpl.
    replace (Z.to_nat (Z.of_nat n + 1)) with (S n) by lia.
    rewrite (take_S_r _ _ (entry_of (reg_addr, _flags, defvalue))).
    + rewrite take_insert_ge by lia. rewrite Hcount, Nat2Z.id. reflexivity.
    + apply list_lookup_insert_eq. exact Hlt.
Qed.

(** No room left. *)
Lemma add_register_full (s : building) (c : Z * Z * Z) :
  GUC_REGSET_MAX_REGISTERS h <= number_of_registers s.1 ->
  add_register h s c = (s.1, S s.2).
Proof.
  intros Hfull. destruct s as [node warned], c as [[reg_addr _flags] defvalue].
  simpl in *. rewrite add_at_capacity by exact Hfull. reflexivity.
Qed.

(** Any number of entries that fit. *)
Lemma add_registers_room (l : list (Z * Z * Z)) (s : building) (n : nat) :
  GUC_REGSET_MAX_REGISTERS h < 2 ^ 32 ->
  under_construction h s.1 n ->
  Z.of_nat (n + length l) <= GUC_REGSET_MAX_REGISTERS h ->
  let s' := foldl (add_register h) s l in
  under_construction h s'.1 (n + length l)
  ∧ entries s'.1 = entries s.1 ++ (entry_of <$> l)
  ∧ s'.2 = s.2.
Proof.
  intros Hmax. revert s n. induction l as [| c l IH]; intros s n Huc Hfit; simpl.
  - rewrite Nat.add_0_r, app_nil_r. auto.
  - simpl in Hfit.
    destruct (add_register_room s n c Hmax Huc) as (Huc1 & Hent1 & Hw1); [lia |].
    destruct (IH (add_register h s c) (S n) Huc1) as (Huc2 & Hent2 & Hw2); [lia |].
    replace (n + S (length l))%nat with (S n + length l)%nat by lia.
    split; [exact Huc2 |]. split.
    + rewrite Hent2, Hent1, <- app_assoc. reflexivity.
    + congruence.
Qed.

(** A full list stays as it is, whatever is added. *)
Lemma add_registers_full (l : list (Z * Z * Z)) (s : building) :
  GUC_REGSET_MAX_REGISTERS h <= number_of_registers s.1 ->
  (foldl (add_register h) s l).1 = s.1.
Proof.
  revert s. induction l as [| c l IH]; intros s Hfull; simpl; [reflexivity |].
  rewrite (add_register_full s c Hfull). rewrite IH by exact Hfull. reflexivity.
Qed.

(** Any number of entries: those that fit are appended, the others
    dropped. *)
Lemma add_registers_any (l : list (Z * Z * Z)) (s : building) (n : nat) :
  GUC_REGSET_MAX_REGISTERS h < 2 ^ 32 ->
  under_construction h s.1 n ->
  Z.of_nat n <= GUC_REGSET_MAX_REGISTERS h ->
  entries (foldl (add_register h) s l).1
  = entries s.1
    ++ take (Z.to_nat (GUC_REGSET_MAX_REGISTERS h) - n) (entry_of <$> l).
Proof.
  intros Hmax Huc Hn.
  set (k := (Z.to_nat (GUC_REGSET_MAX_REGISTERS h) - n)%nat).
  rewrite <- (take_drop k l) at 1. rewrite foldl_app.
  destruct (add_registers_room (take k l) s n Hmax Huc) as (Huc1 & Hent1 & _).
  { rewrite length_take. lia. }
  rewrite <- fmap_take, <- Hent1.
  destruct (decide (length l <= k)%nat) as [Hshort | Hlong].
  - rewrite drop_ge by exact Hshort. reflexivity.
  - f_equal. apply add_registers_full.
    destruct Huc1 as (_ & -> & _). rewrite length_take. lia.
Qed.

(** The list that comes out does not depend on the warnings counted so
    far. *)
Lemma foldl_add_register_warnings (l : list (Z * Z * Z))
    (node : guc_mmio_regset) (w : nat) :
  foldl (add_register h) (node, w) l =
  ((foldl (add_register h) (node, 0%nat) l).1,
   (w + (foldl (add_register h) (node, 0%nat) l).2)%nat).
Proof.
  revert node w. induction l as [| c l IH]; intros node w; simpl.
  - f_equal. lia.
  - destruct c as [[a f] v]. unfold add_register at 2 4 6. simpl.
    destruct (GUC_ADD_MMIO_REG_ADS h node a f v) as [node' [|]]; simpl.
    + rewrite (IH node' (S w)), (IH node' 1%nat). simpl. f_equal. lia.
    + rewrite (IH node' w). reflexivity.
Qed.

Lemma regset_zero_fresh :
  0 <= GUC_REGSET_MAX_REGISTERS h -> regset_fresh h (regset_zero h).
Proof.
  intros Hm. unfold regset_fresh, regset_zero. simpl.
  rewrite length_replicate. split; [lia |]. split; [reflexivity |].
  apply Forall_replicate. reflexivity.
Qed.

End Facts.

(** C9.  A macro use that finds room assigns the offset and the flags of
    the slot at [number_of_registers] and raises the count; the value field
    is assigned only when the default value is not zero.  With a default
    value of 0, whatever the flags, the field keeps what it held. *)
Theorem add_register_value_only_if_nonzero (h : fwif) (node : guc_mmio_regset)
    (reg_addr _flags defvalue : Z) (r : guc_mmio_reg) :
  GUC_REGSET_MAX_REGISTERS h < 2 ^ 32 ->
  0 <= number_of_registers node < GUC_REGSET_MAX_REGISTERS h ->
  registers node !! Z.to_nat (number_of_registers node) = Some r ->
  let result := GUC_ADD_MMIO_REG_ADS h node reg_addr _flags defvalue in
  result.2 = false
  ∧ number_of_registers result.1 = number_of_registers node + 1
  ∧ ∃ r', registers result.1 !! Z.to_nat (number_of_registers node) = Some r'
          ∧ offset r' = reg_addr
          ∧ flags r' = _flags
          ∧ (defvalue ≠ 0 -> value r' = defvalue)
          ∧ (defvalue = 0 -> value r' = value r).
Proof.
  intros Hmax Hc Hr result. subst result.
  rewrite (add_below_capacity h node reg_addr _flags defvalue r Hmax Hc Hr).
  simpl. split; [reflexivity |]. split; [reflexivity |].
  eexists. split.
  - apply list_lookup_insert_eq. apply lookup_lt_is_Some_1. eauto.
  - simpl. repeat split.
    + intros Hv. rewrite decide_False by exact Hv. reflexivity.
    + intros Hv. rewrite decide_True by exact Hv. reflexivity.
Qed.

Lemma add_register_value_only_if_nonzero_witness :
  GUC_REGSET_MAX_REGISTERS Sample.i915 < 2 ^ 32
  ∧ 0 <= number_of_registers (regset_zero Sample.i915)
       < GUC_REGSET_MAX_REGISTERS Sample.i915
  ∧ registers (regset_zero Sample.i915)
      !! Z.to_nat (number_of_registers (regset_zero Sample.i915))
    = Some {| offset := 0; value := 0; flags := 0 |}
  ∧ let result :=
      GUC_ADD_MMIO_REG_ADS Sample.i915 (regset_zero Sample.i915) 0x2080 0xA 0 in
    result.2 = false
    ∧ number_of_registers result.1
      = number_of_registers (regset_zero Sample.i915) + 1
    ∧ ∃ r', registers result.1
              !! Z.to_nat (number_of_registers (regset_zero Sample.i915))
            = Some r'
            ∧ offset r' = 0x2080
            ∧ flags r' = 0xA
            ∧ ((0 : Z) ≠ 0 -> value r' = 0)
            ∧ ((0 : Z) = 0 ->
               value r' = value {| offset := 0; value := 0; flags := 0 |}).
Proof.
  split; [vm_compute; reflexivity |]. split; [vm_compute; split; congruence |].
  split; [reflexivity |].
  apply (add_register_value_only_if_nonzero Sample.i915
           (regset_zero Sample.i915) 0x2080 0xA 0
           {| offset := 0; value := 0; flags := 0 |}).
  - vm_compute; reflexivity.
  - vm_compute; split; congruence.
  - reflexivity.
Defined.

(** C4.  One more macro use than a fresh list of capacity
    [GUC_REGSET_MAX_REGISTERS] holds: the count ends at the capacity, the
    valid entries are the first [GUC_REGSET_MAX_REGISTERS] uses in order
    with their offset, flags and value, exactly one warning was raised, and
    the use at capacity left the whole list as it was. *)
Theorem register_list_overflow (h : fwif) (node : guc_mmio_regset)
    (calls : list (Z * Z * Z)) :
  GUC_REGSET_MAX_REGISTERS h < 2 ^ 32 ->
  regset_fresh h node ->
  Z.of_nat (length calls) = GUC_REGSET_MAX_REGISTERS h + 1 ->
  let C := Z.to_nat (GUC_REGSET_MAX_REGISTERS h) in
  let before_last := foldl (add_register h) (node, 0%nat) (take C calls) in
  let s := foldl (add_register h) (node, 0%nat) calls in
  number_of_registers s.1 = GUC_REGSET_MAX_REGISTERS h
  ∧ entries s.1 = entry_of <$> take C calls
  ∧ s.2 = 1%nat
  ∧ s.1 = before_last.1
  ∧ before_last.2 = 0%nat.
Proof.
  intros Hmax Hfresh Hlen C before_last s.
  pose proof (fresh_under_construction h node Hfresh) as Huc.
  assert (HC : Z.of_nat C = GUC_REGSET_MAX_REGISTERS h).
  { destruct Hfresh as (Hl & _). subst C. lia. }
  destruct (add_registers_room h (take C calls) (node, 0%nat) 0 Hmax Huc)
    as (Huc' & Hent & Hw).
  { rewrite length_take. lia. }
  fold before_last in Huc', Hent, Hw. simpl in Hent, Hw.
  rewrite length_take in Huc'.
  replace (0 + (C `min` length calls))%nat with C in Huc' by lia.
  assert (Hs : s = (before_last.1, 1%nat)).
  { subst s. rewrite <- (take_drop C calls) at 1. rewrite foldl_app.
    fold before_last.
    destruct (drop C calls) as [| c [| c' rest]] eqn:Hdrop.
    - apply (f_equal length) in Hdrop. rewrite length_drop in Hdrop.
      simpl in Hdrop. lia.
    - simpl. rewrite add_register_full.
      + rewrite Hw. reflexivity.
      + destruct Huc' as (_ & Hn & _). lia.
    - apply (f_equal length) in Hdrop. rewrite length_drop in Hdrop.
      simpl in Hdrop. lia. }
  rewrite Hs. simpl. destruct Huc' as (_ & Hn & _).
  split; [lia |]. split; [| auto].
  rewrite Hent. unfold entries. destruct Hfresh as (_ & -> & _). reflexivity.
Qed.

Lemma register_list_overflow_witness :
  GUC_REGSET_MAX_REGISTERS Sample.i915 < 2 ^ 32
  ∧ regset_fresh Sample.i915 (regset_zero Sample.i915)
  ∧ Z.of_nat (length Sample.adds) = GUC_REGSET_MAX_REGISTERS Sample.i915 + 1
  ∧ let C := Z.to_nat (GUC_REGSET_MAX_REGISTERS Sample.i915) in
    let before_last :=
      foldl (add_register Sample.i915) (regset_zero Sample.i915, 0%nat)
            (take C Sample.adds) in
    let s :=
      foldl (add_register Sample.i915) (regset_zero Sample.i915, 0%nat)
            Sample.adds in
    number_of_registers s.1 = GUC_REGSET_MAX_REGISTERS Sample.i915
    ∧ entries s.1 = entry_of <$> take C Sample.adds
    ∧ s.2 = 1%nat
    ∧ s.1 = before_last.1
    ∧ before_last.2 = 0%nat.
Proof.
  assert (Hfresh : regset_fresh Sample.i915 (regset_zero Sample.i915)).
  { apply regset_zero_fresh. vm_compute. congruence. }
  split; [vm_compute; reflexivity |]. split; [exact Hfresh |].
  split; [reflexivity |].
  apply (register_list_overflow Sample.i915 (regset_zero Sample.i915)
           Sample.adds).
  - vm_compute; reflexivity.
  - exact Hfresh.
  - reflexivity.
Defined.

End RegisterList.

(* ================================================================= *)
(** ** Properties of the descriptor blob *)

Module Blob.
Import Ads.

Section Loops.
Variable h : fwif.
Variable env : ads_env.

(** An iteration of the register loop touches only the row of its own
    engine. *)
Lemma reg_state_engine_other (s : guc_mmio_reg_state * nat)
    (e : intel_engine_cs) (g : nat) :
  guc_id e ≠ g ->
  engine_reg (reg_state_engine h env s e).1 !! g = engine_reg s.1 !! g.
Proof.
  intros Hne. destruct s as [rs w]. unfold reg_state_engine.
  destruct (engine_reg rs !! guc_id e) as [node |]; [| reflexivity].
  destruct (fill_regset h env e (node, w)) as [node' w']. simpl.
  apply list_lookup_insert_ne. exact Hne.
Qed.

Lemma reg_state_engine_own (s : guc_mmio_reg_state * nat)
    (e : intel_engine_cs) (node : guc_mmio_regset) :
  engine_reg s.1 !! guc_id e = Some node ->
  engine_reg (reg_state_engine h env s e).1 !! guc_id e
  = Some (fill_regset h env e (node, 0%nat)).1.
Proof.
  intros Hnode. destruct s as [rs w]. simpl in Hnode. unfold reg_state_engine.
  rewrite Hnode. unfold fill_regset.
  rewrite (RegisterList.foldl_add_register_warnings h _ node w). simpl.
  apply list_lookup_insert_eq. apply lookup_lt_is_Some_1. eauto.
Qed.

Lemma reg_state_loop_other (l : list intel_engine_cs)
    (s : guc_mmio_reg_state * nat) (g : nat) :
  g ∉ guc_id <$> l ->
  engine_reg (foldl (reg_state_engine h env) s l).1 !! g = engine_reg s.1 !! g.
Proof.
  revert s. induction l as [| e l IH]; intros s Hg; simpl; [reflexivity |].
  rewrite fmap_cons, not_elem_of_cons in Hg. destruct Hg as [Hne Hg].
  rewrite IH by exact Hg. apply reg_state_engine_other. congruence.
Qed.

(** With distinct [guc_id]s, the row of an engine after the loop is what
    its own iteration made of it. *)
Lemma reg_state_loop_own (l : list intel_engine_cs)
    (s : guc_mmio_reg_state * nat) (e : intel_engine_cs)
    (node : guc_mmio_regset) :
  NoDup (guc_id <$> l) ->
  e ∈ l ->
  engine_reg s.1 !! guc_id e = Some node ->
  engine_reg (foldl (reg_state_engine h env) s l).1 !! guc_id e
  = Some (fill_regset h env e (node, 0%nat)).1.
Proof.
  revert s. induction l as [| e0 l IH]; intros s Hnd He Hnode; [inversion He |].
  simpl. rewrite fmap_cons, NoDup_cons in Hnd. destruct Hnd as [Hfirst Hnd].
  apply elem_of_cons in He as [-> | He].
  - rewrite reg_state_loop_other by exact Hfirst.
    apply reg_state_engine_own. exact Hnode.
  - apply IH; [exact Hnd | exact He |].
    rewrite reg_state_engine_other; [exact Hnode |].
    intros Heq. apply Hfirst. rewrite Heq. apply list_elem_of_fmap_2. exact He.
Qed.

(** The same for the [eng_state_size] loop. *)
Lemma state_size_loop_other (l : list intel_engine_cs) (sizes : list Z)
    (f : intel_engine_cs -> Z) (g : nat) :
  g ∉ guc_id <$> l ->
  foldl (fun acc e => <[guc_id e := f e]> acc) sizes l !! g = sizes !! g.
Proof.
  revert sizes. induction l as [| e l IH]; intros sizes Hg; simpl;
    [reflexivity |].
  rewrite fmap_cons, not_elem_of_cons in Hg. destruct Hg as [Hne Hg].
  rewrite IH by exact Hg. apply list_lookup_insert_ne. congruence.
Qed.

Lemma state_size_loop_own (l : list intel_engine_cs) (sizes : list Z)
    (f : intel_engine_cs -> Z) (e : intel_engine_cs) :
  NoDup (guc_id <$> l) ->
  e ∈ l ->
  (guc_id e < length sizes)%nat ->
  foldl (fun acc e => <[guc_id e := f e]> acc) sizes l !! guc_id e
  = Some (f e).
Proof.
  revert sizes. induction l as [| e0 l IH]; intros sizes Hnd He Hlt;
    [inversion He |].
  simpl. rewrite fmap_cons, NoDup_cons in Hnd. destruct Hnd as [Hfirst Hnd].
  apply elem_of_cons in He as [-> | He].
  - rewrite state_size_loop_other by exact Hfirst.
    apply list_lookup_insert_eq. exact Hlt.
  - apply IH; [exact Hnd | exact He |]. rewrite length_insert. exact Hlt.
Qed.

(** [PAGE_SIZE] is a power of two, so [PAGE_ALIGN] rounds up to a multiple
    of it. *)
Lemma PAGE_SIZE_pow2 : 0 <= PAGE_SHIFT h -> PAGE_SIZE h = 2 ^ PAGE_SHIFT h.
Proof. intros Hs. unfold PAGE_SIZE. rewrite Z.shiftl_1_l. reflexivity. Qed.

Lemma PAGE_ALIGN_div (x : Z) :
  0 <= PAGE_SHIFT h ->
  PAGE_ALIGN h x = (x + (PAGE_SIZE h - 1)) / PAGE_SIZE h * PAGE_SIZE h.
Proof.
  intros Hs. unfold PAGE_ALIGN. rewrite (PAGE_SIZE_pow2 Hs).
  replace (2 ^ PAGE_SHIFT h - 1) with (Z.ones (PAGE_SHIFT h))
    by (rewrite Z.ones_equiv; lia).
  rewrite <- Z.ldiff_land, Z.ldiff_ones_r by exact Hs.
  rewrite Z.shiftl_mul_pow2, Z.shiftr_div_pow2 by exact Hs. reflexivity.
Qed.

Lemma PAGE_ALIGN_le (x : Z) : 0 <= PAGE_SHIFT h -> x <= PAGE_ALIGN h x.
Proof.
  intros Hs. rewrite (PAGE_ALIGN_div x Hs).
  assert (Hpos : 0 < PAGE_SIZE h).
  { rewrite (PAGE_SIZE_pow2 Hs). apply Z.pow_pos_nonneg; lia. }
  pose proof (Z.div_mod (x + (PAGE_SIZE h - 1)) (PAGE_SIZE h)) as Hdm.
  pose proof (Z.mod_pos_bound (x + (PAGE_SIZE h - 1)) (PAGE_SIZE h) Hpos) as Hb.
  lia.
Qed.

Lemma blob_zero_fresh :
  0 <= GUC_REGSET_MAX_REGISTERS h -> blob_fresh h (blob_zero h).
Proof.
  intros Hm. unfold blob_fresh, blob_zero. simpl. rewrite !length_replicate.
  repeat split. apply Forall_replicate.
  apply RegisterList.regset_zero_fresh. exact Hm.
Qed.

End Loops.

Lemma u32_add_idemp_r (a b : Z) : u32 (a + u32 b) = u32 (a + b).
Proof. unfold u32. apply Zplus_mod_idemp_r. Qed.

Lemma u32_sub_idemp_r (a b : Z) : u32 (a - u32 b) = u32 (a - b).
Proof. unfold u32. apply Zminus_mod_idemp_r. Qed.

(** C1, as the code has it.  The address stored in [golden_context_lrca] is
    the GGTT offset of the pinned render default context plus
    [LRC_HEADER_PAGES] pages, in 32-bit arithmetic.  The 80 dwords of
    [LR_HW_CONTEXT_SIZE] are no part of it. *)
Theorem golden_context_skips_header_pages (h : fwif) (env : ads_env)
    (blob : ads_blob) (warned : nat) :
  intel_guc_ads_create h env = (0, Some (blob, warned)) ->
  golden_context_lrca (ads blob)
  = u32 (kernel_ctx_ggtt_offset env + LRC_HEADER_PAGES h * PAGE_SIZE h).
Proof.
  unfold intel_guc_ads_create.
  destruct (allocate_vma env) as [err | [base blob0]]; [discriminate |].
  intros Hres. injection Hres as Hres. unfold ads_fill in Hres.
  destruct (foldl (reg_state_engine h env) (reg_state blob0, 0%nat)
                  (engines env)) as [rs w].
  injection Hres as <- _. simpl. unfold skipped_offset. apply u32_add_idemp_r.
Qed.

Lemma golden_context_skips_header_pages_witness :
  intel_guc_ads_create Sample.i915 Sample.ads_env
  = (0, Some (Sample.filled.1, Sample.filled.2))
  ∧ golden_context_lrca (ads Sample.filled.1)
    = u32 (kernel_ctx_ggtt_offset Sample.ads_env
           + LRC_HEADER_PAGES Sample.i915 * PAGE_SIZE Sample.i915).
Proof.
  split; [vm_compute; reflexivity |].
  apply (golden_context_skips_header_pages Sample.i915 Sample.ads_env
           Sample.filled.1 Sample.filled.2).
  vm_compute; reflexivity.
Defined.

(** C1 as stated fails: with the context pinned at 0x100000 and 4 KiB
    pages the stored address is 0x101000, not 0x101000 + 80 * 4. *)
Lemma golden_context_one_page_only :
  intel_guc_ads_create Sample.i915 Sample.ads_env
  = (0, Some (Sample.filled.1, Sample.filled.2))
  ∧ golden_context_lrca (ads Sample.filled.1) = 0x101000
  ∧ golden_context_lrca (ads Sample.filled.1)
    ≠ kernel_ctx_ggtt_offset Sample.ads_env + (PAGE_SIZE Sample.i915 + 80 * 4).
Proof.
  split; [vm_compute; reflexivity |]. split; [vm_compute; reflexivity |].
  vm_compute. congruence.
Qed.

(** C3, as the code has it.  For every engine, the size stored in
    [eng_state_size] at the engine's [guc_id] is the engine's context size
    minus [LRC_PPHWSP_SZ] pages and 80 dwords, in 32-bit arithmetic; no
    further page is taken off.  The engines have distinct [guc_id]s below
    [GUC_MAX_ENGINES_NUM]. *)
Theorem eng_state_size_excludes_pphwsp_and_hw_context (h : fwif)
    (env : ads_env) (base : Z) (blob0 blob : ads_blob) (warned : nat)
    (e : intel_engine_cs) :
  allocate_vma env = inr (base, blob0) ->
  length (eng_state_size (ads blob0)) = GUC_MAX_ENGINES_NUM h ->
  NoDup (guc_id <$> engines env) ->
  e ∈ engines env ->
  (guc_id e < GUC_MAX_ENGINES_NUM h)%nat ->
  intel_guc_ads_create h env = (0, Some (blob, warned)) ->
  eng_state_size (ads blob) !! guc_id e
  = Some (u32 (context_size e - (LRC_PPHWSP_SZ h * PAGE_SIZE h + 80 * 4))).
Proof.
  intros Halloc Hlen Hnd He Hid. unfold intel_guc_ads_create. rewrite Halloc.
  intros Hres. injection Hres as Hres. unfold ads_fill in Hres.
  destruct (foldl (reg_state_engine h env) (reg_state blob0, 0%nat)
                  (engines env)) as [rs w].
  injection Hres as <- _. simpl.
  rewrite (state_size_loop_own (engines env) _
             (fun e => u32 (context_size e - skipped_size h)) e Hnd He)
    by (rewrite Hlen; exact Hid).
  f_equal. unfold skipped_size, LR_HW_CONTEXT_SIZE. apply u32_sub_idemp_r.
Qed.

Lemma eng_state_size_excludes_pphwsp_and_hw_context_witness :
  allocate_vma Sample.ads_env = inr (0x200000, blob_zero Sample.i915)
  ∧ length (eng_state_size (ads (blob_zero Sample.i915)))
    = GUC_MAX_ENGINES_NUM Sample.i915
  ∧ NoDup (guc_id <$> engines Sample.ads_env)
  ∧ Sample.rcs ∈ engines Sample.ads_env
  ∧ (guc_id Sample.rcs < GUC_MAX_ENGINES_NUM Sample.i915)%nat
  ∧ intel_guc_ads_create Sample.i915 Sample.ads_env
    = (0, Some (Sample.filled.1, Sample.filled.2))
  ∧ eng_state_size (ads Sample.filled.1) !! guc_id Sample.rcs
    = Some (u32 (context_size Sample.rcs
                 - (LRC_PPHWSP_SZ Sample.i915 * PAGE_SIZE Sample.i915
                    + 80 * 4))).
Proof.
  assert (Hnd : NoDup (guc_id <$> engines Sample.ads_env))
    by (apply (bool_decide_unpack _); vm_compute; exact I).
  assert (Hin : Sample.rcs ∈ engines Sample.ads_env) by apply list_elem_of_here.
  assert (Hlt : (guc_id Sample.rcs < GUC_MAX_ENGINES_NUM Sample.i915)%nat)
    by (vm_compute; lia).
  split; [reflexivity |]. split; [reflexivity |].
  split; [exact Hnd |]. split; [exact Hin |].
  split; [exact Hlt |]. split; [vm_compute; reflexivity |].
  apply (eng_state_size_excludes_pphwsp_and_hw_context Sample.i915
           Sample.ads_env 0x200000 (blob_zero Sample.i915)
           Sample.filled.1 Sample.filled.2 Sample.rcs).
  - reflexivity.
  - reflexivity.
  - exact Hnd.
  - exact Hin.
  - exact Hlt.
  - vm_compute; reflexivity.
Defined.

(** C3 as stated fails: for a render context of 22 pages the stored size
    is 22 * 4096 - (4096 + 320) = 85696, one page more than the stated
    22 * 4096 - (4096 + (4096 + 320)). *)
Lemma eng_state_size_keeps_second_page :
  intel_guc_ads_create Sample.i915 Sample.ads_env
  = (0, Some (Sample.filled.1, Sample.filled.2))
  ∧ eng_state_size (ads Sample.filled.1) !! guc_id Sample.rcs = Some 85696
  ∧ eng_state_size (ads Sample.filled.1) !! guc_id Sample.rcs
    ≠ Some (context_size Sample.rcs
            - (LRC_PPHWSP_SZ Sample.i915 * PAGE_SIZE Sample.i915
               + (PAGE_SIZE Sample.i915 + 80 * 4))).
Proof.
  split; [vm_compute; reflexivity |]. split; [vm_compute; reflexivity |].
  vm_compute. congruence.
Qed.

(** C6, as the code has it.  In the order of the layout, policy table,
    then the register-state structure (whitelists and save lists), then the
    register-state buffer, the three stored offsets are strictly
    increasing, each sub-structure ends where the next begins or before,
    and all of them lie in the backing region at [base], whose size is the
    size of the blob rounded up by [PAGE_ALIGN].  The region lies in the 32-bit address space and the
    three sub-structures are not empty. *)
Theorem blob_offsets_in_layout_order (h : fwif) (env : ads_env) (base : Z)
    (blob0 blob : ads_blob) (warned : nat) :
  allocate_vma env = inr (base, blob0) ->
  0 <= PAGE_SHIFT h ->
  0 <= sizeof_guc_ads h ->
  0 < sizeof_guc_policies h ->
  0 < sizeof_guc_mmio_reg_state h ->
  0 < GUC_S3_SAVE_SPACE_PAGES h ->
  0 <= base ->
  base + PAGE_ALIGN h (sizeof_blob h) <= 2 ^ 32 ->
  intel_guc_ads_create h env = (0, Some (blob, warned)) ->
  let region_end := base + PAGE_ALIGN h (sizeof_blob h) in
  let pol := scheduler_policies (ads blob) in
  let regs := reg_state_addr (ads blob) in
  let buf := reg_state_buffer (ads blob) in
  pol < regs < buf
  ∧ base <= pol
  ∧ pol + sizeof_guc_policies h <= regs
  ∧ regs + sizeof_guc_mmio_reg_state h <= buf
  ∧ buf + sizeof_reg_state_buffer h <= region_end.
Proof.
  intros Halloc Hs Hads Hpol Hregs Hs3 Hbase Hfit.
  unfold intel_guc_ads_create. rewrite Halloc.
  intros Hres. injection Hres as Hres. unfold ads_fill in Hres.
  destruct (foldl (reg_state_engine h env) (reg_state blob0, 0%nat)
                  (engines env)) as [rs w].
  injection Hres as <- _. simpl.
  pose proof (PAGE_ALIGN_le h (sizeof_blob h) Hs) as Hal.
  assert (Hbuf : 0 < sizeof_reg_state_buffer h).
  { unfold sizeof_reg_state_buffer. rewrite (PAGE_SIZE_pow2 h Hs).
    apply Z.mul_pos_pos; [exact Hs3 | apply Z.pow_pos_nonneg; lia]. }
  assert (Hsz : sizeof_blob h = sizeof_guc_ads h + sizeof_guc_policies h
                                + sizeof_guc_mmio_reg_state h
                                + sizeof_reg_state_buffer h) by reflexivity.
  unfold offsetof_policies, offsetof_reg_state, offsetof_reg_state_buffer.
  rewrite !RegisterList.u32_small by lia. lia.
Qed.

Lemma blob_offsets_in_layout_order_witness :
  allocate_vma Sample.ads_env = inr (0x200000, blob_zero Sample.i915)
  ∧ 0 <= PAGE_SHIFT Sample.i915
  ∧ 0 <= sizeof_guc_ads Sample.i915
  ∧ 0 < sizeof_guc_policies Sample.i915
  ∧ 0 < sizeof_guc_mmio_reg_state Sample.i915
  ∧ 0 < GUC_S3_SAVE_SPACE_PAGES Sample.i915
  ∧ 0 <= 0x200000
  ∧ 0x200000 + PAGE_ALIGN Sample.i915 (sizeof_blob Sample.i915) <= 2 ^ 32
  ∧ intel_guc_ads_create Sample.i915 Sample.ads_env
    = (0, Some (Sample.filled.1, Sample.filled.2))
  ∧ let region_end :=
      0x200000 + PAGE_ALIGN Sample.i915 (sizeof_blob Sample.i915) in
    let pol := scheduler_policies (ads Sample.filled.1) in
    let regs := reg_state_addr (ads Sample.filled.1) in
    let buf := reg_state_buffer (ads Sample.filled.1) in
    pol < regs < buf
    ∧ 0x200000 <= pol
    ∧ pol + sizeof_guc_policies Sample.i915 <= regs
    ∧ regs + sizeof_guc_mmio_reg_state Sample.i915 <= buf
    ∧ buf + sizeof_reg_state_buffer Sample.i915 <= region_end.
Proof.
  split; [reflexivity |].
  split; [vm_compute; congruence |]. split; [vm_compute; congruence |].
  split; [reflexivity |]. split; [reflexivity |]. split; [reflexivity |].
  split; [vm_compute; congruence |]. split; [vm_compute; congruence |].
  split; [vm_compute; reflexivity |].
  apply (blob_offsets_in_layout_order Sample.i915 Sample.ads_env 0x200000
           (blob_zero Sample.i915) Sample.filled.1 Sample.filled.2).
  - reflexivity.
  - vm_compute; congruence.
  - vm_compute; congruence.
  - reflexivity.
  - reflexivity.
  - reflexivity.
  - vm_compute; congruence.
  - vm_compute; congruence.
  - vm_compute; reflexivity.
Defined.

(** C6 as stated fails: taken in the order policy table, register-state
    buffer, whitelist and save-list region, the offsets do not increase.
    At [base] 0x200000 they are 0x200040, 0x200b18 and 0x2002c8. *)
Lemma reg_state_buffer_is_last :
  intel_guc_ads_create Sample.i915 Sample.ads_env
  = (0, Some (Sample.filled.1, Sample.filled.2))
  ∧ scheduler_policies (ads Sample.filled.1) = 0x200040
  ∧ reg_state_buffer (ads Sample.filled.1) = 0x200b18
  ∧ reg_state_addr (ads Sample.filled.1) = 0x2002c8
  ∧ ¬ (scheduler_policies (ads Sample.filled.1)
       < reg_state_buffer (ads Sample.filled.1)
       < reg_state_addr (ads Sample.filled.1)).
Proof.
  split; [vm_compute; reflexivity |]. split; [vm_compute; reflexivity |].
  split; [vm_compute; reflexivity |]. split; [vm_compute; reflexivity |].
  vm_compute. intros [_ H]. discriminate H.
Qed.

(** C7.  After the build, the list of every engine holds, in this order:
    the hardware status page register with save-current-value, the ring
    mode register with save-default-value and the value read at build time
    or-ed with the run-list enable bit, the interrupt steering bit and
    [0xFFFF << 16], the interrupt mask register with save-current-value,
    and, for the render engine only, every workaround register and value
    with save-default-value; all of them with the engine-reset flag, and as
    far as the [GUC_REGSET_MAX_REGISTERS] slots of the list go.  The object
    is new, and the engines have distinct [guc_id]s below
    [GUC_MAX_ENGINES_NUM]. *)
Theorem engine_save_list_order (h : fwif) (env : ads_env) (base : Z)
    (blob0 blob : ads_blob) (warned : nat) (e : intel_engine_cs) :
  allocate_vma env = inr (base, blob0) ->
  blob_fresh h blob0 ->
  GUC_REGSET_MAX_REGISTERS h < 2 ^ 32 ->
  NoDup (guc_id <$> engines env) ->
  e ∈ engines env ->
  (guc_id e < GUC_MAX_ENGINES_NUM h)%nat ->
  intel_guc_ads_create h env = (0, Some (blob, warned)) ->
  ∃ eng_reg,
    engine_reg (reg_state blob) !! guc_id e = Some eng_reg
    ∧ entries eng_reg =
        take (Z.to_nat (GUC_REGSET_MAX_REGISTERS h))
          ([ {| offset := RING_HWS_PGA h (mmio_base e);
                value := 0;
                flags := Z.lor (GUC_REGSET_ENGINERESET h)
                               (GUC_REGSET_SAVE_CURRENT_VALUE h) |};
             {| offset := RING_MODE_GEN7 h (mmio_base e);
                value :=
                  u32 (Z.lor
                         (Z.lor
                            (Z.lor
                               (I915_READ env (RING_MODE_GEN7 h (mmio_base e)))
                               (GFX_RUN_LIST_ENABLE h))
                            (GFX_INTERRUPT_STEERING h))
                         (Z.shiftl 0xFFFF 16));
                flags := Z.lor (GUC_REGSET_ENGINERESET h)
                               (GUC_REGSET_SAVE_DEFAULT_VALUE h) |};
             {| offset := RING_IMR h (mmio_base e);
                value := 0;
                flags := Z.lor (GUC_REGSET_ENGINERESET h)
                               (GUC_REGSET_SAVE_CURRENT_VALUE h) |} ]
           ++ (if decide (id e = RCS h)
               then (fun w =>
                       {| offset := addr w;
                          value := wa_value w;
                          flags := Z.lor (GUC_REGSET_ENGINERESET h)
                                         (GUC_REGSET_SAVE_DEFAULT_VALUE h) |})
                    <$> guc_reg env
               else [])).
Proof.
  intros Halloc (Hrows & _ & _ & Hfresh) Hmax Hnd He Hid.
  unfold intel_guc_ads_create. rewrite Halloc.
  intros Hres. injection Hres as Hres. unfold ads_fill in Hres.
  destruct (foldl (reg_state_engine h env) (reg_state blob0, 0%nat)
                  (engines env)) as [rs w] eqn:Hloop.
  injection Hres as <- _. simpl.
  assert (Hlt : (guc_id e < length (engine_reg (reg_state blob0)))%nat)
    by (rewrite Hrows; exact Hid).
  destruct (lookup_lt_is_Some_2 _ _ Hlt) as [node Hnode].
  pose proof (proj1 (Forall_lookup _ _) Hfresh _ _ Hnode) as Hnf.
  exists (fill_regset h env e (node, 0%nat)).1. split.
  - pose proof (reg_state_loop_own h env (engines env)
                  (reg_state blob0, 0%nat) e node Hnd He Hnode) as Hown.
    rewrite Hloop in Hown. exact Hown.
  - unfold fill_regset.
    rewrite (RegisterList.add_registers_any h (engine_adds h env e)
               (node, 0%nat) 0 Hmax
               (RegisterList.fresh_under_construction h node Hnf))
      by (destruct Hnf as (<- & _); lia).
    assert (Hnil : entries node = []).
    { unfold entries. destruct Hnf as (_ & -> & _). reflexivity. }
    cbn [fst]. rewrite Hnil, Nat.sub_0_r. cbn [app]. f_equal.
    unfold engine_adds. rewrite fmap_app. cbn [fmap list_fmap]. do 3 f_equal.
    destruct (decide (id e = RCS h)); [| reflexivity].
    rewrite <- list_fmap_compose. reflexivity.
Qed.

Lemma engine_save_list_order_witness :
  allocate_vma Sample.ads_env = inr (0x200000, blob_zero Sample.i915)
  ∧ blob_fresh Sample.i915 (blob_zero Sample.i915)
  ∧ GUC_REGSET_MAX_REGISTERS Sample.i915 < 2 ^ 32
  ∧ NoDup (guc_id <$> engines Sample.ads_env)
  ∧ Sample.rcs ∈ engines Sample.ads_env
  ∧ (guc_id Sample.rcs < GUC_MAX_ENGINES_NUM Sample.i915)%nat
  ∧ intel_guc_ads_create Sample.i915 Sample.ads_env
    = (0, Some (Sample.filled.1, Sample.filled.2))
  ∧ ∃ eng_reg,
      engine_reg (reg_state Sample.filled.1) !! guc_id Sample.rcs
      = Some eng_reg
      ∧ entries eng_reg =
          [ {| offset := 0x2080; value := 0; flags := 0xA |};
            {| offset := 0x229c; value := 0xFFFFC29C; flags := 0x6 |};
            {| offset := 0x20a8; value := 0; flags := 0xA |};
            {| offset := 0x7014; value := 0x400040; flags := 0x6 |};
            {| offset := 0xe4f0; value := 0; flags := 0x6 |} ].
Proof.
  assert (Hfresh : blob_fresh Sample.i915 (blob_zero Sample.i915)).
  { apply blob_zero_fresh. vm_compute. congruence. }
  assert (Hnd : NoDup (guc_id <$> engines Sample.ads_env))
    by (apply (bool_decide_unpack _); vm_compute; exact I).
  assert (Hin : Sample.rcs ∈ engines Sample.ads_env) by apply list_elem_of_here.
  assert (Hlt : (guc_id Sample.rcs < GUC_MAX_ENGINES_NUM Sample.i915)%nat)
    by (vm_compute; lia).
  split; [reflexivity |]. split; [exact Hfresh |]. split; [reflexivity |].
  split; [exact Hnd |]. split; [exact Hin |]. split; [exact Hlt |].
  split; [vm_compute; reflexivity |].
  apply (engine_save_list_order Sample.i915 Sample.ads_env 0x200000
           (blob_zero Sample.i915) Sample.filled.1 Sample.filled.2 Sample.rcs).
  - reflexivity.
  - exact Hfresh.
  - reflexivity.
  - exact Hnd.
  - exact Hin.
  - exact Hlt.
  - vm_compute; reflexivity.
Defined.

End Blob.

(* ================================================================= *)
(** ** Properties of the scheduling policies *)

Module Policies.
Import Ads.

Section Stores.
Variable h : fwif.

(** What one store does to one cell. *)
Lemma cell_store (pol : guc_policies) (s : policy_store) (p i : nat) :
  cell (store pol s) p i =
  match s with
  | St_policy p' i' f v =>
      if decide (p' = p ∧ i' = i) then set_field f v <$> cell pol p i
      else cell pol p i
  | _ => cell pol p i
  end.
Proof.
  destruct s as [v | v | p' i' f v | v]; try reflexivity.
  unfold cell, store; simpl. rewrite list_lookup_alter.
  destruct (decide (p' = p)) as [-> | Hp].
  - destruct (policy pol !! p) as [row |]; simpl.
    + rewrite list_lookup_alter.
      destruct (decide (i' = i)) as [-> | Hi].
      * rewrite decide_True by auto. reflexivity.
      * rewrite decide_False by tauto. reflexivity.
    + destruct (decide (p = p ∧ i' = i)); reflexivity.
  - rewrite decide_False by tauto. reflexivity.
Qed.

Lemma get_set_field (f f' : policy_field) (v : Z) (c : guc_policy) :
  get_field f (set_field f' v c) = if decide (f' = f) then v else get_field f c.
Proof. destruct f, f'; reflexivity. Qed.

Lemma stores_agree_cons (s : policy_store) (l : list policy_store)
    (f : policy_field) (v : Z) :
  stores_agree (s :: l) f v -> stores_agree l f v.
Proof. intros H p i v' Hin. apply (H p i). apply elem_of_cons. auto. Qed.

(** A field that holds [v] keeps it while every store to that field
    stores [v]. *)
Lemma field_kept (l : list policy_store) (pol : guc_policies) (p i : nat)
    (f : policy_field) (v : Z) (c : guc_policy) :
  cell pol p i = Some c ->
  get_field f c = v ->
  stores_agree l f v ->
  ∃ c', cell (foldl store pol l) p i = Some c' ∧ get_field f c' = v.
Proof.
  revert pol c. induction l as [| s l IH]; intros pol c Hc Hf Hag; simpl.
  - eauto.
  - pose proof (cell_store pol s p i) as Hs.
    destruct s as [w | w | p' i' f' w | w];
      try (eapply IH; [rewrite Hs; exact Hc | exact Hf
                      | eapply stores_agree_cons; exact Hag]).
    destruct (decide (p' = p ∧ i' = i)) as [[-> ->] | Hne].
    + rewrite Hc in Hs. simpl in Hs.
      eapply IH; [exact Hs | | eapply stores_agree_cons; exact Hag].
      rewrite get_set_field.
      destruct (decide (f' = f)) as [-> | Hff]; [| exact Hf].
      apply (Hag p i). apply elem_of_cons. auto.
    + eapply IH; [rewrite Hs; exact Hc | exact Hf
                 | eapply stores_agree_cons; exact Hag].
Qed.

(** A field that is stored to ends up with the stored value. *)
Lemma field_stored (l : list policy_store) (pol : guc_policies) (p i : nat)
    (f : policy_field) (v : Z) (c : guc_policy) :
  cell pol p i = Some c ->
  St_policy p i f v ∈ l ->
  stores_agree l f v ->
  ∃ c', cell (foldl store pol l) p i = Some c' ∧ get_field f c' = v.
Proof.
  revert pol c. induction l as [| s l IH]; intros pol c Hc Hin Hag;
    [inversion Hin |].
  simpl. pose proof (cell_store pol s p i) as Hs.
  apply elem_of_cons in Hin as [<- | Hin].
  - rewrite decide_True in Hs by auto. rewrite Hc in Hs. simpl in Hs.
    eapply field_kept; [exact Hs | | eapply stores_agree_cons; exact Hag].
    rewrite get_set_field, decide_True by reflexivity. reflexivity.
  - assert (Hsome : ∃ c1, cell (store pol s) p i = Some c1).
    { rewrite Hs. destruct s as [w | w | p' i' f' w | w]; eauto.
      destruct (decide (p' = p ∧ i' = i)); rewrite ?Hc; simpl; eauto. }
    destruct Hsome as [c1 Hc1].
    eapply IH; [exact Hc1 | exact Hin | eapply stores_agree_cons; exact Hag].
Qed.

(** The stores of the loops: each writes a field of a cell to its
    default. *)
Lemma loop_stores_spec (s : policy_store) :
  s ∈ guc_policies_loop_stores h ↔
  ∃ p i f, s = St_policy p i f (policy_default h f)
           ∧ (p < GUC_CLIENT_PRIORITY_NUM h)%nat
           ∧ (GUC_RENDER_ENGINE h <= i < GUC_MAX_ENGINES_NUM h)%nat.
Proof.
  unfold guc_policies_loop_stores. rewrite list_elem_of_bind. split.
  - intros (p & Hs & Hp). apply list_elem_of_bind in Hs as (i & Hs & Hi).
    apply elem_of_seq in Hp. apply elem_of_seq in Hi.
    unfold guc_policy_init_stores in Hs.
    repeat (apply elem_of_cons in Hs as [-> | Hs]);
      [exists p, i, F_execution_quantum | exists p, i, F_preemption_time
      | exists p, i, F_fault_time | exists p, i, F_policy_flags | inversion Hs];
      (split; [reflexivity | lia]).
  - intros (p & i & f & -> & Hp & Hi). exists p.
    split; [| apply elem_of_seq; lia].
    apply list_elem_of_bind. exists i. split; [| apply elem_of_seq; lia].
    unfold guc_policy_init_stores.
    destruct f;
      repeat first [apply list_elem_of_here | apply list_elem_of_further].
Qed.

Lemma loop_stores_cells :
  Forall (fun s => ∃ p i f, s = St_policy p i f (policy_default h f))
         (guc_policies_loop_stores h).
Proof.
  apply Forall_forall. intros s Hs.
  apply loop_stores_spec in Hs as (p & i & f & -> & _). eauto.
Qed.

Lemma init_stores_agree (f : policy_field) :
  stores_agree (guc_policies_init_stores h) f (policy_default h f).
Proof.
  intros p i v' Hin. unfold guc_policies_init_stores in Hin.
  rewrite !elem_of_app in Hin. destruct Hin as [Hin | [Hin | Hin]].
  - repeat (apply elem_of_cons in Hin as [Hin | Hin]); try discriminate;
      inversion Hin.
  - apply loop_stores_spec in Hin as (p' & i' & f' & Heq & _). congruence.
  - apply elem_of_cons in Hin as [Hin | Hin]; [discriminate | inversion Hin].
Qed.

Lemma cell_shaped (pol : guc_policies) (p i : nat) :
  policies_shaped h pol ->
  (p < GUC_CLIENT_PRIORITY_NUM h)%nat -> (i < GUC_MAX_ENGINES_NUM h)%nat ->
  ∃ c, cell pol p i = Some c.
Proof.
  intros [Hrows Hcols] Hp Hi. unfold cell.
  destruct (lookup_lt_is_Some_2 (policy pol) p) as [row Hrow]; [lia |].
  rewrite Hrow. simpl. apply lookup_lt_is_Some_2.
  rewrite (proj1 (Forall_lookup _ _) Hcols _ _ Hrow). exact Hi.
Qed.

(** Stores other than the one to [is_valid] leave [is_valid] alone. *)
Lemma is_valid_kept (l : list policy_store) (pol : guc_policies) :
  Forall not_is_valid l -> is_valid (foldl store pol l) = is_valid pol.
Proof.
  revert pol. induction l as [| s l IH]; intros pol Hl; [reflexivity |].
  inversion Hl as [| ? ? Hs Hl']; subst. simpl. rewrite IH by exact Hl'.
  destruct s; simpl in *; tauto.
Qed.

(** Stores to cells leave the fields of the table alone. *)
Lemma table_fields_kept (l : list policy_store) (pol : guc_policies) :
  Forall (fun s => ∃ p i f v, s = St_policy p i f v) l ->
  dpc_promote_time (foldl store pol l) = dpc_promote_time pol
  ∧ max_num_work_items (foldl store pol l) = max_num_work_items pol
  ∧ is_valid (foldl store pol l) = is_valid pol.
Proof.
  revert pol. induction l as [| s l IH]; intros pol Hl; [auto |].
  inversion Hl as [| ? ? (p & i & f & v & ->) Hl']; subst. cbn [foldl].
  destruct (IH (store pol (St_policy p i f v)) Hl') as (-> & -> & ->). auto.
Qed.

End Stores.

(** C5, as the code has it.  [guc_policies_init] first stores the
    promotion time and the maximum number of work items of the table, then
    gives every field of every (priority, engine) cell its default
    (execution quantum, preemption time, fault time, flags 0), and stores
    [is_valid = 1] last.  No earlier store touches [is_valid]; after the
    last one the table fields and all cells are populated. *)
Theorem policies_init_validity_last (h : fwif) (pol : guc_policies) :
  policies_shaped h pol ->
  let stores := guc_policies_init_stores h in
  let final := guc_policies_init h pol in
  (∃ cells,
      stores = St_dpc_promote_time (POLICY_DEFAULT_DPC_PROMOTE_TIME_US h)
               :: St_max_num_work_items (POLICY_MAX_NUM_WI h)
               :: cells ++ [St_is_valid 1]
      ∧ Forall (fun s => ∃ p i f, s = St_policy p i f (policy_default h f))
               cells)
  ∧ (∀ k, (k < length stores)%nat ->
          is_valid (foldl store pol (take k stores)) = is_valid pol)
  ∧ is_valid final = 1
  ∧ dpc_promote_time final = POLICY_DEFAULT_DPC_PROMOTE_TIME_US h
  ∧ max_num_work_items final = POLICY_MAX_NUM_WI h
  ∧ (∀ p i, (p < GUC_CLIENT_PRIORITY_NUM h)%nat ->
            (GUC_RENDER_ENGINE h <= i < GUC_MAX_ENGINES_NUM h)%nat ->
            cell final p i =
            Some {| execution_quantum := POLICY_DEFAULT_EXECUTION_QUANTUM_US h;
                    preemption_time := POLICY_DEFAULT_PREEMPTION_TIME_US h;
                    fault_time := POLICY_DEFAULT_FAULT_TIME_US h;
                    policy_flags := 0 |}).
Proof.
  intros Hshape stores final.
  split; [exists (guc_policies_loop_stores h); split;
          [reflexivity | apply loop_stores_cells] |].
  split.
  { intros k Hk. subst stores. unfold guc_policies_init_stores in *.
    rewrite app_assoc in *. rewrite length_app in Hk. simpl in Hk.
    rewrite take_app_le by (rewrite length_app; simpl; lia).
    apply is_valid_kept. apply Forall_take. apply Forall_app. split.
    - repeat constructor.
    - eapply Forall_impl; [apply loop_stores_cells |].
      intros s (p & i & f & ->). exact I. }
  assert (Hfinal : final = store (foldl store
             (store (store pol (St_dpc_promote_time
                                  (POLICY_DEFAULT_DPC_PROMOTE_TIME_US h)))
                    (St_max_num_work_items (POLICY_MAX_NUM_WI h)))
             (guc_policies_loop_stores h)) (St_is_valid 1)).
  { subst final. unfold guc_policies_init, guc_policies_init_stores.
    simpl. rewrite foldl_app. reflexivity. }
  split; [rewrite Hfinal; reflexivity |].
  destruct (table_fields_kept (guc_policies_loop_stores h)
              (store (store pol (St_dpc_promote_time
                                   (POLICY_DEFAULT_DPC_PROMOTE_TIME_US h)))
                     (St_max_num_work_items (POLICY_MAX_NUM_WI h))))
    as (Hd & Hm & _).
  { eapply Forall_impl; [apply loop_stores_cells |].
    intros s (p & i & f & ->). eauto. }
  split; [rewrite Hfinal; exact Hd |].
  split; [rewrite Hfinal; exact Hm |].
  intros p i Hp Hi.
  destruct (cell_shaped h pol p i Hshape Hp) as [c Hc]; [lia |].
  assert (Hfield : ∀ f, ∃ c', cell final p i = Some c'
                              ∧ get_field f c' = policy_default h f).
  { intros f. apply (field_stored _ pol p i f _ c Hc);
      [| apply init_stores_agree].
    unfold guc_policies_init_stores. rewrite !elem_of_app. right. left.
    apply loop_stores_spec. exists p, i, f. auto. }
  destruct (Hfield F_execution_quantum) as (c' & Hc' & H1).
  destruct (Hfield F_preemption_time) as (c2 & Hc2 & H2).
  destruct (Hfield F_fault_time) as (c3 & Hc3 & H3).
  destruct (Hfield F_policy_flags) as (c4 & Hc4 & H4).
  rewrite Hc' in Hc2, Hc3, Hc4. injection Hc2 as <-. injection Hc3 as <-.
  injection Hc4 as <-. rewrite Hc'. destruct c'. simpl in *. congruence.
Qed.

Lemma policies_init_validity_last_witness :
  policies_shaped Sample.i915 (policies (blob_zero Sample.i915))
  ∧ let pol := policies (blob_zero Sample.i915) in
    let stores := guc_policies_init_stores Sample.i915 in
    let final := guc_policies_init Sample.i915 pol in
    (∃ cells,
        stores
        = St_dpc_promote_time (POLICY_DEFAULT_DPC_PROMOTE_TIME_US Sample.i915)
          :: St_max_num_work_items (POLICY_MAX_NUM_WI Sample.i915)
          :: cells ++ [St_is_valid 1]
        ∧ Forall (fun s => ∃ p i f,
                      s = St_policy p i f (policy_default Sample.i915 f))
                 cells)
    ∧ (∀ k, (k < length stores)%nat ->
            is_valid (foldl store pol (take k stores)) = is_valid pol)
    ∧ is_valid final = 1
    ∧ dpc_promote_time final = POLICY_DEFAULT_DPC_PROMOTE_TIME_US Sample.i915
    ∧ max_num_work_items final = POLICY_MAX_NUM_WI Sample.i915
    ∧ (∀ p i, (p < GUC_CLIENT_PRIORITY_NUM Sample.i915)%nat ->
              (GUC_RENDER_ENGINE Sample.i915 <= i
               < GUC_MAX_ENGINES_NUM Sample.i915)%nat ->
              cell final p i =
              Some {| execution_quantum :=
                        POLICY_DEFAULT_EXECUTION_QUANTUM_US Sample.i915;
                      preemption_time :=
                        POLICY_DEFAULT_PREEMPTION_TIME_US Sample.i915;
                      fault_time := POLICY_DEFAULT_FAULT_TIME_US Sample.i915;
                      policy_flags := 0 |}).
Proof.
  assert (Hshape : policies_shaped Sample.i915 (policies (blob_zero Sample.i915))).
  { split; [reflexivity |]. repeat constructor. }
  split; [exact Hshape |].
  apply (policies_init_validity_last Sample.i915
           (policies (blob_zero Sample.i915))).
  exact Hshape.
Defined.

(** C5 as stated fails: the fields of the table come first.  The first two
    stores are the promotion time and the maximum number of work items, the
    third is the first store to a cell; after the first two, the table
    fields are set and cell (0, 0) is still all zero. *)
Lemma table_fields_written_before_cells :
  let stores := guc_policies_init_stores Sample.i915 in
  let mid := foldl store (policies (blob_zero Sample.i915)) (take 2 stores) in
  stores !! 0%nat = Some (St_dpc_promote_time 500000)
  ∧ stores !! 1%nat = Some (St_max_num_work_items 15)
  ∧ stores !! 2%nat = Some (St_policy 0 0 F_execution_quantum 1000000)
  ∧ dpc_promote_time mid = 500000
  ∧ max_num_work_items mid = 15
  ∧ cell mid 0 0 = Some {| execution_quantum := 0; preemption_time := 0;
                           fault_time := 0; policy_flags := 0 |}.
Proof. vm_compute. repeat split. Qed.

End Policies.

(* ================================================================= *)
(** ** Properties of the worker thread *)

Module WorkerFacts.
Import Worker.

Lemma elem_of_slots (s : wstate) (x : nat) : x ∈ slots s ↔ Some x ∈ rq s.
Proof.
  unfold slots. rewrite elem_of_list_to_set, list_elem_of_omap. split.
  - intros (o & Ho & <-). exact Ho.
  - intros Hx. exists (Some x). auto.
Qed.

Lemma size_list_to_set_le (l : list nat) :
  (size (list_to_set l : gset nat) <= length l)%nat.
Proof.
  induction l as [| x l IH].
  - rewrite list_to_set_nil, size_empty. simpl. lia.
  - rewrite list_to_set_cons, size_union_alt, size_singleton. simpl.
    pose proof (subseteq_size (list_to_set l ∖ {[x]}) (list_to_set l : gset nat)
                  (subseteq_difference_l _ _ _ (reflexivity _))) as Hsub.
    lia.
Qed.

Lemma size_slots (s : wstate) : (size (slots s) <= length (rq s))%nat.
Proof.
  unfold slots. etrans; [apply size_list_to_set_le |].
  generalize (rq s). intros l. induction l as [| [x |] l IH]; csimpl; lia.
Qed.

(** [count & 1] is 0 or 1. *)
Lemma idx_range (c : Z) : (Z.to_nat (Z.land c 1) < 2)%nat.
Proof.
  change 1 with (Z.ones 1). rewrite Z.land_ones by lia.
  pose proof (Z.mod_pos_bound c (2 ^ 1)). lia.
Qed.

Lemma inv_init : inv init.
Proof.
  split; [reflexivity |]. unfold init; simpl. apply empty_subseteq.
Qed.

Lemma inv_step (a : action) (s s' : wstate) :
  inv s -> step a s = Some s' -> inv s'.
Proof.
  intros [Hlen Hsub] Hstep. unfold step in Hstep.
  destruct a as [| e | | | r]; destruct (pc s) as [| old |] eqn:Hpc;
    try discriminate; unfold held in Hsub; rewrite Hpc in Hsub.
  - (* submit *)
    injection Hstep as <-. split; simpl; [rewrite length_insert; exact Hlen |].
    set (idx := Z.to_nat (Z.land (count s) 1)).
    assert (Hidx : (idx < length (rq s))%nat) by (rewrite Hlen; apply idx_range).
    intros x Hx. unfold held; simpl.
    assert (Hnew : next_request s ∈ slots
              {| rq := <[idx := Some (next_request s)]> (rq s);
                 count := ulong (count s + 1); err := err s;
                 pc := Submitted (mjoin (rq s !! idx));
                 next_request := S (next_request s);
                 outstanding := {[next_request s]} ∪ outstanding s |}).
    { apply elem_of_slots; simpl. apply list_elem_of_lookup. exists idx.
      apply list_lookup_insert_eq. exact Hidx. }
    apply elem_of_union in Hx as [Hx | Hx].
    + apply elem_of_singleton in Hx as ->.
      destruct (mjoin (rq s !! idx)); [apply elem_of_union_r |]; exact Hnew.
    + apply Hsub, elem_of_slots, list_elem_of_lookup in Hx as [j Hj].
      destruct (decide (j = idx)) as [-> | Hne].
      * rewrite Hj. simpl. apply elem_of_union_l, elem_of_singleton.
        reflexivity.
      * assert (Hin : x ∈ slots
              {| rq := <[idx := Some (next_request s)]> (rq s);
                 count := ulong (count s + 1); err := err s;
                 pc := Submitted (mjoin (rq s !! idx));
                 next_request := S (next_request s);
                 outstanding := {[next_request s]} ∪ outstanding s |}).
        { apply elem_of_slots; simpl. apply list_elem_of_lookup. exists j.
          rewrite list_lookup_insert_ne by congruence. exact Hj. }
        destruct (mjoin (rq s !! idx)); [apply elem_of_union_r |]; exact Hin.
  - (* allocation failure *)
    injection Hstep as <-. split; [exact Hlen | exact Hsub].
  - (* stop *)
    injection Hstep as <-. split; [exact Hlen | exact Hsub].
  - (* wait for old *)
    destruct old as [r |].
    + destruct (bool_decide (r ∈ outstanding s)) eqn:Hr; [discriminate |].
      apply bool_decide_eq_false in Hr.
      injection Hstep as <-. split; [exact Hlen |]. unfold held; simpl.
      intros x Hx. specialize (Hsub x Hx).
      apply elem_of_union in Hsub as [Hx' | Hx']; [| exact Hx'].
      apply elem_of_singleton in Hx' as ->. contradiction.
    + injection Hstep as <-. split; [exact Hlen | exact Hsub].
  - (* completion, at the loop test *)
    destruct (bool_decide (r ∈ outstanding s)); [| discriminate].
    injection Hstep as <-. split; [exact Hlen |].
    apply subseteq_difference_l. exact Hsub.
  - (* completion, between submit and wait *)
    destruct (bool_decide (r ∈ outstanding s)); [| discriminate].
    injection Hstep as <-. split; [exact Hlen |].
    apply subseteq_difference_l. exact Hsub.
  - (* completion, past the loop *)
    destruct (bool_decide (r ∈ outstanding s)); [| discriminate].
    injection Hstep as <-. split; [exact Hlen |].
    apply subseteq_difference_l. exact Hsub.
Qed.

Lemma inv_run (l : list action) (s s' : wstate) :
  inv s -> run l s = Some s' -> inv s'.
Proof.
  revert s. induction l as [| a l IH]; intros s Hinv Hrun; simpl in Hrun.
  - injection Hrun as <-. exact Hinv.
  - destruct (step a s) as [s1 |] eqn:Hstep; [| discriminate].
    eapply IH; [eapply inv_step; eassumption | exact Hrun].
Qed.

(** C8, as the code has it.  At every point of the submit loop at most
    three of the worker's requests are outstanding, and at most two at the
    top of an iteration: the new request is put in the slot and queued
    first, the wait for the slot's previous occupant follows, and only
    requests that sit in one of the two slots can be outstanding when the
    next iteration starts. *)
Theorem worker_outstanding_bound (l : list action) (s : wstate) :
  run l init = Some s ->
  (size (outstanding s) <= 3)%nat
  ∧ (pc s = LoopHead ->
     outstanding s ⊆ slots s ∧ (size (outstanding s) <= 2)%nat).
Proof.
  intros Hrun. destruct (inv_run l init s inv_init Hrun) as [Hlen Hsub].
  pose proof (size_slots s) as Hslots. rewrite Hlen in Hslots.
  pose proof (subseteq_size _ _ Hsub) as Hsize. split.
  - unfold held in Hsize. destruct (pc s) as [| [r |] |]; try lia.
    rewrite size_union_alt, size_singleton in Hsize.
    pose proof (subseteq_size (slots s ∖ {[r]}) (slots s)
                  (subseteq_difference_l _ _ _ (reflexivity _))) as Hd.
    lia.
  - intros Hpc. unfold held in Hsub, Hsize. rewrite Hpc in Hsub, Hsize.
    split; [exact Hsub | lia].
Qed.

Lemma worker_outstanding_bound_witness :
  let l := [a_submit; a_retire; a_submit; a_complete 0; a_retire; a_submit] in
  let s := {| rq := [Some 2%nat; Some 1%nat]; count := 3; err := 0;
              pc := Submitted (Some 0%nat); next_request := 3;
              outstanding :=
                {[2%nat]} ∪ ({[1%nat]} ∪ ({[0%nat]} ∪ ∅) ∖ {[0%nat]}) |} in
  run l init = Some s
  ∧ (size (outstanding s) <= 3)%nat
  ∧ (pc s = LoopHead ->
     outstanding s ⊆ slots s ∧ (size (outstanding s) <= 2)%nat).
Proof.
  intros l s. split; [reflexivity |].
  apply (worker_outstanding_bound l s). reflexivity.
Defined.

(** C8 as stated fails: in the third iteration request 2 is put in slot 0
    and queued while request 0, the slot's previous occupant, and request 1
    have not completed; three requests are outstanding before the wait. *)
Lemma three_outstanding :
  ∃ s, run [a_submit; a_retire; a_submit; a_retire; a_submit] init = Some s
       ∧ size (outstanding s) = 3%nat
       ∧ rq s = [Some 2%nat; Some 1%nat]
       ∧ pc s = Submitted (Some 0%nat)
       ∧ 0%nat ∈ outstanding s
       ∧ ¬ (size (outstanding s) <= 2)%nat.
Proof.
  eexists. split; [reflexivity |].
  split; [vm_compute; reflexivity |].
  split; [reflexivity |]. split; [reflexivity |].
  split; [apply (bool_decide_unpack _); vm_compute; exact I |].
  intros H. vm_compute in H. lia.
Qed.

End WorkerFacts.

(* ================================================================= *)
(** ** Properties of the harness *)

Module IgtFacts.
Import Igt.

Section Round.
Variable env : igt_env.
Variable do_reset : bool.
Variable target : nat.

(** When every worker starts there is no [goto unwind]; [threads] then
    holds every engine but the target, and [resets] its counter. *)
Lemma start_workers_all (actives : list nat) (threads : gset nat)
    (resets : gmap nat Z) (s : hstate) :
  (∀ a, a ∈ actives -> a ≠ target -> kthread_run env target a = 0) ->
  ∃ threads' resets' s',
    start_workers env target actives threads resets s
    = (0, threads', resets', s')
    ∧ (∀ a, a ∈ threads' ↔ a ∈ threads ∨ (a ∈ actives ∧ a ≠ target))
    ∧ (∀ a, a ∈ actives -> a ≠ target ->
            resets' !! a = Some (i915_reset_engine_count (error s) a))
    ∧ (∀ a, a ∉ actives -> resets' !! a = resets !! a).
Proof.
  revert threads resets s. induction actives as [| a0 rest IH];
    intros threads resets s Hrun; simpl.
  - exists threads, resets, s. split; [reflexivity |]. split; [| split].
    + intros a. split; [auto |]. intros [H | [H _]]; [exact H | inversion H].
    + intros a H. inversion H.
    + reflexivity.
  - assert (Hrest : ∀ a, a ∈ rest -> a ≠ target ->
                         kthread_run env target a = 0).
    { intros a Ha. apply Hrun. apply elem_of_cons. auto. }
    destruct (decide (a0 = target)) as [-> | Hne].
    + destruct (IH threads resets s Hrest)
        as (t' & r' & s' & Heq & Ht & Hr & Hr').
      exists t', r', s'. split; [exact Heq |]. split; [| split].
      * intros a. rewrite Ht, elem_of_cons. tauto.
      * intros a Ha Hat. apply elem_of_cons in Ha as [-> | Ha]; [congruence |].
        apply Hr; assumption.
      * intros a Ha. apply Hr'. rewrite not_elem_of_cons in Ha. tauto.
    + rewrite decide_True
        by (apply Hrun; [apply elem_of_cons; auto | exact Hne]).
      destruct (IH ({[a0]} ∪ threads)
                  (<[a0 := i915_reset_engine_count (error s) a0]> resets)
                  (emit [ev_reset_engine_count a0; ev_kthread_run a0] s) Hrest)
        as (t' & r' & s' & Heq & Ht & Hr & Hr').
      exists t', r', s'. split; [exact Heq |]. split; [| split].
      * intros a. rewrite Ht, elem_of_union, elem_of_singleton, elem_of_cons.
        intuition congruence.
      * intros a Ha Hat. destruct (decide (a ∈ rest)) as [Hin | Hnin].
        -- apply Hr; assumption.
        -- apply elem_of_cons in Ha as [-> | Ha]; [| contradiction].
           rewrite Hr' by exact Hnin. apply lookup_insert_eq.
      * intros a Ha. rewrite not_elem_of_cons in Ha. destruct Ha as [Hne' Ha].
        rewrite Hr' by exact Ha. apply lookup_insert_ne. congruence.
Qed.

(** Stopping the workers changes no counter. *)
Lemma stop_workers_error (threads : gset nat) (resets : gmap nat Z)
    (actives : list nat) (err : Z) (s : hstate) :
  error (stop_workers env target threads resets actives err s).2 = error s.
Proof.
  revert err s. induction actives as [| a rest IH]; intros err s; simpl;
    [reflexivity |].
  destruct (decide (a ∈ threads)); [| apply IH].
  destruct (decide (default 0 (resets !! a)
                    = i915_reset_engine_count (error s) a));
    rewrite IH; reflexivity.
Qed.

(** Once [-EIO], always [-EIO]. *)
Lemma stop_workers_eio (threads : gset nat) (resets : gmap nat Z)
    (actives : list nat) (s : hstate) :
  (stop_workers env target threads resets actives (- EIO) s).1 = - EIO.
Proof.
  revert s. induction actives as [| a rest IH]; intros s; cbn [stop_workers];
    [reflexivity |].
  destruct (decide (a ∈ threads)); [| apply IH].
  assert (Herr : (if decide (kthread_stop env target a = 0) then - EIO
                  else if decide (- EIO = 0) then kthread_stop env target a
                       else - EIO) = - EIO).
  { destruct (decide (kthread_stop env target a = 0)); [reflexivity |].
    rewrite decide_False by (unfold EIO; lia). reflexivity. }
  rewrite Herr.
  destruct (decide (default 0 (resets !! a)
                    = i915_reset_engine_count (error s) a)); apply IH.
Qed.

(** A changed counter of an engine with a worker gives [-EIO]. *)
Lemma stop_workers_innocent (threads : gset nat) (resets : gmap nat Z)
    (actives : list nat) (err : Z) (s : hstate) (a : nat) :
  a ∈ actives -> a ∈ threads ->
  default 0 (resets !! a) ≠ i915_reset_engine_count (error s) a ->
  (stop_workers env target threads resets actives err s).1 = - EIO.
Proof.
  revert err s. induction actives as [| a0 rest IH]; intros err s Ha Ht Hne;
    [inversion Ha |].
  cbn [stop_workers]. apply elem_of_cons in Ha as [<- | Ha].
  - rewrite decide_True by exact Ht. rewrite decide_False by exact Hne.
    apply stop_workers_eio.
  - destruct (decide (a0 ∈ threads)); [| apply IH; assumption].
    destruct (decide (default 0 (resets !! a0)
                      = i915_reset_engine_count (error s) a0));
      [apply IH; assumption | apply stop_workers_eio].
Qed.

(** No worker failed and no counter changed: the error is passed on. *)
Lemma stop_workers_clean (threads : gset nat) (resets : gmap nat Z)
    (actives : list nat) (err : Z) (s : hstate) :
  (∀ a, a ∈ actives -> a ∈ threads ->
        kthread_stop env target a = 0
        ∧ default 0 (resets !! a) = i915_reset_engine_count (error s) a) ->
  (stop_workers env target threads resets actives err s).1 = err.
Proof.
  revert err s. induction actives as [| a0 rest IH]; intros err s Hall;
    [reflexivity |].
  cbn [stop_workers].
  assert (Hrest : ∀ g : i915_gpu_error, ∀ a, a ∈ rest -> a ∈ threads ->
            error s = g ->
            kthread_stop env target a = 0
            ∧ default 0 (resets !! a) = i915_reset_engine_count g a).
  { intros g a Ha Ht <-. apply Hall; [apply elem_of_cons; auto | exact Ht]. }
  destruct (decide (a0 ∈ threads)) as [Ht |].
  - destruct (Hall a0) as [Hret Hcnt]; [apply elem_of_cons; auto | exact Ht |].
    rewrite decide_True by exact Hcnt. rewrite (decide_True _ _ Hret).
    apply IH. intros a Ha Hta. apply (Hrest _ a Ha Hta). reflexivity.
  - apply IH. intros a Ha Hta. apply (Hrest _ a Ha Hta). reflexivity.
Qed.

(** A reset that never fails never leaves the reset loop early. *)
Lemma reset_loop_succeeds (ticks : nat) (s : hstate) :
  (∀ g, (i915_reset_engine env target g).1 = 0) ->
  (reset_loop env do_reset target ticks s).1 = 0.
Proof.
  intros Hok. revert s. induction ticks as [| n IH]; intros s; simpl.
  - destruct do_reset.
    + specialize (Hok (error s)).
      destruct (i915_reset_engine env target (error s)) as [r g]. simpl in Hok.
      subst r. reflexivity.
    + reflexivity.
  - destruct do_reset.
    + specialize (Hok (error s)).
      destruct (i915_reset_engine env target (error s)) as [r g]. simpl in Hok.
      subst r. simpl. apply IH.
    + simpl. apply IH.
Qed.

Lemma reset_phase_succeeds (s : hstate) :
  (∀ g, (i915_reset_engine env target g).1 = 0) ->
  (reset_phase env do_reset target 0 s).1 = 0.
Proof.
  intros Hok. unfold reset_phase. simpl.
  match goal with
  | |- context [reset_loop env do_reset target ?n ?s0] =>
      pose proof (reset_loop_succeeds n s0 Hok) as Hr;
      destruct (reset_loop env do_reset target n s0) as [err s2]
  end.
  exact Hr.
Qed.

End Round.

(** C2, as the code has it.  In reset-enabled mode, with every worker
    started, the round of a target engine ends in [-EIO] when the
    per-engine reset counter of any other engine differs from its value
    before the round, or when the global reset counter differs from its
    value before the round by any amount.  The counter of the target engine
    and the number of resets play no part.  When none of these counters
    changed, no reset failed and every worker returned 0, the round ends
    in 0. *)
Theorem isolation_verdict (env : igt_env) (target : nat) (s s' : hstate)
    (err : Z) :
  (∀ a, a ∈ engines env -> a ≠ target -> kthread_run env target a = 0) ->
  round env true target s = (err, s') ->
  let changed :=
    (∃ a, a ∈ engines env ∧ a ≠ target
          ∧ i915_reset_engine_count (error s') a
            ≠ i915_reset_engine_count (error s) a)
    ∨ i915_reset_count (error s') ≠ i915_reset_count (error s) in
  (changed -> err = - EIO)
  ∧ (¬ changed ->
     (∀ g, (i915_reset_engine env target g).1 = 0) ->
     (∀ a, a ∈ engines env -> a ≠ target -> kthread_stop env target a = 0) ->
     err = 0).
Proof.
  intros Hrun Hround changed. unfold round in Hround.
  destruct (start_workers_all env target (engines env) ∅ ∅
              (emit [ev_reset_count] s) Hrun)
    as (threads & resets & s1 & Hstart & Hthreads & Hresets & _).
  rewrite Hstart in Hround.
  destruct (reset_phase env true target 0 s1) as [err1 s2] eqn:Hphase.
  pose proof (stop_workers_error env target threads resets (engines env)
                err1 s2) as Herr3.
  destruct (stop_workers env target threads resets (engines env) err1 s2)
    as [err2 s3] eqn:Hstop.
  simpl in Herr3.
  assert (Hafter : error s' = error s2).
  { destruct (decide (i915_reset_count (error s)
                      = i915_reset_count (error s3)));
      injection Hround as _ <-; simpl; exact Herr3. }
  assert (Hin : ∀ a, a ∈ engines env -> a ≠ target ->
            a ∈ threads
            ∧ default 0 (resets !! a) = i915_reset_engine_count (error s) a).
  { intros a Ha Hat. split.
    - apply Hthreads. right. auto.
    - rewrite (Hresets a Ha Hat). reflexivity. }
  assert (Hout : ∀ a, a ∈ threads -> a ∈ engines env ∧ a ≠ target).
  { intros a Ha. apply Hthreads in Ha as [Ha | Ha]; [| exact Ha].
    apply not_elem_of_empty in Ha. contradiction. }
  subst changed. rewrite Hafter. split.
  - intros [(a & Ha & Hat & Hne) | Hglobal].
    + destruct (Hin a Ha Hat) as [Ht Hbefore].
      pose proof (stop_workers_innocent env target threads resets
                    (engines env) err1 s2 a Ha Ht) as Hinn.
      rewrite Hstop in Hinn. simpl in Hinn.
      rewrite Hinn in Hround by congruence.
      destruct (decide (i915_reset_count (error s)
                        = i915_reset_count (error s3)));
        injection Hround as <- _; reflexivity.
    + rewrite <- Herr3 in Hglobal.
      rewrite decide_False in Hround by congruence.
      injection Hround as <- _. reflexivity.
  - intros Hsame Hreset Hworkers.
    pose proof (reset_phase_succeeds env true target s1 Hreset) as Hp.
    rewrite Hphase in Hp. simpl in Hp. subst err1.
    pose proof (stop_workers_clean env target threads resets (engines env)
                  0 s2) as Hclean.
    rewrite Hstop in Hclean. simpl in Hclean.
    rewrite Hclean in Hround.
    + rewrite decide_True in Hround.
      * injection Hround as <- _. reflexivity.
      * destruct (decide (i915_reset_count (error s)
                          = i915_reset_count (error s3)))
          as [Heq | Hneq]; [exact Heq |].
        exfalso. apply Hsame. right. rewrite <- Herr3. congruence.
    + intros a Ha Ht. destruct (Hout a Ht) as [_ Hat].
      destruct (Hin a Ha Hat) as [_ Hbefore].
      split; [apply Hworkers; assumption |].
      rewrite Hbefore.
      destruct (decide (i915_reset_engine_count (error s) a
                        = i915_reset_engine_count (error s2) a))
        as [Heq | Hneq]; [exact Heq |].
      exfalso. apply Hsame. left. exists a. auto.
Qed.

Lemma isolation_verdict_witness :
  let env := Sample.igt_env true true Sample.reset_counting_engine in
  let r := round env true 2 Sample.idle in
  (∀ a, a ∈ engines env -> a ≠ 2%nat -> kthread_run env 2 a = 0)
  ∧ round env true 2 Sample.idle = (r.1, r.2)
  ∧ let changed :=
      (∃ a, a ∈ engines env ∧ a ≠ 2%nat
            ∧ i915_reset_engine_count (error r.2) a
              ≠ i915_reset_engine_count (error Sample.idle) a)
      ∨ i915_reset_count (error r.2) ≠ i915_reset_count (error Sample.idle) in
    (changed -> r.1 = - EIO)
    ∧ (¬ changed ->
       (∀ g, (i915_reset_engine env 2 g).1 = 0) ->
       (∀ a, a ∈ engines env -> a ≠ 2%nat -> kthread_stop env 2 a = 0) ->
       r.1 = 0).
Proof.
  intros env r. split; [intros a _ _; reflexivity |].
  split; [vm_compute; reflexivity |].
  apply (isolation_verdict env 2 Sample.idle r.2 r.1).
  - intros a _ _. reflexivity.
  - vm_compute; reflexivity.
Defined.

(** C2 as stated fails, both ways, with four engines, target 2 and three
    resets in the round.  When a reset bumps the counter of its engine and
    the global counter, the stated conditions for success hold and the
    round ends in [-EIO].  When a reset bumps the counter of its engine
    only, the global counter has not grown by three, which is a violation
    as stated, and the round ends in 0. *)
Lemma isolation_verdict_not_as_specified :
  let env_both := Sample.igt_env true true Sample.reset_counting_both in
  let env_own := Sample.igt_env true true Sample.reset_counting_engine in
  let r_both := round env_both true 2 Sample.idle in
  let r_own := round env_own true 2 Sample.idle in
  (completed_resets 2 r_both.2 = 3
   ∧ spec_reports_violation (engines env_both) 2
       (error Sample.idle) (error r_both.2) 3 = false
   ∧ r_both.1 = - EIO)
  ∧ (completed_resets 2 r_own.2 = 3
     ∧ spec_reports_violation (engines env_own) 2
         (error Sample.idle) (error r_own.2) 3 = true
     ∧ r_own.1 = 0).
Proof. vm_compute. repeat split. Qed.

(** C10.  Without per-engine reset, [igt_active_engines] returns 0 at once
    in both modes; without GPU reset, [intel_shit_live_selftests] returns 0
    at once.  The state is the one it was called in: no worker was
    started, no reset issued, no counter read. *)
Theorem harness_skipped_without_reset_support (env : igt_env)
    (do_reset : bool) (s : hstate) :
  (intel_has_reset_engine env = false ->
   igt_active_engines env do_reset s = (0, s))
  ∧ (intel_has_gpu_reset env = false ->
     intel_shit_live_selftests env s = (0, s)).
Proof.
  split; intros Hno.
  - unfold igt_active_engines. rewrite Hno. reflexivity.
  - unfold intel_shit_live_selftests. rewrite Hno. reflexivity.
Qed.

Lemma harness_skipped_without_reset_support_witness :
  let env := Sample.igt_env false false Sample.reset_counting_engine in
  intel_has_reset_engine env = false
  ∧ intel_has_gpu_reset env = false
  ∧ igt_active_engines env true Sample.idle = (0, Sample.idle)
  ∧ igt_active_engines env false Sample.idle = (0, Sample.idle)
  ∧ intel_shit_live_selftests env Sample.idle = (0, Sample.idle).
Proof.
  intros env. split; [reflexivity |]. split; [reflexivity |].
  pose proof (harness_skipped_without_reset_support env true Sample.idle)
    as [Ht Hs].
  pose proof (harness_skipped_without_reset_support env false Sample.idle)
    as [Hf _].
  split; [apply Ht; reflexivity |]. split; [apply Hf; reflexivity |].
  apply Hs; reflexivity.
Defined.

End IgtFacts.

(* ================================================================= *)
(** ** The register lists in any state *)

Module RegisterListState.
Import Ads AdsState.

Section Slots.
Variable h : fwif.
Hypothesis Hmax : GUC_REGSET_MAX_REGISTERS h < 2 ^ 32.

(** The effect of any number of macro uses on a list with [n] entries, slot
    by slot. *)
Lemma add_registers_slots (l : list (Z * Z * Z)) (node : guc_mmio_regset)
    (w n : nat) :
  regset_wf h node ->
  number_of_registers node = Z.of_nat n ->
  let s' := foldl (add_register h) (node, w) l in
  let m := room h n (length l) in
  length (registers s'.1) = length (registers node)
  ∧ number_of_registers s'.1 = Z.of_nat (n + m)
  ∧ (s'.2 = w + (length l - m))%nat
  ∧ (∀ j, (j < n ∨ n + m <= j)%nat -> registers s'.1 !! j = registers node !! j)
  ∧ (∀ i, (i < m)%nat ->
       ∃ r c, registers node !! (n + i)%nat = Some r ∧ l !! i = Some c
              ∧ registers s'.1 !! (n + i)%nat = Some (entry_over r c)).
Proof.
  revert node w n. induction l as [| c l IH]; intros node w n Hwf Hn; simpl.
  - unfold room. simpl. rewrite Nat.min_0_r, Nat.add_0_r.
    repeat split; [exact Hn | lia | intros i Hi; lia].
  - destruct Hwf as [Hlen Hrange].
    destruct (decide (Z.of_nat n < GUC_REGSET_MAX_REGISTERS h)) as [Hroom | Hfull].
    + assert (Hlt : (n < length (registers node))%nat) by lia.
      destruct (lookup_lt_is_Some_2 _ _ Hlt) as [r Hr].
      destruct c as [[a f] v].
      assert (Hadd : add_register h (node, w) (a, f, v) =
                ({| registers := <[n := entry_over r (a, f, v)]> (registers node);
                    values_valid := values_valid node;
                    number_of_registers := Z.of_nat (S n) |}, w)).
      { unfold add_register. simpl.
        rewrite (RegisterList.add_below_capacity h node a f v r Hmax);
          [| lia | rewrite Hn, Nat2Z.id; exact Hr].
        rewrite Hn, Nat2Z.id. simpl. do 2 f_equal. lia. }
      rewrite Hadd.
      match goal with |- context [foldl _ (?node1, w) l] =>
        destruct (IH node1 w (S n)) as (IH1 & IH2 & IH3 & IH4 & IH5) end.
      { split; simpl; [rewrite length_insert; exact Hlen | lia]. }
      { reflexivity. }
      simpl in IH1, IH4, IH5.
      assert (Hm : room h n (S (length l)) = S (room h (S n) (length l))).
      { unfold room. lia. }
      rewrite Hm. rewrite length_insert in IH1.
      split; [exact IH1 |]. split; [rewrite IH2; f_equal; lia |].
      split; [rewrite IH3; lia |]. split.
      * intros j Hj. rewrite IH4 by lia. apply list_lookup_insert_ne. lia.
      * intros [| i] Hi.
        -- exists r, (a, f, v). rewrite Nat.add_0_r. split; [exact Hr |].
           split; [reflexivity |]. rewrite IH4 by lia.
           apply list_lookup_insert_eq. exact Hlt.
        -- destruct (IH5 i) as (r' & c' & Hr' & Hc' & Hres); [lia |].
           rewrite list_lookup_insert_ne in Hr' by lia.
           exists r', c'. replace (n + S i)%nat with (S n + i)%nat by lia.
           auto.
    + assert (Hfull' : GUC_REGSET_MAX_REGISTERS h <= number_of_registers (node, w).1)
        by (simpl; lia).
      rewrite (RegisterList.add_register_full h (node, w) c Hfull'). simpl.
      destruct (IH node (S w) n (conj Hlen Hrange) Hn) as (IH1 & IH2 & IH3 & IH4 & IH5).
      assert (Hm : room h n (S (length l)) = 0%nat /\ room h n (length l) = 0%nat).
      { unfold room. lia. }
      destruct Hm as [Hm1 Hm2]. rewrite Hm1. rewrite Hm2 in IH2, IH3, IH4, IH5.
      split; [exact IH1 |]. split; [exact IH2 |]. split; [rewrite IH3; lia |].
      split; [exact IH4 | intros i Hi; lia].
Qed.

End Slots.

Lemma regset_wf_count (h : fwif) (node : guc_mmio_regset) :
  regset_wf h node ->
  number_of_registers node = Z.of_nat (Z.to_nat (number_of_registers node)).
Proof. intros [_ Hr]. lia. Qed.

(** X1.  Any number of uses of [GUC_ADD_MMIO_REG_ADS] on a list in any
    state (array of [GUC_REGSET_MAX_REGISTERS] slots, count within it) only
    appends: the array keeps its size, the count stays within the capacity
    and never goes down, and the entries that were valid before are still
    there, unchanged and in place. *)
Theorem register_list_append_only (h : fwif) (node : guc_mmio_regset)
    (w : nat) (l : list (Z * Z * Z)) :
  GUC_REGSET_MAX_REGISTERS h < 2 ^ 32 ->
  regset_wf h node ->
  let s' := foldl (add_register h) (node, w) l in
  regset_wf h s'.1
  ∧ number_of_registers node <= number_of_registers s'.1
  ∧ entries node `prefix_of` entries s'.1.
Proof.
  intros Hmax Hwf s'.
  destruct (add_registers_slots h Hmax l node w _ Hwf (regset_wf_count h node Hwf))
    as (Hlen & Hcount & _ & Hkeep & _).
  fold s' in Hlen, Hcount, Hkeep.
  set (n := Z.to_nat (number_of_registers node)) in *.
  set (m := room h n (length l)) in *.
  pose proof Hwf as [Hl Hr].
  assert (Hm : (n + m <= Z.to_nat (GUC_REGSET_MAX_REGISTERS h))%nat)
    by (unfold m, room; lia).
  split; [split; [rewrite Hlen; exact Hl | lia] |]. split; [lia |].
  unfold entries. rewrite Hcount, Nat2Z.id. fold n.
  rewrite <- take_take_drop.
  assert (Heq : take n (registers s'.1) = take n (registers node)).
  { apply list_eq. intros j. rewrite !lookup_take.
    destruct (decide (j < n)%nat); [apply Hkeep; lia | reflexivity]. }
  rewrite Heq. apply prefix_app_r. reflexivity.
Qed.

(** X2.  After [k] uses of the macro on a list with [c] entries the
    count is [min(GUC_REGSET_MAX_REGISTERS, c + k)], and every use that did
    not add an entry raised one [WARN_ON]: added entries and warnings sum
    to [k]. *)
Theorem register_list_count_and_warnings (h : fwif) (node : guc_mmio_regset)
    (w : nat) (l : list (Z * Z * Z)) :
  GUC_REGSET_MAX_REGISTERS h < 2 ^ 32 ->
  regset_wf h node ->
  let s' := foldl (add_register h) (node, w) l in
  number_of_registers s'.1
  = Z.min (GUC_REGSET_MAX_REGISTERS h)
          (number_of_registers node + Z.of_nat (length l))
  ∧ Z.of_nat s'.2
    = Z.of_nat w + Z.of_nat (length l)
      - (number_of_registers s'.1 - number_of_registers node).
Proof.
  intros Hmax Hwf s'.
  destruct (add_registers_slots h Hmax l node w _ Hwf (regset_wf_count h node Hwf))
    as (_ & Hcount & Hwarn & _).
  fold s' in Hcount, Hwarn. destruct Hwf as [Hl Hr].
  rewrite Hcount, Hwarn. unfold room. lia.
Qed.

(** X3.  The [i]-th use of the macro, when there is still room for it,
    lands in slot [c + i] with its offset and flags; its value is written
    only when it is not 0, otherwise the slot keeps the value the storage
    held there before. *)
Theorem register_list_entries_over_storage (h : fwif) (node : guc_mmio_regset)
    (w : nat) (l : list (Z * Z * Z)) (i : nat) (c : Z * Z * Z) :
  GUC_REGSET_MAX_REGISTERS h < 2 ^ 32 ->
  regset_wf h node ->
  l !! i = Some c ->
  number_of_registers node + Z.of_nat i < GUC_REGSET_MAX_REGISTERS h ->
  let n := Z.to_nat (number_of_registers node) in
  let s' := foldl (add_register h) (node, w) l in
  ∃ r, registers node !! (n + i)%nat = Some r
       ∧ entries s'.1 !! (n + i)%nat = Some (entry_over r c).
Proof.
  intros Hmax Hwf Hc Hroom n s'.
  destruct (add_registers_slots h Hmax l node w _ Hwf (regset_wf_count h node Hwf))
    as (_ & Hcount & _ & _ & Hnew).
  fold s' n in Hcount, Hnew. destruct Hwf as [Hl Hr].
  pose proof (lookup_lt_Some _ _ _ Hc) as Hi.
  assert (Him : (i < room h n (length l))%nat) by (unfold room, n; lia).
  destruct (Hnew i Him) as (r & c' & Hr' & Hc' & Hres).
  rewrite Hc in Hc'. injection Hc' as <-.
  exists r. split; [exact Hr' |].
  unfold entries. rewrite Hcount, Nat2Z.id.
  rewrite lookup_take_lt by lia. exact Hres.
Qed.

Lemma regset_zero_wf : regset_wf Sample.i915 (regset_zero Sample.i915).
Proof. split; [reflexivity |]. change (0 <= 0 <= 25). lia. Qed.

Lemma register_list_append_only_witness :
  GUC_REGSET_MAX_REGISTERS Sample.i915 < 2 ^ 32
  ∧ regset_wf Sample.i915 (regset_zero Sample.i915)
  ∧ let s' := foldl (add_register Sample.i915) (regset_zero Sample.i915, 0%nat)
                Sample.adds in
    regset_wf Sample.i915 s'.1
    ∧ number_of_registers (regset_zero Sample.i915) <= number_of_registers s'.1
    ∧ entries (regset_zero Sample.i915) `prefix_of` entries s'.1.
Proof.
  split; [reflexivity |]. split; [exact regset_zero_wf |].
  apply (register_list_append_only Sample.i915 (regset_zero Sample.i915) 0
           Sample.adds); [reflexivity | exact regset_zero_wf].
Defined.

Lemma register_list_count_and_warnings_witness :
  GUC_REGSET_MAX_REGISTERS Sample.i915 < 2 ^ 32
  ∧ regset_wf Sample.i915 (regset_zero Sample.i915)
  ∧ let s' := foldl (add_register Sample.i915) (regset_zero Sample.i915, 0%nat)
                Sample.adds in
    number_of_registers s'.1
    = Z.min (GUC_REGSET_MAX_REGISTERS Sample.i915)
        (number_of_registers (regset_zero Sample.i915)
         + Z.of_nat (length Sample.adds))
    ∧ Z.of_nat s'.2
      = Z.of_nat 0 + Z.of_nat (length Sample.adds)
        - (number_of_registers s'.1
           - number_of_registers (regset_zero Sample.i915)).
Proof.
  split; [reflexivity |]. split; [exact regset_zero_wf |].
  apply (register_list_count_and_warnings Sample.i915
           (regset_zero Sample.i915) 0 Sample.adds);
    [reflexivity | exact regset_zero_wf].
Defined.

Lemma register_list_entries_over_storage_witness :
  GUC_REGSET_MAX_REGISTERS Sample.i915 < 2 ^ 32
  ∧ regset_wf Sample.i915 (regset_zero Sample.i915)
  ∧ Sample.adds !! 4%nat = Some (0x2010, 0x6, 4)
  ∧ number_of_registers (regset_zero Sample.i915) + Z.of_nat 4
    < GUC_REGSET_MAX_REGISTERS Sample.i915
  ∧ let n := Z.to_nat (number_of_registers (regset_zero Sample.i915)) in
    let s' := foldl (add_register Sample.i915) (regset_zero Sample.i915, 0%nat)
                Sample.adds in
    ∃ r, registers (regset_zero Sample.i915) !! (n + 4)%nat = Some r
         ∧ entries s'.1 !! (n + 4)%nat = Some (entry_over r (0x2010, 0x6, 4)).
Proof.
  split; [reflexivity |]. split; [exact regset_zero_wf |].
  split; [reflexivity |]. split; [reflexivity |].
  apply (register_list_entries_over_storage Sample.i915
           (regset_zero Sample.i915) 0 Sample.adds 4 (0x2010, 0x6, 4));
    [reflexivity | exact regset_zero_wf | reflexivity | reflexivity].
Defined.

End RegisterListState.

(* ================================================================= *)
(** ** The rows of the register state *)

Module BlobRows.
Import Ads AdsState.

Section Rows.
Variable h : fwif.
Variable env : ads_env.

Lemma reg_state_engine_length (s : guc_mmio_reg_state * nat) (e : intel_engine_cs) :
  length (engine_reg (reg_state_engine h env s e).1) = length (engine_reg s.1).
Proof.
  destruct s as [rs w]. unfold reg_state_engine.
  destruct (engine_reg rs !! guc_id e) as [node |]; [| reflexivity].
  destruct (fill_regset h env e (node, w)) as [node' w']. simpl.
  apply length_insert.
Qed.

Lemma reg_state_engine_global (s : guc_mmio_reg_state * nat) (e : intel_engine_cs) :
  global_reg (reg_state_engine h env s e).1 = global_reg s.1.
Proof.
  destruct s as [rs w]. unfold reg_state_engine.
  destruct (engine_reg rs !! guc_id e) as [node |]; [| reflexivity].
  destruct (fill_regset h env e (node, w)) as [node' w']. reflexivity.
Qed.

Lemma white_list_engine_other (s : guc_mmio_reg_state * nat)
    (e : intel_engine_cs) (g : nat) :
  guc_id e ≠ g ->
  white_list (reg_state_engine h env s e).1 !! g = white_list s.1 !! g.
Proof.
  intros Hne. destruct s as [rs w]. unfold reg_state_engine.
  destruct (engine_reg rs !! guc_id e) as [node |]; [| reflexivity].
  destruct (fill_regset h env e (node, w)) as [node' w']. simpl.
  apply list_lookup_alter_ne. exact Hne.
Qed.

Lemma white_list_engine_own (s : guc_mmio_reg_state * nat) (e : intel_engine_cs) :
  (guc_id e < length (engine_reg s.1))%nat ->
  white_list (reg_state_engine h env s e).1 !! guc_id e
  = fill_white_list h env e <$> white_list s.1 !! guc_id e.
Proof.
  intros Hlt. destruct s as [rs w]. simpl in Hlt. unfold reg_state_engine.
  destruct (lookup_lt_is_Some_2 _ _ Hlt) as [node Hnode]. rewrite Hnode.
  destruct (fill_regset h env e (node, w)) as [node' w']. simpl.
  apply list_lookup_alter_eq.
Qed.

Lemma reg_state_loop_length (l : list intel_engine_cs) (s : guc_mmio_reg_state * nat) :
  length (engine_reg (foldl (reg_state_engine h env) s l).1) = length (engine_reg s.1).
Proof.
  revert s. induction l as [| e l IH]; intros s; simpl; [reflexivity |].
  rewrite IH. apply reg_state_engine_length.
Qed.

Lemma reg_state_loop_global (l : list intel_engine_cs) (s : guc_mmio_reg_state * nat) :
  global_reg (foldl (reg_state_engine h env) s l).1 = global_reg s.1.
Proof.
  revert s. induction l as [| e l IH]; intros s; simpl; [reflexivity |].
  rewrite IH. apply reg_state_engine_global.
Qed.

Lemma white_list_loop_other (l : list intel_engine_cs)
    (s : guc_mmio_reg_state * nat) (g : nat) :
  g ∉ guc_id <$> l ->
  white_list (foldl (reg_state_engine h env) s l).1 !! g = white_list s.1 !! g.
Proof.
  revert s. induction l as [| e l IH]; intros s Hg; simpl; [reflexivity |].
  rewrite fmap_cons, not_elem_of_cons in Hg. destruct Hg as [Hne Hg].
  rewrite IH by exact Hg. apply white_list_engine_other. congruence.
Qed.

Lemma white_list_loop_own (l : list intel_engine_cs)
    (s : guc_mmio_reg_state * nat) (e : intel_engine_cs) :
  NoDup (guc_id <$> l) ->
  e ∈ l ->
  (guc_id e < length (engine_reg s.1))%nat ->
  white_list (foldl (reg_state_engine h env) s l).1 !! guc_id e
  = fill_white_list h env e <$> white_list s.1 !! guc_id e.
Proof.
  revert s. induction l as [| e0 l IH]; intros s Hnd He Hlt; [inversion He |].
  simpl. rewrite fmap_cons, NoDup_cons in Hnd. destruct Hnd as [Hfirst Hnd].
  apply elem_of_cons in He as [-> | He].
  - rewrite white_list_loop_other by exact Hfirst.
    apply white_list_engine_own. exact Hlt.
  - rewrite IH; [| exact Hnd | exact He | rewrite reg_state_engine_length; exact Hlt].
    rewrite white_list_engine_other; [reflexivity |].
    intros Heq. apply Hfirst. rewrite Heq. apply list_elem_of_fmap_2. exact He.
Qed.

(** Writing slots [0 .. k-1] of an array one after the other. *)
Lemma fill_slots (f : nat -> Z) (k : nat) (o : list Z) :
  (k <= length o)%nat ->
  foldl (fun o i => <[i := f i]> o) o (seq 0 k) = (f <$> seq 0 k) ++ drop k o.
Proof.
  induction k as [| k IH]; intros Hk; [reflexivity |].
  rewrite seq_S, foldl_snoc, fmap_app, IH by lia. simpl.
  assert (Hlen : length (f <$> seq 0 k) = k) by (rewrite length_fmap, length_seq; reflexivity).
  destruct (lookup_lt_is_Some_2 o k) as [x Hx]; [lia |].
  rewrite (drop_S _ _ _ Hx).
  replace k with (length (f <$> seq 0 k) + 0)%nat at 1 by lia.
  rewrite insert_app_r. simpl. rewrite <- app_assoc. reflexivity.
Qed.

End Rows.

(** X4.  For every engine, [intel_guc_ads_create] leaves in the
    whitelist row of the engine's [guc_id] the offset of
    [RING_FORCE_TO_NONPRIV(mmio_base, 0)] as [mmio_start], the count
    [GUC_MMIO_WHITE_LIST_MAX], and in [offsets[i]] the value read from
    [RING_FORCE_TO_NONPRIV(mmio_base, i)], for every [i] below the count. *)
Theorem white_list_snapshot (h : fwif) (env : ads_env) (base : Z)
    (blob0 blob : ads_blob) (warned : nat) (e : intel_engine_cs) :
  allocate_vma env = inr (base, blob0) ->
  reg_state_shaped h (reg_state blob0) ->
  NoDup (guc_id <$> engines env) ->
  e ∈ engines env ->
  (guc_id e < GUC_MAX_ENGINES_NUM h)%nat ->
  intel_guc_ads_create h env = (0, Some (blob, warned)) ->
  white_list (reg_state blob) !! guc_id e
  = Some {| mmio_start := RING_FORCE_TO_NONPRIV h (mmio_base e) 0;
            offsets :=
              (fun i => I915_READ env (RING_FORCE_TO_NONPRIV h (mmio_base e) i))
              <$> seq 0 (GUC_MMIO_WHITE_LIST_MAX h);
            count := Z.of_nat (GUC_MMIO_WHITE_LIST_MAX h) |}.
Proof.
  intros Halloc (Hrows & Hwl & Hslots) Hnd He Hid.
  unfold intel_guc_ads_create. rewrite Halloc.
  intros Hres. injection Hres as Hres. unfold ads_fill in Hres.
  destruct (foldl (reg_state_engine h env) (reg_state blob0, 0%nat)
                  (engines env)) as [rs w] eqn:Hloop.
  injection Hres as <- _. simpl.
  pose proof (white_list_loop_own h env (engines env) (reg_state blob0, 0%nat)
                e Hnd He) as Hown.
  rewrite Hloop in Hown. simpl in Hown. rewrite Hown by (rewrite Hrows; exact Hid).
  destruct (lookup_lt_is_Some_2 (white_list (reg_state blob0)) (guc_id e))
    as [wl Hwl0]; [rewrite Hwl; exact Hid |].
  rewrite Hwl0. simpl. f_equal. unfold fill_white_list. f_equal.
  pose proof (proj1 (Forall_lookup _ _) Hslots _ _ Hwl0) as Hlen.
  simpl in Hlen.
  rewrite fill_slots by lia. rewrite drop_ge by lia. apply app_nil_r.
Qed.

(** X5.  A firmware engine index that is the [guc_id] of no engine is
    left alone by [intel_guc_ads_create]: its save/restore list, its
    whitelist row and its state size are what the new object held, and so
    is the global register list. *)
Theorem rows_without_engine_untouched (h : fwif) (env : ads_env) (base : Z)
    (blob0 blob : ads_blob) (warned : nat) (g : nat) :
  allocate_vma env = inr (base, blob0) ->
  (g ∉ guc_id <$> engines env) ->
  intel_guc_ads_create h env = (0, Some (blob, warned)) ->
  engine_reg (reg_state blob) !! g = engine_reg (reg_state blob0) !! g
  ∧ white_list (reg_state blob) !! g = white_list (reg_state blob0) !! g
  ∧ eng_state_size (ads blob) !! g = eng_state_size (ads blob0) !! g
  ∧ global_reg (reg_state blob) = global_reg (reg_state blob0).
Proof.
  intros Halloc Hg. unfold intel_guc_ads_create. rewrite Halloc.
  intros Hres. injection Hres as Hres. unfold ads_fill in Hres.
  destruct (foldl (reg_state_engine h env) (reg_state blob0, 0%nat)
                  (engines env)) as [rs w] eqn:Hloop.
  injection Hres as <- _. simpl.
  pose proof (Blob.reg_state_loop_other h env (engines env)
                (reg_state blob0, 0%nat) g Hg) as H1.
  pose proof (white_list_loop_other h env (engines env)
                (reg_state blob0, 0%nat) g Hg) as H2.
  pose proof (reg_state_loop_global h env (engines env)
                (reg_state blob0, 0%nat)) as H3.
  rewrite Hloop in H1, H2, H3. simpl in H1, H2, H3.
  split; [exact H1 |]. split; [exact H2 |]. split; [| exact H3].
  apply Blob.state_size_loop_other. exact Hg.
Qed.

(** X6.  The state size is computed in [u32] without a check: for a
    context at least as large as the skipped part it is the difference, and
    for a smaller one it wraps around to the difference plus 2^32. *)
Theorem eng_state_size_no_clamp (h : fwif) (env : ads_env) (base : Z)
    (blob0 blob : ads_blob) (warned : nat) (e : intel_engine_cs) :
  allocate_vma env = inr (base, blob0) ->
  length (eng_state_size (ads blob0)) = GUC_MAX_ENGINES_NUM h ->
  NoDup (guc_id <$> engines env) ->
  e ∈ engines env ->
  (guc_id e < GUC_MAX_ENGINES_NUM h)%nat ->
  0 <= context_size e < 2 ^ 32 ->
  0 <= LRC_PPHWSP_SZ h * PAGE_SIZE h + 80 * 4 <= 2 ^ 32 ->
  intel_guc_ads_create h env = (0, Some (blob, warned)) ->
  let skipped := LRC_PPHWSP_SZ h * PAGE_SIZE h + 80 * 4 in
  eng_state_size (ads blob) !! guc_id e
  = Some (if decide (skipped <= context_size e)
          then context_size e - skipped
          else context_size e - skipped + 2 ^ 32).
Proof.
  intros Halloc Hlen Hnd He Hid Hctx Hskip. unfold intel_guc_ads_create.
  rewrite Halloc. intros Hres. injection Hres as Hres. unfold ads_fill in Hres.
  destruct (foldl (reg_state_engine h env) (reg_state blob0, 0%nat)
                  (engines env)) as [rs w].
  injection Hres as <- _. simpl.
  rewrite (Blob.state_size_loop_own (engines env) _
             (fun e => u32 (context_size e - skipped_size h)) e Hnd He)
    by (rewrite Hlen; exact Hid).
  f_equal. unfold skipped_size, LR_HW_CONTEXT_SIZE.
  rewrite Blob.u32_sub_idemp_r. unfold u32.
  destruct (decide (LRC_PPHWSP_SZ h * PAGE_SIZE h + 80 * 4 <= context_size e)).
  - apply Z.mod_small. lia.
  - symmetry. apply (Z.mod_unique _ _ (-1)); lia.
Qed.

Lemma blob_zero_shaped :
  reg_state_shaped Sample.i915 (reg_state (blob_zero Sample.i915)).
Proof. split; [reflexivity |]. split; [reflexivity |]. repeat constructor. Qed.

Lemma sample_guc_ids_distinct : NoDup (guc_id <$> engines Sample.ads_env).
Proof. apply (bool_decide_unpack _). vm_compute. exact I. Qed.

Lemma white_list_snapshot_witness :
  allocate_vma Sample.ads_env = inr (0x200000, blob_zero Sample.i915)
  ∧ reg_state_shaped Sample.i915 (reg_state (blob_zero Sample.i915))
  ∧ NoDup (guc_id <$> engines Sample.ads_env)
  ∧ Sample.bcs ∈ engines Sample.ads_env
  ∧ (guc_id Sample.bcs < GUC_MAX_ENGINES_NUM Sample.i915)%nat
  ∧ intel_guc_ads_create Sample.i915 Sample.ads_env
    = (0, Some (Sample.filled.1, Sample.filled.2))
  ∧ white_list (reg_state Sample.filled.1) !! guc_id Sample.bcs
    = Some {| mmio_start :=
                RING_FORCE_TO_NONPRIV Sample.i915 (mmio_base Sample.bcs) 0;
              offsets :=
                (fun i => I915_READ Sample.ads_env
                            (RING_FORCE_TO_NONPRIV Sample.i915
                               (mmio_base Sample.bcs) i))
                <$> seq 0 (GUC_MMIO_WHITE_LIST_MAX Sample.i915);
              count := Z.of_nat (GUC_MMIO_WHITE_LIST_MAX Sample.i915) |}.
Proof.
  assert (Hin : Sample.bcs ∈ engines Sample.ads_env)
    by (apply list_elem_of_further, list_elem_of_here).
  assert (Hlt : (guc_id Sample.bcs < GUC_MAX_ENGINES_NUM Sample.i915)%nat)
    by (vm_compute; lia).
  split; [reflexivity |]. split; [exact blob_zero_shaped |].
  split; [exact sample_guc_ids_distinct |]. split; [exact Hin |].
  split; [exact Hlt |]. split; [vm_compute; reflexivity |].
  apply (white_list_snapshot Sample.i915 Sample.ads_env 0x200000
           (blob_zero Sample.i915) Sample.filled.1 Sample.filled.2 Sample.bcs).
  - reflexivity.
  - exact blob_zero_shaped.
  - exact sample_guc_ids_distinct.
  - exact Hin.
  - exact Hlt.
  - vm_compute; reflexivity.
Defined.

Lemma sample_no_engine_3 : 3%nat ∉ guc_id <$> engines Sample.ads_env.
Proof. apply (bool_decide_unpack _). vm_compute. exact I. Qed.

Lemma rows_without_engine_untouched_witness :
  allocate_vma Sample.ads_env = inr (0x200000, blob_zero Sample.i915)
  ∧ (3%nat ∉ guc_id <$> engines Sample.ads_env)
  ∧ intel_guc_ads_create Sample.i915 Sample.ads_env
    = (0, Some (Sample.filled.1, Sample.filled.2))
  ∧ engine_reg (reg_state Sample.filled.1) !! 3%nat
    = engine_reg (reg_state (blob_zero Sample.i915)) !! 3%nat
  ∧ white_list (reg_state Sample.filled.1) !! 3%nat
    = white_list (reg_state (blob_zero Sample.i915)) !! 3%nat
  ∧ eng_state_size (ads Sample.filled.1) !! 3%nat
    = eng_state_size (ads (blob_zero Sample.i915)) !! 3%nat
  ∧ global_reg (reg_state Sample.filled.1)
    = global_reg (reg_state (blob_zero Sample.i915)).
Proof.
  split; [reflexivity |]. split; [exact sample_no_engine_3 |].
  split; [vm_compute; reflexivity |].
  apply (rows_without_engine_untouched Sample.i915 Sample.ads_env 0x200000
           (blob_zero Sample.i915) Sample.filled.1 Sample.filled.2 3).
  - reflexivity.
  - exact sample_no_engine_3.
  - vm_compute; reflexivity.
Defined.

Lemma eng_state_size_no_clamp_witness :
  allocate_vma Sample.ads_env = inr (0x200000, blob_zero Sample.i915)
  ∧ length (eng_state_size (ads (blob_zero Sample.i915)))
    = GUC_MAX_ENGINES_NUM Sample.i915
  ∧ NoDup (guc_id <$> engines Sample.ads_env)
  ∧ Sample.vcs ∈ engines Sample.ads_env
  ∧ (guc_id Sample.vcs < GUC_MAX_ENGINES_NUM Sample.i915)%nat
  ∧ 0 <= context_size Sample.vcs < 2 ^ 32
  ∧ 0 <= LRC_PPHWSP_SZ Sample.i915 * PAGE_SIZE Sample.i915 + 80 * 4 <= 2 ^ 32
  ∧ intel_guc_ads_create Sample.i915 Sample.ads_env
    = (0, Some (Sample.filled.1, Sample.filled.2))
  ∧ let skipped :=
      LRC_PPHWSP_SZ Sample.i915 * PAGE_SIZE Sample.i915 + 80 * 4 in
    eng_state_size (ads Sample.filled.1) !! guc_id Sample.vcs
    = Some (if decide (skipped <= context_size Sample.vcs)
            then context_size Sample.vcs - skipped
            else context_size Sample.vcs - skipped + 2 ^ 32).
Proof.
  assert (Hin : Sample.vcs ∈ engines Sample.ads_env)
    by (apply list_elem_of_further, list_elem_of_further, list_elem_of_here).
  assert (Hlt : (guc_id Sample.vcs < GUC_MAX_ENGINES_NUM Sample.i915)%nat)
    by (vm_compute; lia).
  assert (Hctx : 0 <= context_size Sample.vcs < 2 ^ 32)
    by (change (0 <= 2 * 4096 < 2 ^ 32); lia).
  assert (Hskip : 0 <= LRC_PPHWSP_SZ Sample.i915 * PAGE_SIZE Sample.i915
                       + 80 * 4 <= 2 ^ 32)
    by (change (0 <= 1 * 4096 + 80 * 4 <= 2 ^ 32); lia).
  split; [reflexivity |]. split; [reflexivity |].
  split; [exact sample_guc_ids_distinct |]. split; [exact Hin |].
  split; [exact Hlt |]. split; [exact Hctx |]. split; [exact Hskip |].
  split; [vm_compute; reflexivity |].
  apply (eng_state_size_no_clamp Sample.i915 Sample.ads_env 0x200000
           (blob_zero Sample.i915) Sample.filled.1 Sample.filled.2 Sample.vcs).
  - reflexivity.
  - reflexivity.
  - exact sample_guc_ids_distinct.
  - exact Hin.
  - exact Hlt.
  - exact Hctx.
  - exact Hskip.
  - vm_compute; reflexivity.
Defined.

End BlobRows.

(* ================================================================= *)
(** ** The policy table in any state *)

Module PoliciesTable.
Import Ads AdsState.

Section Table.
Variable h : fwif.

(** A cell no store of the list is addressed to stays as it is. *)
Lemma cell_untouched (l : list policy_store) (pol : guc_policies) (p i : nat) :
  (∀ f v, St_policy p i f v ∉ l) ->
  cell (foldl store pol l) p i = cell pol p i.
Proof.
  revert pol. induction l as [| s l IH]; intros pol Hno; [reflexivity |].
  simpl. rewrite IH.
  - rewrite Policies.cell_store. destruct s as [v | v | p' i' f v | v]; try reflexivity.
    destruct (decide (p' = p ∧ i' = i)) as [[-> ->] | Hne]; [| reflexivity].
    exfalso. apply (Hno f v). apply list_elem_of_here.
  - intros f v Hin. apply (Hno f v). apply list_elem_of_further. exact Hin.
Qed.

(** Stores change no dimension of the table. *)
Lemma store_rows (pol : guc_policies) (s : policy_store) :
  length (policy (store pol s)) = length (policy pol).
Proof. destruct s; simpl; try reflexivity. apply length_alter. Qed.

Lemma stores_rows (l : list policy_store) (pol : guc_policies) :
  length (policy (foldl store pol l)) = length (policy pol).
Proof.
  revert pol. induction l as [| s l IH]; intros pol; [reflexivity |].
  simpl. rewrite IH. apply store_rows.
Qed.

(** The table fields after [guc_policies_init], whatever the table was. *)
Lemma init_table_fields (pol : guc_policies) :
  dpc_promote_time (guc_policies_init h pol) = POLICY_DEFAULT_DPC_PROMOTE_TIME_US h
  ∧ max_num_work_items (guc_policies_init h pol) = POLICY_MAX_NUM_WI h
  ∧ is_valid (guc_policies_init h pol) = 1.
Proof.
  unfold guc_policies_init, guc_policies_init_stores. simpl.
  rewrite foldl_app. simpl.
  destruct (Policies.table_fields_kept (guc_policies_loop_stores h)
              (store (store pol (St_dpc_promote_time
                                   (POLICY_DEFAULT_DPC_PROMOTE_TIME_US h)))
                     (St_max_num_work_items (POLICY_MAX_NUM_WI h))))
    as (Hd & Hm & _).
  { eapply Forall_impl; [apply Policies.loop_stores_cells |].
    intros s (p & i & f & ->). eauto. }
  split; [exact Hd |]. split; [exact Hm | reflexivity].
Qed.

(** Every cell after [guc_policies_init]. *)
Lemma init_cell (pol : guc_policies) (p i : nat) :
  cell (guc_policies_init h pol) p i
  = (fun c => if decide (in_loops h p i) then policy_defaults h else c)
    <$> cell pol p i.
Proof.
  destruct (decide (in_loops h p i)) as [Hin | Hout].
  - destruct (cell pol p i) as [c |] eqn:Hc; simpl.
    + assert (Hfield : ∀ f, ∃ c', cell (guc_policies_init h pol) p i = Some c'
                                  ∧ get_field f c' = policy_default h f).
      { intros f. apply (Policies.field_stored _ pol p i f _ c Hc);
          [| apply Policies.init_stores_agree].
        unfold guc_policies_init_stores. rewrite !elem_of_app. right. left.
        apply Policies.loop_stores_spec. exists p, i, f. destruct Hin. auto. }
      destruct (Hfield F_execution_quantum) as (c' & Hc' & H1).
      destruct (Hfield F_preemption_time) as (c2 & Hc2 & H2).
      destruct (Hfield F_fault_time) as (c3 & Hc3 & H3).
      destruct (Hfield F_policy_flags) as (c4 & Hc4 & H4).
      rewrite Hc' in Hc2, Hc3, Hc4. injection Hc2 as <-. injection Hc3 as <-.
      injection Hc4 as <-. rewrite Hc'. unfold policy_defaults.
      destruct c'. simpl in *. congruence.
    + unfold guc_policies_init.
      generalize (guc_policies_init_stores h). intros l. revert pol Hc.
      induction l as [| s l IH]; intros pol Hc; [exact Hc |].
      simpl. apply IH. rewrite Policies.cell_store.
      destruct s as [v | v | p' i' f v | v]; try exact Hc.
      destruct (decide (p' = p ∧ i' = i)); rewrite Hc; reflexivity.
  - unfold guc_policies_init. rewrite cell_untouched.
    + destruct (cell pol p i); reflexivity.
    + intros f v Hinl. unfold guc_policies_init_stores in Hinl.
      rewrite !elem_of_app in Hinl. destruct Hinl as [Hinl | [Hinl | Hinl]].
      * repeat (apply elem_of_cons in Hinl as [Hinl | Hinl]); try discriminate;
          inversion Hinl.
      * apply Policies.loop_stores_spec in Hinl as (p' & i' & f' & Heq & Hp & Hi).
        injection Heq as -> -> _ _. apply Hout. split; assumption.
      * apply elem_of_cons in Hinl as [Hinl | Hinl]; [discriminate | inversion Hinl].
Qed.

(** Two tables with the same rows and the same cells have the same
    matrix. *)
Lemma policy_ext (a b : guc_policies) :
  length (policy a) = length (policy b) ->
  (∀ p i, cell a p i = cell b p i) ->
  policy a = policy b.
Proof.
  intros Hlen Hcells. apply list_eq. intros p.
  destruct (policy a !! p) as [ra |] eqn:Ha, (policy b !! p) as [rb |] eqn:Hb.
  - f_equal. apply list_eq. intros i. specialize (Hcells p i).
    unfold cell in Hcells. rewrite Ha, Hb in Hcells. exact Hcells.
  - apply lookup_lt_Some in Ha. apply lookup_ge_None in Hb. lia.
  - apply lookup_ge_None in Ha. apply lookup_lt_Some in Hb. lia.
  - reflexivity.
Qed.

Lemma guc_policies_eq (a b : guc_policies) :
  policy a = policy b -> dpc_promote_time a = dpc_promote_time b ->
  is_valid a = is_valid b -> max_num_work_items a = max_num_work_items b ->
  a = b.
Proof. destruct a, b; simpl; congruence. Qed.

End Table.

(** X7.  [guc_policies_init] on any table: a cell the loops visit
    (priority below [GUC_CLIENT_PRIORITY_NUM], engine from
    [GUC_RENDER_ENGINE] to below [GUC_MAX_ENGINES_NUM]) ends with the
    defaults in the four fields [guc_policy_init] writes, whatever they
    held; any other cell of the array is left as it was. *)
Theorem policies_init_cells (h : fwif) (pol : guc_policies) (p i : nat)
    (c : guc_policy) :
  cell pol p i = Some c ->
  ((p < GUC_CLIENT_PRIORITY_NUM h)%nat
   ∧ (GUC_RENDER_ENGINE h <= i < GUC_MAX_ENGINES_NUM h)%nat ->
   cell (guc_policies_init h pol) p i = Some (policy_defaults h))
  ∧ (¬ ((p < GUC_CLIENT_PRIORITY_NUM h)%nat
        ∧ (GUC_RENDER_ENGINE h <= i < GUC_MAX_ENGINES_NUM h)%nat) ->
     cell (guc_policies_init h pol) p i = Some c).
Proof.
  intros Hc. rewrite init_cell, Hc. simpl. split; intros Hin.
  - rewrite decide_True by exact Hin. reflexivity.
  - rewrite decide_False by exact Hin. reflexivity.
Qed.

(** X8.  [guc_policies_init] is idempotent: running it on a table it
    has already initialised changes nothing. *)
Theorem policies_init_idempotent (h : fwif) (pol : guc_policies) :
  guc_policies_init h (guc_policies_init h pol) = guc_policies_init h pol.
Proof.
  destruct (init_table_fields h pol) as (Hd & Hm & Hv).
  destruct (init_table_fields h (guc_policies_init h pol)) as (Hd' & Hm' & Hv').
  apply guc_policies_eq; [| congruence | congruence | congruence].
  apply policy_ext.
  - unfold guc_policies_init at 1. apply stores_rows.
  - intros p i. rewrite (init_cell h (guc_policies_init h pol)).
    rewrite (init_cell h pol). destruct (cell pol p i) as [c |]; [| reflexivity].
    simpl. destruct (decide (in_loops h p i)); reflexivity.
Qed.

Lemma policies_init_cells_witness :
  let pol := policies (blob_zero Sample.i915) in
  let c := {| execution_quantum := 0; preemption_time := 0; fault_time := 0;
              policy_flags := 0 |} in
  cell pol 1 2 = Some c
  ∧ (((1 < GUC_CLIENT_PRIORITY_NUM Sample.i915)%nat
      ∧ (GUC_RENDER_ENGINE Sample.i915 <= 2
         < GUC_MAX_ENGINES_NUM Sample.i915)%nat ->
      cell (guc_policies_init Sample.i915 pol) 1 2
      = Some (policy_defaults Sample.i915))
     ∧ (¬ ((1 < GUC_CLIENT_PRIORITY_NUM Sample.i915)%nat
           ∧ (GUC_RENDER_ENGINE Sample.i915 <= 2
              < GUC_MAX_ENGINES_NUM Sample.i915)%nat) ->
        cell (guc_policies_init Sample.i915 pol) 1 2 = Some c)).
Proof.
  intros pol c. split; [reflexivity |].
  apply (policies_init_cells Sample.i915 pol 1 2 c). reflexivity.
Defined.

End PoliciesTable.

(* ================================================================= *)
(** ** The slots of the worker *)

Module WorkerSlots.
Import Worker WorkerOrder.

(** [count & 1] is the parity of the number of requests allocated. *)
Lemma idx_parity (n : nat) :
  Z.to_nat (Z.land (ulong (Z.of_nat n)) 1) = (n mod 2)%nat.
Proof.
  change 1 with (Z.ones 1). rewrite Z.land_ones by lia. unfold ulong.
  change (2 ^ 1) with 2.
  rewrite Z.mod_mod_divide by (exists (2 ^ 63); reflexivity).
  apply Nat2Z.inj. rewrite Z2Nat.id by (apply Z.mod_pos_bound; lia).
  rewrite Nat2Z.inj_mod. reflexivity.
Qed.

Lemma ulong_succ (n : nat) : ulong (ulong (Z.of_nat n) + 1) = ulong (Z.of_nat (S n)).
Proof.
  unfold ulong. rewrite Zplus_mod_idemp_l. f_equal. lia.
Qed.

Lemma slots_inv_init : slots_inv init.
Proof.
  unfold slots_inv, init; simpl. split; [reflexivity |].
  split; [intros k Hk; lia |]. split.
  - intros [| [| k]] Hk; try reflexivity. lia.
  - split; [reflexivity | intros old H; discriminate].
Qed.

Lemma slots_inv_step (a : action) (s s' : wstate) :
  slots_inv s -> step a s = Some s' -> slots_inv s'.
Proof.
  intros (Hlen & Hrecent & Hempty & Hcount & Hold) Hstep. unfold step in Hstep.
  destruct a as [| e | | | r]; destruct (pc s) as [| old |] eqn:Hpc;
    try discriminate.
  - (* submit *)
    injection Hstep as <-. unfold slots_inv. cbn [rq count pc next_request].
    rewrite Hcount by discriminate. rewrite idx_parity.
    set (n := next_request s) in *.
    assert (Hidx : (n mod 2 < 2)%nat) by (apply Nat.mod_upper_bound; lia).
    split; [rewrite length_insert; exact Hlen |].
    split; [| split; [| split]].
    + intros k Hk. destruct (decide (k = n)) as [-> | Hne].
      * apply list_lookup_insert_eq. lia.
      * assert (k = (n - 1)%nat) by lia. subst k.
        rewrite list_lookup_insert_ne.
        -- apply Hrecent. lia.
        -- intros Heq.
           pose proof (Nat.div_mod_eq n 2) as Hn.
           pose proof (Nat.div_mod_eq (n - 1) 2) as Hn1.
           lia.
    + intros k Hk. rewrite list_lookup_insert_ne.
      * apply Hempty. lia.
      * pose proof (Nat.Div0.mod_le n 2). lia.
    + intros _. apply ulong_succ.
    + intros old Heq.
      assert (old = mjoin (rq s !! (n mod 2)%nat)) as -> by congruence.
      destruct (decide (3 <= S n)%nat) as [H3 | H3].
      * replace (S n - 3)%nat with (n - 2)%nat by lia.
        assert (Hpar : ((n - 2) mod 2 = n mod 2)%nat).
        { replace n with ((n - 2) + 1 * 2)%nat at 2 by lia.
          rewrite Nat.Div0.mod_add. reflexivity. }
        rewrite <- Hpar. rewrite (Hrecent (n - 2)%nat) by lia. reflexivity.
      * assert (Hsmall : (n mod 2 = n)%nat) by (apply Nat.mod_small; lia).
        rewrite Hsmall. rewrite (Hempty n) by lia. reflexivity.
  - (* allocation failure *)
    injection Hstep as <-. unfold slots_inv; simpl.
    split; [exact Hlen |]. split; [exact Hrecent |]. split; [exact Hempty |].
    split; [intros H; contradiction | intros old H; discriminate].
  - (* stop *)
    injection Hstep as <-. unfold slots_inv; simpl.
    split; [exact Hlen |]. split; [exact Hrecent |]. split; [exact Hempty |].
    split; [intros H; contradiction | intros old H; discriminate].
  - (* wait *)
    destruct (match old with
              | Some r => bool_decide (r ∈ outstanding s)
              | None => false
              end); [discriminate |].
    injection Hstep as <-. unfold slots_inv; simpl.
    split; [exact Hlen |]. split; [exact Hrecent |]. split; [exact Hempty |].
    split; [intros _; apply Hcount; discriminate | intros old' H; discriminate].
  - destruct (bool_decide (r ∈ outstanding s)); [| discriminate].
    injection Hstep as <-. unfold slots_inv; simpl.
    split; [exact Hlen |]. split; [exact Hrecent |]. split; [exact Hempty |].
    split; [intros _; apply Hcount; discriminate | intros old' H; discriminate].
  - destruct (bool_decide (r ∈ outstanding s)); [| discriminate].
    injection Hstep as <-. unfold slots_inv; simpl.
    split; [exact Hlen |]. split; [exact Hrecent |]. split; [exact Hempty |].
    split; [intros _; apply Hcount; discriminate |].
    intros old' H. apply Hold. exact H.
  - destruct (bool_decide (r ∈ outstanding s)); [| discriminate].
    injection Hstep as <-. unfold slots_inv; simpl.
    split; [exact Hlen |]. split; [exact Hrecent |]. split; [exact Hempty |].
    split; [intros H; contradiction | intros old' H; discriminate].
Qed.

Lemma slots_inv_run (l : list action) (s s' : wstate) :
  slots_inv s -> run l s = Some s' -> slots_inv s'.
Proof.
  revert s. induction l as [| a l IH]; intros s Hinv Hrun; simpl in Hrun.
  - injection Hrun as <-. exact Hinv.
  - destruct (step a s) as [s1 |] eqn:Hstep; [| discriminate].
    eapply IH; [eapply slots_inv_step; eassumption | exact Hrun].
Qed.

(** X9.  At every point of the worker's run, with [n] requests
    allocated so far, [rq[]] holds the two most recent ones, request [k] in
    slot [k mod 2]; a slot not yet used is still [NULL]; and between the
    submit and the wait [old] is request [n - 3], the one the newest has
    just replaced, or [NULL] during the first two iterations. *)
Theorem slots_hold_two_most_recent (l : list action) (s : wstate) :
  run l init = Some s ->
  let n := next_request s in
  (∀ k, (k < n <= k + 2)%nat -> rq s !! (k mod 2)%nat = Some (Some k))
  ∧ (∀ k, (n <= k < 2)%nat -> rq s !! k = Some None)
  ∧ (∀ old, pc s = Submitted old ->
            old = if decide (3 <= n)%nat then Some (n - 3)%nat else None).
Proof.
  intros Hrun.
  destruct (slots_inv_run l init s slots_inv_init Hrun) as (_ & H1 & H2 & _ & H3).
  auto.
Qed.

Lemma slots_hold_two_most_recent_witness :
  let l := [a_submit; a_retire; a_submit; a_complete 0; a_retire; a_submit] in
  let s := {| rq := [Some 2%nat; Some 1%nat]; count := 3; err := 0;
              pc := Submitted (Some 0%nat); next_request := 3;
              outstanding :=
                {[2%nat]} ∪ ({[1%nat]} ∪ ({[0%nat]} ∪ ∅) ∖ {[0%nat]}) |} in
  run l init = Some s
  ∧ (∀ k, (k < 3 <= k + 2)%nat -> rq s !! (k mod 2)%nat = Some (Some k))
  ∧ (∀ k, (3 <= k < 2)%nat -> rq s !! k = Some None)
  ∧ (∀ old, pc s = Submitted old ->
            old = if decide (3 <= 3)%nat then Some (3 - 3)%nat else None).
Proof.
  intros l s. split; [reflexivity |].
  apply (slots_hold_two_most_recent l s). reflexivity.
Defined.

End WorkerSlots.

(* ================================================================= *)
(** ** The calls of the worker thread *)

Module ThreadFacts.
Import Thread WorkerSlots.

(** The loop in closed form: [k] iterations that submit, then the way
    out. *)
Lemma submit_loop_trace (k : nat) (rest : list Z) (rq : list (option nat))
    (count : Z) (n : nat) :
  WorkerOrder.slots_inv (at_loop_head rq count n) ->
  (rest = [] ∨ ∃ e rest', rest = e :: rest' ∧ e ≠ 0) ->
  ∃ rq' count',
    submit_loop (replicate k 0 ++ rest) rq count n
    = (default 0 (head rest), rq',
       concat (iteration <$> seq n k) ++ loop_exit (n + k) rest)
    ∧ WorkerOrder.slots_inv (at_loop_head rq' count' (n + k)).
Proof.
  revert rq count n. induction k as [| k IH]; intros rq count n Hinv Hrest.
  - exists rq, count. rewrite Nat.add_0_r. split; [| exact Hinv].
    simpl. destruct Hrest as [-> | (e & rest' & -> & He)]; [reflexivity |].
    simpl. rewrite decide_False by exact He.
    destruct Hinv as (_ & _ & _ & Hcount & _). simpl in Hcount.
    rewrite Hcount by discriminate. rewrite idx_parity. reflexivity.
  - pose proof Hinv as (Hlen & Hrecent & Hempty & Hcount & _).
    simpl in Hlen, Hrecent, Hempty, Hcount.
    specialize (Hcount ltac:(discriminate)). subst count.
    set (count := Worker.ulong (Z.of_nat n)) in *.
    assert (Hstep : Worker.step Worker.a_submit (at_loop_head rq count n)
              = Some {| Worker.rq := <[(n mod 2)%nat := Some n]> rq;
                        Worker.count := Worker.ulong (count + 1);
                        Worker.err := 0;
                        Worker.pc := Worker.Submitted (mjoin (rq !! (n mod 2)%nat));
                        Worker.next_request := S n;
                        Worker.outstanding := {[n]} ∪ ∅ |}).
    { unfold Worker.step, at_loop_head. cbn [Worker.pc Worker.count Worker.rq
        Worker.err Worker.next_request Worker.outstanding].
      unfold count. rewrite idx_parity. reflexivity. }
    pose proof (slots_inv_step _ _ _ Hinv Hstep)
      as (Hlen' & Hrecent' & Hempty' & Hcount' & Hold').
    cbn [Worker.pc Worker.count Worker.rq Worker.next_request] in *.
    specialize (Hold' _ eq_refl).
    destruct (IH (<[(n mod 2)%nat := Some n]> rq) (Worker.ulong (count + 1)) (S n))
      as (rq' & count' & Heq & Hinv'); [| exact Hrest |].
    { unfold WorkerOrder.slots_inv, at_loop_head.
      cbn [Worker.pc Worker.count Worker.rq Worker.next_request].
      split; [exact Hlen' |]. split; [exact Hrecent' |]. split; [exact Hempty' |].
      split; [intros _; apply Hcount'; discriminate | intros old H; discriminate]. }
    exists rq', count'. replace (n + S k)%nat with (S n + k)%nat by lia.
    split; [| exact Hinv'].
    assert (Hiter : iteration n
              = [t_should_stop false; t_mutex_lock; t_request_alloc (n mod 2);
                 t_request_get n; t_request_add n; t_mutex_unlock]
                ++ match mjoin (rq !! (n mod 2)%nat) with
                   | Some r => [t_request_wait r; t_request_put (Some r)]
                   | None => []
                   end).
    { unfold iteration. rewrite Hold'.
      destruct (decide (3 <= S n)%nat), (decide (2 <= n)%nat); try lia.
      - replace (S n - 3)%nat with (n - 2)%nat by lia. reflexivity.
      - reflexivity. }
    cbn [replicate app submit_loop]. rewrite decide_True by reflexivity.
    unfold count in *. rewrite !idx_parity. rewrite Heq. f_equal.
    cbn [seq fmap list_fmap concat]. rewrite Hiter, <- !app_assoc. reflexivity.
Qed.

Lemma slots_inv_start : WorkerOrder.slots_inv (at_loop_head [None; None] 0 0).
Proof. exact slots_inv_init. Qed.

(** Any list of results: successes, then nothing or a failure. *)
Lemma allocs_split (l : list Z) :
  ∃ k rest, l = replicate k 0 ++ rest
            ∧ (rest = [] ∨ ∃ e rest', rest = e :: rest' ∧ e ≠ 0).
Proof.
  induction l as [| a l (k & rest & -> & Hrest)].
  - exists 0%nat, []. auto.
  - destruct (decide (a = 0)) as [-> | Ha].
    + exists (S k), rest. auto.
    + exists 0%nat, (a :: replicate k 0 ++ rest). split; [reflexivity |].
      right. eauto.
Qed.

Lemma mutex_run_app (t1 t2 : list tev) (b : bool) :
  mutex_run b (t1 ++ t2) = mutex_run b t1 ≫= fun b' => mutex_run b' t2.
Proof.
  revert b. induction t1 as [| e t1 IH]; intros b; [reflexivity |].
  destruct e, b; simpl; auto.
Qed.

Lemma mutex_run_iterations (l : list nat) :
  mutex_run false (concat (iteration <$> l)) = Some false.
Proof.
  induction l as [| j l IH]; [reflexivity |].
  cbn [fmap list_fmap concat]. rewrite mutex_run_app.
  unfold iteration. destruct (decide (2 <= j)%nat); simpl; exact IH.
Qed.

Lemma mutex_run_exit (n : nat) (rest : list Z) :
  mutex_run false (loop_exit n rest) = Some false.
Proof. destruct rest; reflexivity. Qed.

(** X10.  Whatever its collaborators return, [shit_active_engine]
    never takes [struct_mutex] while holding it nor releases it while not
    holding it, calls [live_context], [i915_request_alloc] and
    [i915_request_add] only with the mutex held, waits for a request only
    without it, and returns without it. *)
Theorem struct_mutex_discipline (env : tenv) :
  mutex_run false (shit_active_engine env).2 = Some false.
Proof.
  unfold shit_active_engine.
  destruct (decide (mock_file env = 0)); [| reflexivity].
  destruct (decide (live_context env 0 = 0)); [| reflexivity].
  destruct (decide (live_context env 1 = 0)); [| reflexivity].
  destruct (allocs_split (allocs env)) as (k & rest & -> & Hrest).
  destruct (submit_loop_trace k rest [None; None] 0 0 slots_inv_start Hrest)
    as (rq' & count' & -> & _).
  cbn [snd app mutex_run].
  rewrite !mutex_run_app, mutex_run_iterations. cbn [mbind option_bind].
  rewrite mutex_run_exit. reflexivity.
Qed.

Lemma refs_run_app (t1 t2 : list tev) (H : gset nat) :
  refs_run H (t1 ++ t2) = refs_run H t1 ≫= fun H' => refs_run H' t2.
Proof.
  revert H. induction t1 as [| e t1 IH]; intros H; [reflexivity |].
  destruct e as [| | | | | | | r | | r | [r |] |]; simpl; auto;
    destruct (decide (r ∈ H)); auto.
Qed.

Lemma elem_of_recent_set (n x : nat) : x ∈ recent_set n ↔ (x < n <= x + 2)%nat.
Proof. unfold recent_set. rewrite elem_of_list_to_set, elem_of_seq. lia. Qed.

Lemma recent_set_next (n : nat) :
  recent_set (S n)
  = if decide (2 <= n)%nat then ({[n]} ∪ recent_set n) ∖ {[(n - 2)%nat]}
    else {[n]} ∪ recent_set n.
Proof.
  apply set_eq. intros x. destruct (decide (2 <= n)%nat).
  - rewrite elem_of_difference, elem_of_union, !elem_of_singleton,
      !elem_of_recent_set. lia.
  - rewrite elem_of_union, !elem_of_singleton, !elem_of_recent_set. lia.
Qed.

Lemma refs_run_iterations (k n : nat) :
  refs_run (recent_set n) (concat (iteration <$> seq n k))
  = Some (recent_set (n + k)).
Proof.
  revert n. induction k as [| k IH]; intros n.
  - rewrite Nat.add_0_r. reflexivity.
  - cbn [seq fmap list_fmap concat]. rewrite refs_run_app.
    replace (n + S k)%nat with (S n + k)%nat by lia. rewrite <- IH.
    rewrite (recent_set_next n). unfold iteration.
    cbn [app refs_run].
    rewrite decide_False by (rewrite elem_of_recent_set; lia).
    destruct (decide (2 <= n)%nat); cbn [app refs_run mbind option_bind].
    + rewrite decide_True
        by (rewrite elem_of_union, elem_of_recent_set; right; lia).
      rewrite decide_True
        by (rewrite elem_of_union, elem_of_recent_set; right; lia).
      reflexivity.
    + reflexivity.
Qed.

Lemma refs_run_exit (n : nat) (rest : list Z) (H : gset nat) :
  refs_run H (loop_exit n rest) = Some H.
Proof. destruct rest; reflexivity. Qed.

(** The two slots after [m] requests. *)
Lemma final_slots (rq : list (option nat)) (count : Z) (m : nat) :
  WorkerOrder.slots_inv (at_loop_head rq count m) ->
  refs_run (recent_set m)
    [t_request_put (mjoin (rq !! 0%nat)); t_request_put (mjoin (rq !! 1%nat));
     t_mock_file_free] = Some ∅.
Proof.
  intros (_ & Hrecent & Hempty & _).
  cbn [at_loop_head Worker.rq Worker.next_request] in Hrecent, Hempty.
  destruct (decide (m = 0%nat)) as [-> | Hm0].
  { rewrite (Hempty 0%nat), (Hempty 1%nat) by lia. reflexivity. }
  destruct (decide (m = 1%nat)) as [-> | Hm1].
  { pose proof (Hrecent 0%nat ltac:(lia)) as H0.
    change (0 mod 2)%nat with 0%nat in H0.
    rewrite H0, (Hempty 1%nat) by lia. cbn [mjoin option_join refs_run].
    rewrite decide_True by (rewrite elem_of_recent_set; lia).
    apply (f_equal Some). apply set_eq. intros x.
    rewrite elem_of_difference, elem_of_singleton, elem_of_recent_set.
    split; [lia | intros H; apply not_elem_of_empty in H; contradiction]. }
  pose proof (Hrecent (m - 1)%nat ltac:(lia)) as H1.
  pose proof (Hrecent (m - 2)%nat ltac:(lia)) as H2.
  pose proof (Nat.div_mod_eq (m - 1) 2) as D1.
  pose proof (Nat.div_mod_eq (m - 2) 2) as D2.
  pose proof (Nat.mod_upper_bound (m - 1) 2 ltac:(lia)) as B1.
  pose proof (Nat.mod_upper_bound (m - 2) 2 ltac:(lia)) as B2.
  assert (Hempty_set : ∀ a b : nat, a ≠ b -> a ∈ recent_set m -> b ∈ recent_set m ->
            (recent_set m ∖ {[a]}) ∖ {[b]} = (∅ : gset nat)).
  { intros a b Hab Ha Hb. apply set_eq. intros x.
    rewrite !elem_of_difference, !elem_of_singleton.
    rewrite elem_of_recent_set in *.
    split; [lia | intros H; apply not_elem_of_empty in H; contradiction]. }
  destruct (decide ((m - 1) mod 2 = 0)%nat) as [E1 | E1].
  - assert (E2 : ((m - 2) mod 2 = 1)%nat) by lia.
    rewrite E1 in H1. rewrite E2 in H2. rewrite H1, H2.
    cbn [mjoin option_join refs_run].
    rewrite decide_True by (rewrite elem_of_recent_set; lia).
    rewrite decide_True
      by (rewrite elem_of_difference, elem_of_singleton, elem_of_recent_set; lia).
    apply (f_equal Some). apply Hempty_set; [lia | |]; rewrite elem_of_recent_set; lia.
  - assert (E1' : ((m - 1) mod 2 = 1)%nat) by lia.
    assert (E2 : ((m - 2) mod 2 = 0)%nat) by lia.
    rewrite E1' in H1. rewrite E2 in H2. rewrite H1, H2.
    cbn [mjoin option_join refs_run].
    rewrite decide_True by (rewrite elem_of_recent_set; lia).
    rewrite decide_True
      by (rewrite elem_of_difference, elem_of_singleton, elem_of_recent_set; lia).
    apply (f_equal Some). apply Hempty_set; [lia | |]; rewrite elem_of_recent_set; lia.
Qed.

(** X11.  Whatever its collaborators return, [shit_active_engine]
    takes a reference only to a request it holds none to, waits for and puts
    only requests it holds a reference to, and has put every reference it
    took by the time it returns. *)
Theorem request_references_balanced (env : tenv) :
  refs_run ∅ (shit_active_engine env).2 = Some ∅.
Proof.
  unfold shit_active_engine.
  destruct (decide (mock_file env = 0)); [| reflexivity].
  destruct (decide (live_context env 0 = 0)); [| reflexivity].
  destruct (decide (live_context env 1 = 0)); [| reflexivity].
  destruct (allocs_split (allocs env)) as (k & rest & -> & Hrest).
  destruct (submit_loop_trace k rest [None; None] 0 0 slots_inv_start Hrest)
    as (rq' & count' & -> & Hinv).
  cbn [snd app refs_run].
  rewrite !refs_run_app.
  change (∅ : gset nat) with (recent_set 0) at 1.
  rewrite refs_run_iterations. cbn [mbind option_bind].
  rewrite refs_run_exit. cbn [mbind option_bind].
  apply (final_slots rq' count' (0 + k) Hinv).
Qed.

Lemma first_error_zeros (k : nat) (rest : list Z) :
  first_error (replicate k 0 ++ rest) = first_error rest.
Proof.
  induction k as [| k IH]; [reflexivity |].
  unfold first_error in *. cbn [replicate app].
  rewrite filter_cons_False by (intros H; apply H; reflexivity). exact IH.
Qed.

Lemma first_error_rest (rest : list Z) :
  (rest = [] ∨ ∃ e rest', rest = e :: rest' ∧ e ≠ 0) ->
  first_error rest = default 0 (head rest).
Proof.
  intros [-> | (e & rest' & -> & He)]; [reflexivity |].
  unfold first_error. rewrite filter_cons_True by exact He. reflexivity.
Qed.

Lemma first_error_cons (a : Z) (l : list Z) :
  first_error (a :: l) = if decide (a = 0) then first_error l else a.
Proof.
  unfold first_error. destruct (decide (a = 0)) as [-> | Ha].
  - rewrite filter_cons_False by (intros H; apply H; reflexivity). reflexivity.
  - rewrite filter_cons_True by exact Ha. reflexivity.
Qed.

(** X12.  [shit_active_engine] returns the error of the first call
    that failed, in the order [mock_file], [live_context] twice, then the
    [i915_request_alloc] of each iteration; it returns 0 when none
    failed. *)
Theorem worker_returns_first_error (env : tenv) :
  (shit_active_engine env).1
  = first_error (mock_file env :: live_context env 0 :: live_context env 1
                 :: allocs env).
Proof.
  rewrite !first_error_cons. unfold shit_active_engine.
  destruct (decide (mock_file env = 0)); [| reflexivity].
  destruct (decide (live_context env 0 = 0)); [| reflexivity].
  destruct (decide (live_context env 1 = 0)); [| reflexivity].
  destruct (allocs_split (allocs env)) as (k & rest & -> & Hrest).
  destruct (submit_loop_trace k rest [None; None] 0 0 slots_inv_start Hrest)
    as (rq' & count' & -> & _).
  cbn [fst]. rewrite first_error_zeros, first_error_rest by exact Hrest.
  reflexivity.
Qed.

Lemma free_count_iterations (l : list nat) :
  count_occ tev_eq_dec (concat (iteration <$> l)) t_mock_file_free = 0%nat.
Proof.
  induction l as [| j l IH]; [reflexivity |].
  cbn [fmap list_fmap concat]. rewrite count_occ_app, IH.
  unfold iteration. destruct (decide (2 <= j)%nat); reflexivity.
Qed.

Lemma free_count_exit (n : nat) (rest : list Z) :
  count_occ tev_eq_dec (loop_exit n rest) t_mock_file_free = 0%nat.
Proof. destruct rest; reflexivity. Qed.

(** X13.  Once [mock_file] has succeeded, [mock_file_free] is called
    exactly once on every path, and it is the last call the thread
    makes. *)
Theorem mock_file_freed_once_at_the_end (env : tenv) :
  mock_file env = 0 ->
  last (shit_active_engine env).2 = Some t_mock_file_free
  ∧ count_occ tev_eq_dec (shit_active_engine env).2 t_mock_file_free = 1%nat.
Proof.
  intros Hfile. unfold shit_active_engine.
  rewrite decide_True by exact Hfile.
  destruct (decide (live_context env 0 = 0)); [| split; reflexivity].
  destruct (decide (live_context env 1 = 0)); [| split; reflexivity].
  destruct (allocs_split (allocs env)) as (k & rest & -> & Hrest).
  destruct (submit_loop_trace k rest [None; None] 0 0 slots_inv_start Hrest)
    as (rq' & count' & -> & _).
  cbn [snd]. split.
  - rewrite !app_assoc.
    change [t_request_put (mjoin (rq' !! 0%nat));
            t_request_put (mjoin (rq' !! 1%nat)); t_mock_file_free]
      with ([t_request_put (mjoin (rq' !! 0%nat));
             t_request_put (mjoin (rq' !! 1%nat))] ++ [t_mock_file_free]).
    rewrite app_assoc. apply last_snoc.
  - rewrite !count_occ_app, free_count_iterations, free_count_exit.
    reflexivity.
Qed.

Lemma added_app (t1 t2 : list tev) : added (t1 ++ t2) = added t1 ++ added t2.
Proof. apply omap_app. Qed.

Lemma waited_app (t1 t2 : list tev) : waited (t1 ++ t2) = waited t1 ++ waited t2.
Proof. apply omap_app. Qed.

Lemma added_iterations (k : nat) :
  added (concat (iteration <$> seq 0 k)) = seq 0 k.
Proof.
  induction k as [| k IH]; [reflexivity |].
  rewrite seq_S, fmap_app, concat_app, added_app, IH.
  cbn [fmap list_fmap concat]. rewrite app_nil_r. f_equal.
  unfold iteration. destruct (decide (2 <= 0 + k)%nat); reflexivity.
Qed.

Lemma waited_iterations (k : nat) :
  waited (concat (iteration <$> seq 0 k)) = seq 0 (k - 2).
Proof.
  induction k as [| k IH]; [reflexivity |].
  rewrite seq_S, fmap_app, concat_app, waited_app, IH.
  cbn [fmap list_fmap concat]. rewrite app_nil_r.
  unfold iteration. destruct (decide (2 <= 0 + k)%nat) as [Hk | Hk].
  - replace (S k - 2)%nat with (S (k - 2)) by lia. rewrite seq_S.
    reflexivity.
  - replace (S k - 2)%nat with 0%nat by lia.
    replace (k - 2)%nat with 0%nat by lia. reflexivity.
Qed.

Lemma added_exit (n : nat) (rest : list Z) : added (loop_exit n rest) = [].
Proof. destruct rest; reflexivity. Qed.

Lemma waited_exit (n : nat) (rest : list Z) : waited (loop_exit n rest) = [].
Proof. destruct rest; reflexivity. Qed.

(** X14.  When the setup succeeds and [k] allocations succeed before
    the loop ends, the requests are queued in allocation order, and the
    thread waits, in that order, for all of them but the last two: it
    returns without waiting for the two requests still in [rq[]]. *)
Theorem requests_queued_and_waited_in_order (env : tenv) (k : nat)
    (rest : list Z) :
  mock_file env = 0 -> live_context env 0 = 0 -> live_context env 1 = 0 ->
  allocs env = replicate k 0 ++ rest ->
  (rest = [] ∨ ∃ e rest', rest = e :: rest' ∧ e ≠ 0) ->
  added (shit_active_engine env).2 = seq 0 k
  ∧ waited (shit_active_engine env).2 = seq 0 (k - 2).
Proof.
  intros Hfile H0 H1 Hallocs Hrest. unfold shit_active_engine.
  rewrite !decide_True by assumption. rewrite Hallocs.
  destruct (submit_loop_trace k rest [None; None] 0 0 slots_inv_start Hrest)
    as (rq' & count' & -> & _).
  cbn [snd]. split.
  - rewrite !added_app, added_iterations, added_exit.
    unfold added. cbn [omap list_omap app]. rewrite ?app_nil_r. reflexivity.
  - rewrite !waited_app, waited_iterations, waited_exit.
    unfold waited. cbn [omap list_omap app]. rewrite ?app_nil_r. reflexivity.
Qed.

Lemma first_error_zero (l : list Z) :
  Forall (fun x => x = 0) l -> first_error l = 0.
Proof.
  induction 1 as [| x l Hx _ IH]; [reflexivity |].
  rewrite first_error_cons, decide_True by exact Hx. exact IH.
Qed.

Lemma first_error_nonzero (l : list Z) :
  (∃ x, x ∈ l ∧ x ≠ 0) -> first_error l ≠ 0.
Proof.
  induction l as [| a l IH]; intros (x & Hx & Hne); [inversion Hx |].
  rewrite first_error_cons. destruct (decide (a = 0)) as [-> | Ha]; [| exact Ha].
  apply IH. exists x. split; [| exact Hne].
  apply elem_of_cons in Hx as [-> | Hx]; [contradiction | exact Hx].
Qed.

Lemma mock_file_freed_once_at_the_end_witness :
  mock_file Faults.thread_env = 0
  ∧ last (shit_active_engine Faults.thread_env).2 = Some t_mock_file_free
  ∧ count_occ tev_eq_dec (shit_active_engine Faults.thread_env).2
      t_mock_file_free = 1%nat.
Proof.
  split; [reflexivity |].
  apply (mock_file_freed_once_at_the_end Faults.thread_env). reflexivity.
Defined.

Lemma requests_queued_and_waited_in_order_witness :
  mock_file Faults.thread_env = 0
  ∧ live_context Faults.thread_env 0 = 0
  ∧ live_context Faults.thread_env 1 = 0
  ∧ allocs Faults.thread_env = replicate 3 0 ++ [- Faults.ENOMEM]
  ∧ added (shit_active_engine Faults.thread_env).2 = seq 0 3
  ∧ waited (shit_active_engine Faults.thread_env).2 = seq 0 (3 - 2).
Proof.
  split; [reflexivity |]. split; [reflexivity |]. split; [reflexivity |].
  split; [reflexivity |].
  apply (requests_queued_and_waited_in_order Faults.thread_env 3
           [- Faults.ENOMEM]); try reflexivity.
  right. exists (- Faults.ENOMEM), []. split; [reflexivity |].
  unfold Faults.ENOMEM. lia.
Defined.

End ThreadFacts.

(* ================================================================= *)
(** ** The rounds of the harness *)

Module RoundFacts.
Import Igt IgtLog ThreadFacts.

Lemma kthreads_run_app (l1 l2 : list event) :
  kthreads_run (l1 ++ l2) = kthreads_run l1 ++ kthreads_run l2.
Proof. apply omap_app. Qed.

Lemma kthreads_stopped_app (l1 l2 : list event) :
  kthreads_stopped (l1 ++ l2) = kthreads_stopped l1 ++ kthreads_stopped l2.
Proof. apply omap_app. Qed.

Lemma resets_issued_app (l1 l2 : list event) :
  resets_issued (l1 ++ l2) = resets_issued l1 ++ resets_issued l2.
Proof. apply omap_app. Qed.

(** Filters that agree on the elements of a list. *)
Lemma filter_ext_elem {A} (P Q : A -> Prop) `{!∀ x, Decision (P x)}
    `{!∀ x, Decision (Q x)} (l : list A) :
  (∀ x, x ∈ l -> (P x ↔ Q x)) -> filter P l = filter Q l.
Proof.
  induction l as [| a l IH]; intros Hext; [reflexivity |].
  assert (Ha : P a ↔ Q a) by (apply Hext; apply list_elem_of_here).
  assert (Hl : filter P l = filter Q l).
  { apply IH. intros x Hx. apply Hext. apply list_elem_of_further. exact Hx. }
  destruct (decide (P a)) as [HP | HP].
  - rewrite (filter_cons_True P) by exact HP.
    rewrite (filter_cons_True Q) by (apply Ha; exact HP). congruence.
  - rewrite (filter_cons_False P) by exact HP.
    rewrite (filter_cons_False Q) by (rewrite <- Ha; exact HP). exact Hl.
Qed.

(** Selecting from a duplicate-free list the members of a prefix of one of
    its filters gives that prefix. *)
Lemma filter_prefix_members {A} `{!EqDecision A} (P : A -> Prop)
    `{!∀ x, Decision (P x)} (l pre : list A) :
  NoDup l -> pre `prefix_of` filter P l ->
  filter (fun x => x ∈ pre) l = pre.
Proof.
  revert pre. induction l as [| a l IH]; intros pre Hnd Hpre.
  - apply prefix_nil_inv in Hpre. subst pre. reflexivity.
  - apply NoDup_cons in Hnd as [Ha Hnd].
    assert (Hsub : ∀ q, q `prefix_of` filter P l -> ∀ x, x ∈ q -> x ∈ l).
    { intros q [k Hk] x Hx.
      assert (Hin : x ∈ filter P l) by (rewrite Hk; apply elem_of_app; auto).
      apply list_elem_of_filter in Hin. tauto. }
    destruct (decide (P a)) as [HP | HP].
    + rewrite (filter_cons_True P) in Hpre by exact HP.
      destruct pre as [| b pre'].
      * generalize (a :: l). intros m.
        induction m as [| c m IHm]; [reflexivity |].
        rewrite filter_cons_False by (intros Hc; inversion Hc). exact IHm.
      * pose proof (prefix_cons_inv_1 _ _ _ _ Hpre) as ->.
        pose proof (prefix_cons_inv_2 _ _ _ _ Hpre) as Hpre'.
        rewrite filter_cons_True by apply list_elem_of_here. f_equal.
        transitivity (filter (fun x => x ∈ pre') l); [| apply IH; assumption].
        apply filter_ext_elem. intros x Hx. rewrite elem_of_cons.
        split; [intros [-> | Hin]; [contradiction | exact Hin] | auto].
    + rewrite (filter_cons_False P) in Hpre by exact HP.
      rewrite filter_cons_False
        by (intros Hin; apply Ha; apply (Hsub pre Hpre); exact Hin).
      apply IH; assumption.
Qed.

Section Workers.
Variable env : igt_env.
Variable target : nat.

(** The loop that starts the workers, whatever [kthread_run] returns. *)
Lemma start_workers_spec (actives : list nat) (threads : gset nat)
    (resets : gmap nat Z) (s : hstate) :
  ∃ ran new,
    log (start_workers env target actives threads resets s).2 = log s ++ new
    ∧ error (start_workers env target actives threads resets s).2 = error s
    ∧ kthreads_run new = ran ∧ kthreads_stopped new = []
    ∧ resets_issued new = []
    ∧ (start_workers env target actives threads resets s).1.1.1
      = Thread.first_error
          (kthread_run env target <$> filter (fun a => a ≠ target) actives)
    ∧ ran `prefix_of` filter (fun a => a ≠ target) actives
    ∧ filter (fun a => kthread_run env target a = 0) ran
      `prefix_of` filter (fun a => a ≠ target) actives
    ∧ (∀ x, x ∈ (start_workers env target actives threads resets s).1.1.2
            ↔ x ∈ filter (fun a => kthread_run env target a = 0) ran
              ∨ x ∈ threads)
    ∧ (∀ x, (start_workers env target actives threads resets s).1.2 !! x
            = if decide (x ∈ ran)
              then Some (i915_reset_engine_count (error s) x)
              else resets !! x).
Proof.
  set (ok := fun a : nat => kthread_run env target a = 0).
  set (other := fun a : nat => a ≠ target).
  revert threads resets s.
  induction actives as [| a rest IH]; intros threads resets s.
  - exists [], []. cbn [start_workers fst snd].
    rewrite app_nil_r. repeat split; try reflexivity.
    + intros H. right. exact H.
    + intros [H | H]; [inversion H | exact H].
  - cbn [start_workers].
    destruct (decide (a = target)) as [Heq | Hne].
    + destruct (IH threads resets s) as (ran & new & H).
      exists ran, new.
      rewrite (filter_cons_False other) by (intros H'; apply H'; exact Heq).
      exact H.
    + rewrite (filter_cons_True other) by exact Hne.
      rewrite fmap_cons, first_error_cons.
      destruct (decide (kthread_run env target a = 0)) as [Hok | Hfail].
      * destruct (IH ({[a]} ∪ threads)
                    (<[a := i915_reset_engine_count (error s) a]> resets)
                    (emit [ev_reset_engine_count a; ev_kthread_run a] s))
          as (ran & new & Hlog & Herr & Hrun & Hstop & Hres & Hret & Hran
              & Hpre & Hthr & Hcnt).
        exists (a :: ran), ([ev_reset_engine_count a; ev_kthread_run a] ++ new).
        split; [rewrite Hlog; cbn [emit log]; rewrite <- app_assoc; reflexivity |].
        split; [rewrite Herr; reflexivity |].
        split; [rewrite kthreads_run_app, Hrun; reflexivity |].
        split; [rewrite kthreads_stopped_app, Hstop; reflexivity |].
        split; [rewrite resets_issued_app, Hres; reflexivity |].
        split; [exact Hret |].
        split; [apply prefix_cons; exact Hran |].
        split; [rewrite (filter_cons_True ok) by exact Hok;
                apply prefix_cons; exact Hpre |].
        split.
        -- intros x. rewrite Hthr, (filter_cons_True ok) by exact Hok.
           rewrite elem_of_union, elem_of_singleton, elem_of_cons. tauto.
        -- intros x. rewrite Hcnt. cbn [emit error].
           destruct (decide (x ∈ ran)) as [Hin | Hnin].
           ++ rewrite decide_True by (apply list_elem_of_further; exact Hin).
              reflexivity.
           ++ destruct (decide (x = a)) as [-> | Hxa].
              ** rewrite decide_True by apply list_elem_of_here.
                 apply lookup_insert_eq.
              ** rewrite decide_False
                   by (rewrite elem_of_cons; intros [? | ?]; contradiction).
                 apply lookup_insert_ne. congruence.
      * exists [a], [ev_reset_engine_count a; ev_kthread_run a].
        cbn [fst snd emit log error].
        split; [reflexivity |]. split; [reflexivity |].
        split; [reflexivity |]. split; [reflexivity |].
        split; [reflexivity |]. split; [reflexivity |].
        split; [apply prefix_cons, prefix_nil |].
        rewrite (filter_cons_False ok) by exact Hfail.
        split; [apply prefix_nil |]. split.
        -- intros x. split; [auto | intros [H | H]; [inversion H | exact H]].
        -- intros x. destruct (decide (x = a)) as [-> | Hxa].
           ++ rewrite decide_True by apply list_elem_of_here.
              apply lookup_insert_eq.
           ++ rewrite decide_False
                by (rewrite elem_of_cons; intros [? | H]; [contradiction | inversion H]).
              apply lookup_insert_ne. congruence.
Qed.

(** The loop that stops them. *)
Lemma stop_workers_log (threads : gset nat) (resets : gmap nat Z)
    (actives : list nat) (err : Z) (s : hstate) :
  ∃ new,
    log (stop_workers env target threads resets actives err s).2 = log s ++ new
    ∧ kthreads_run new = []
    ∧ kthreads_stopped new = filter (fun a => a ∈ threads) actives
    ∧ resets_issued new = [].
Proof.
  revert err s. induction actives as [| a rest IH]; intros err s.
  - exists []. cbn [stop_workers snd]. rewrite app_nil_r. auto.
  - cbn [stop_workers]. destruct (decide (a ∈ threads)) as [Hin | Hnin].
    + rewrite filter_cons_True by exact Hin.
      destruct (decide (default 0 (resets !! a)
                        = i915_reset_engine_count (error s) a)).
      * match goal with
        | |- context [stop_workers env target threads resets rest ?e ?s1] =>
            destruct (IH e s1) as (new & Hlog & Hrun & Hstop & Hres)
        end.
        eexists. split; [rewrite Hlog; cbn [emit log];
                         rewrite <- app_assoc; reflexivity |].
        rewrite !kthreads_run_app, !kthreads_stopped_app, !resets_issued_app.
        rewrite Hrun, Hstop, Hres.
        destruct (decide (kthread_stop env target a = 0)); auto.
      * match goal with
        | |- context [stop_workers env target threads resets rest ?e ?s1] =>
            destruct (IH e s1) as (new & Hlog & Hrun & Hstop & Hres)
        end.
        eexists. split; [rewrite Hlog; cbn [emit log];
                         rewrite <- !app_assoc; reflexivity |].
        rewrite !kthreads_run_app, !kthreads_stopped_app, !resets_issued_app.
        rewrite Hrun, Hstop, Hres.
        destruct (decide (kthread_stop env target a = 0)); auto.
    + rewrite filter_cons_False by exact Hnin. apply IH.
Qed.


(** An error the loop is entered with is kept, or replaced by [-EIO]. *)
Lemma stop_workers_keeps_error (threads : gset nat) (resets : gmap nat Z)
    (actives : list nat) (err : Z) (s : hstate) :
  err ≠ 0 ->
  (stop_workers env target threads resets actives err s).1 = err
  ∨ (stop_workers env target threads resets actives err s).1 = - EIO.
Proof.
  revert err s. induction actives as [| a rest IH]; intros err s He.
  - left. reflexivity.
  - cbn [stop_workers]. destruct (decide (a ∈ threads)); [| apply IH; exact He].
    destruct (decide (default 0 (resets !! a)
                      = i915_reset_engine_count (error s) a)).
    + destruct (decide (kthread_stop env target a = 0)); [apply IH; exact He |].
      rewrite decide_False by exact He. apply IH; exact He.
    + right. apply IgtFacts.stop_workers_eio.
Qed.

End Workers.

Section Loop.
Variable env : igt_env.
Variable target : nat.

(** Without [do_reset] the loop does nothing, for any number of ticks. *)
Lemma reset_loop_no_reset (ticks : nat) (s : hstate) :
  reset_loop env false target ticks s = (0, s).
Proof.
  revert s. induction ticks as [| n IH]; intros s; [reflexivity |].
  cbn [reset_loop]. rewrite decide_True by reflexivity. apply IH.
Qed.

(** With resets that succeed it resets once more than the clock ticks. *)
Lemma reset_loop_all_succeed (ticks : nat) (s : hstate) :
  (∀ g, (i915_reset_engine env target g).1 = 0) ->
  reset_loop env true target ticks s
  = (0, {| error := Nat.iter (S ticks)
                      (fun g => (i915_reset_engine env target g).2) (error s);
           log := log s ++ replicate (S ticks) (ev_reset_engine target) |}).
Proof.
  intros Hok. revert s. induction ticks as [| n IH]; intros s.
  - cbn [reset_loop]. specialize (Hok (error s)).
    unfold Nat.iter. cbn [nat_rect].
    destruct (i915_reset_engine env target (error s)) as [r g].
    cbn [fst] in Hok. subst r. rewrite decide_True by reflexivity.
    reflexivity.
  - cbn [reset_loop]. pose proof (Hok (error s)) as Hs.
    destruct (i915_reset_engine env target (error s)) as [r g] eqn:Hreset.
    cbn [fst] in Hs. subst r. rewrite decide_True by reflexivity.
    rewrite IH. cbn [error log]. rewrite (Nat.iter_succ_r (S n)), Hreset.
    cbn [snd]. rewrite <- app_assoc. reflexivity.
Qed.

(** A reset that fails ends the loop. *)
Lemma reset_loop_fails (ticks : nat) (s : hstate) :
  (i915_reset_engine env target (error s)).1 ≠ 0 ->
  reset_loop env true target ticks s
  = ((i915_reset_engine env target (error s)).1,
     {| error := (i915_reset_engine env target (error s)).2;
        log := log s ++ [ev_reset_engine target; ev_pr_err] |}).
Proof.
  intros Hfail.
  destruct ticks; cbn [reset_loop];
    destruct (i915_reset_engine env target (error s)) as [r g];
    cbn [fst snd] in *; rewrite decide_False by exact Hfail;
    unfold emit; cbn [error log]; rewrite <- app_assoc; reflexivity.
Qed.

(** What the loop adds to the log, in either mode. *)
Lemma reset_loop_log (do_reset : bool) (ticks : nat) (s : hstate) :
  ∃ new k,
    log (reset_loop env do_reset target ticks s).2 = log s ++ new
    ∧ kthreads_run new = [] ∧ kthreads_stopped new = []
    ∧ resets_issued new = replicate k target
    ∧ (k <= S ticks)%nat
    ∧ (if do_reset then (1 <= k)%nat else k = 0%nat).
Proof.
  destruct do_reset.
  - revert s. induction ticks as [| n IH]; intros s.
    + cbn [reset_loop].
      destruct (i915_reset_engine env target (error s)) as [r g].
      destruct (decide (r = 0)).
      * exists [ev_reset_engine target], 1%nat. cbn [snd log].
        repeat split; reflexivity.
      * exists [ev_reset_engine target; ev_pr_err], 1%nat.
        cbn [snd emit log]. rewrite <- app_assoc.
        repeat split; reflexivity.
    + cbn [reset_loop].
      destruct (i915_reset_engine env target (error s)) as [r g].
      destruct (decide (r = 0)).
      * match goal with
        | |- context [reset_loop env true target n ?s1] =>
            destruct (IH s1) as (new & k & Hlog & Hrun & Hstop & Hres & Hk & Hk1)
        end.
        exists ([ev_reset_engine target] ++ new), (S k).
        rewrite Hlog. cbn [log]. rewrite <- app_assoc.
        rewrite kthreads_run_app, kthreads_stopped_app, resets_issued_app.
        rewrite Hrun, Hstop, Hres.
        repeat split; try reflexivity; lia.
      * exists [ev_reset_engine target; ev_pr_err], 1%nat.
        cbn [snd emit log]. rewrite <- app_assoc.
        repeat split; try reflexivity; lia.
  - exists [], 0%nat. rewrite reset_loop_no_reset. cbn [snd].
    rewrite app_nil_r. repeat split; try reflexivity; lia.
Qed.

End Loop.

Lemma clear_bit_testbit (n : Z) (g : i915_gpu_error) :
  0 <= n -> Z.testbit (flags (clear_bit n g)) n = false.
Proof.
  intros Hn. cbn [clear_bit flags].
  rewrite Z.ldiff_spec, Z.shiftl_spec by exact Hn.
  rewrite Z.sub_diag. apply andb_false_r.
Qed.

Lemma clear_set_bit (n : Z) (g : i915_gpu_error) :
  clear_bit n (set_bit n g) = clear_bit n g.
Proof.
  unfold clear_bit, set_bit. cbn [reset_count reset_engine_count flags].
  f_equal. apply Z.bits_inj'. intros i Hi.
  rewrite !Z.ldiff_spec, Z.lor_spec.
  destruct (Z.testbit (flags g) i), (Z.testbit (Z.shiftl 1 n) i); reflexivity.
Qed.

Section Phase.
Variable env : igt_env.
Variable target : nat.

(** What the reset phase adds to the log. *)
Lemma reset_phase_log (do_reset : bool) (err0 : Z) (s : hstate) :
  ∃ new k,
    log (reset_phase env do_reset target err0 s).2 = log s ++ new
    ∧ kthreads_run new = [] ∧ kthreads_stopped new = []
    ∧ resets_issued new = replicate k target
    ∧ (k <= S (timeout_ticks env do_reset target))%nat
    ∧ (err0 ≠ 0 -> k = 0%nat)
    ∧ (do_reset = false -> k = 0%nat)
    ∧ (err0 = 0 -> do_reset = true -> (1 <= k)%nat).
Proof.
  unfold reset_phase. destruct (decide (err0 = 0)) as [He | He].
  - match goal with
    | |- context [reset_loop env do_reset target ?n ?s1] =>
        destruct (reset_loop_log env target do_reset n s1)
          as (new & k & Hlog & Hrun & Hstop & Hres & Hk & Hmode);
        destruct (reset_loop env do_reset target n s1) as [err s2]
    end.
    cbn [snd log] in *.
    exists ([ev_set_bit (I915_RESET_ENGINE env + Z.of_nat target)] ++ new
            ++ [ev_clear_bit (I915_RESET_ENGINE env + Z.of_nat target)]), k.
    rewrite Hlog, <- !app_assoc.
    rewrite !kthreads_run_app, !kthreads_stopped_app, !resets_issued_app.
    rewrite Hrun, Hstop, Hres. cbn [app].
    split; [reflexivity |]. split; [reflexivity |]. split; [reflexivity |].
    split; [rewrite app_nil_r; reflexivity |]. split; [exact Hk |].
    split; [intros H; contradiction |].
    split; [intros ->; exact Hmode | intros _ ->; exact Hmode].
  - exists [], 0%nat. cbn [snd]. rewrite app_nil_r.
    repeat split; try reflexivity; try lia.
Qed.

(** The reset phase without [do_reset]: the bit is set and cleared. *)
Lemma reset_phase_no_reset (s : hstate) :
  reset_phase env false target 0 s
  = (0, {| error := clear_bit (I915_RESET_ENGINE env + Z.of_nat target)
                      (error s);
           log := log s
                  ++ [ev_set_bit (I915_RESET_ENGINE env + Z.of_nat target);
                      ev_clear_bit (I915_RESET_ENGINE env + Z.of_nat target)] |}).
Proof.
  unfold reset_phase. rewrite decide_True by reflexivity.
  rewrite reset_loop_no_reset. cbn [error log].
  rewrite clear_set_bit, <- app_assoc. reflexivity.
Qed.

(** The reset phase is skipped after a [goto unwind]. *)
Lemma reset_phase_skipped (do_reset : bool) (err0 : Z) (s : hstate) :
  err0 ≠ 0 -> reset_phase env do_reset target err0 s = (err0, s).
Proof. intros He. unfold reset_phase. rewrite decide_False by exact He. reflexivity. Qed.

End Phase.

(** What one round adds to the log: the workers run, the workers stopped
    and the resets issued, whatever the collaborators return. *)
Lemma round_log (env : igt_env) (do_reset : bool) (target : nat) (s : hstate) :
  ∃ ran k new,
    log (round env do_reset target s).2 = log s ++ new
    ∧ kthreads_run new = ran
    ∧ ran `prefix_of` filter (fun a => a ≠ target) (engines env)
    ∧ filter (fun a => kthread_run env target a = 0) ran
      `prefix_of` filter (fun a => a ≠ target) (engines env)
    ∧ kthreads_stopped new
      = filter (fun a => a ∈ filter (fun a => kthread_run env target a = 0) ran)
          (engines env)
    ∧ resets_issued new = replicate k target
    ∧ (k <= S (timeout_ticks env do_reset target))%nat
    ∧ (Thread.first_error
         (kthread_run env target
          <$> filter (fun a => a ≠ target) (engines env)) ≠ 0 -> k = 0%nat)
    ∧ (do_reset = false -> k = 0%nat)
    ∧ (Thread.first_error
         (kthread_run env target
          <$> filter (fun a => a ≠ target) (engines env)) = 0 ->
       do_reset = true -> (1 <= k)%nat).
Proof.
  unfold round.
  destruct (start_workers_spec env target (engines env) ∅ ∅
              (emit [ev_reset_count] s))
    as (ran & new1 & Hlog1 & Herr1 & Hrun1 & Hstop1 & Hres1 & Hret & Hran
        & Hpre & Hthr & Hcnt).
  destruct (start_workers env target (engines env) ∅ ∅
              (emit [ev_reset_count] s)) as [[[err0 threads] resets] s1].
  cbn [fst snd] in *.
  destruct (reset_phase_log env target do_reset err0 s1)
    as (new2 & k & Hlog2 & Hrun2 & Hstop2 & Hres2 & Hk & Hk0 & Hkf & Hk1).
  destruct (reset_phase env do_reset target err0 s1) as [err1 s2].
  cbn [fst snd] in *.
  destruct (stop_workers_log env target threads resets (engines env) err1 s2)
    as (new3 & Hlog3 & Hrun3 & Hstop3 & Hres3).
  destruct (stop_workers env target threads resets (engines env) err1 s2)
    as [err2 s3].
  cbn [fst snd] in *.
  assert (Hfilter : filter (fun a => a ∈ threads) (engines env)
                    = filter (fun a => a ∈ filter
                                (fun a => kthread_run env target a = 0) ran)
                        (engines env)).
  { apply list_filter_iff. intros x. rewrite Hthr. split; [| auto].
    intros [H | H]; [exact H |]. apply not_elem_of_empty in H. contradiction. }
  exists ran, k.
  destruct (decide (i915_reset_count (error s) = i915_reset_count (error s3))).
  - exists ([ev_reset_count] ++ new1 ++ new2 ++ new3 ++ [ev_reset_count]).
    cbn [snd emit log]. rewrite Hlog3, Hlog2, Hlog1. cbn [emit log].
    rewrite <- !app_assoc.
    rewrite !kthreads_run_app, !kthreads_stopped_app, !resets_issued_app.
    rewrite Hrun1, Hrun2, Hrun3, Hstop1, Hstop2, Hstop3, Hres1, Hres2, Hres3.
    cbn [app]. rewrite <- Hret, <- Hfilter.
    split; [reflexivity |]. split; [rewrite !app_nil_r; reflexivity |].
    split; [exact Hran |]. split; [exact Hpre |].
    split; [rewrite app_nil_r; reflexivity |].
    split; [rewrite app_nil_r; reflexivity |]. auto.
  - exists ([ev_reset_count] ++ new1 ++ new2 ++ new3
            ++ [ev_reset_count; ev_reset_count; ev_pr_err]).
    cbn [snd emit log]. rewrite Hlog3, Hlog2, Hlog1. cbn [emit log].
    rewrite <- !app_assoc.
    rewrite !kthreads_run_app, !kthreads_stopped_app, !resets_issued_app.
    rewrite Hrun1, Hrun2, Hrun3, Hstop1, Hstop2, Hstop3, Hres1, Hres2, Hres3.
    cbn [app]. rewrite <- Hret, <- Hfilter.
    split; [reflexivity |]. split; [rewrite !app_nil_r; reflexivity |].
    split; [exact Hran |]. split; [exact Hpre |].
    split; [rewrite app_nil_r; reflexivity |].
    split; [rewrite app_nil_r; reflexivity |]. auto.
Qed.

(** X15.  In every round, whatever [kthread_run], the reset and the
    workers return, workers are started in engine order and never for the
    target, and [kthread_stop] is called exactly for the workers whose start
    succeeded, once each and in the same order; this includes the
    [goto unwind] path. *)
Theorem started_workers_are_stopped (env : igt_env) (do_reset : bool)
    (target : nat) (s : hstate) :
  NoDup (engines env) ->
  ∃ new,
    log (round env do_reset target s).2 = log s ++ new
    ∧ kthreads_run new `prefix_of` filter (fun a => a ≠ target) (engines env)
    ∧ kthreads_stopped new
      = filter (fun a => kthread_run env target a = 0) (kthreads_run new).
Proof.
  intros Hnd.
  destruct (round_log env do_reset target s)
    as (ran & k & new & Hlog & Hrun & Hran & Hpre & Hstop & _).
  exists new. split; [exact Hlog |]. rewrite Hrun. split; [exact Hran |].
  rewrite Hstop.
  apply (filter_prefix_members (fun a => a ≠ target) (engines env) _ Hnd Hpre).
Qed.

(** X16.  In a round [i915_reset_engine] is only ever called on the
    target engine, at most once more than the clock ticks; never without
    [do_reset], never when a worker could not be started, and at least once
    with [do_reset] when all workers started (the loop is a do-while). *)
Theorem resets_hit_only_the_target (env : igt_env) (do_reset : bool)
    (target : nat) (s : hstate) :
  ∃ new k,
    log (round env do_reset target s).2 = log s ++ new
    ∧ resets_issued new = replicate k target
    ∧ (k <= S (timeout_ticks env do_reset target))%nat
    ∧ (do_reset = false -> k = 0%nat)
    ∧ ((∃ a, a ∈ engines env ∧ a ≠ target ∧ kthread_run env target a ≠ 0) ->
       k = 0%nat)
    ∧ (do_reset = true ->
       (∀ a, a ∈ engines env -> a ≠ target -> kthread_run env target a = 0) ->
       (1 <= k)%nat).
Proof.
  destruct (round_log env do_reset target s)
    as (ran & k & new & Hlog & _ & _ & _ & _ & Hres & Hk & Hk0 & Hkf & Hk1).
  exists new, k. split; [exact Hlog |]. split; [exact Hres |].
  split; [exact Hk |]. split; [exact Hkf |]. split.
  - intros (a & Ha & Hat & Hfail). apply Hk0.
    apply first_error_nonzero. exists (kthread_run env target a).
    split; [| exact Hfail].
    apply list_elem_of_fmap_2. apply list_elem_of_filter. auto.
  - intros Hmode Hall. apply Hk1; [| exact Hmode].
    apply first_error_zero. apply Forall_fmap, Forall_forall.
    intros a Ha. apply list_elem_of_filter in Ha as [Hat Ha].
    apply Hall; assumption.
Qed.

(** The start of a round in which every worker starts. *)
Lemma round_all_started (env : igt_env) (target : nat) (s : hstate) :
  (∀ a, a ∈ engines env -> a ≠ target -> kthread_run env target a = 0) ->
  ∃ threads resets s1 new1,
    start_workers env target (engines env) ∅ ∅ (emit [ev_reset_count] s)
    = (0, threads, resets, s1)
    ∧ error s1 = error s
    ∧ log s1 = log s ++ [ev_reset_count] ++ new1
    ∧ kthreads_stopped new1 = [] ∧ resets_issued new1 = []
    ∧ filter (fun a => a ∈ threads) (engines env)
      = filter (fun a => a ≠ target) (engines env)
    ∧ (∀ g, reset_engine_count g = reset_engine_count (error s) ->
       ∀ a, a ∈ engines env -> a ∈ threads ->
            default 0 (resets !! a) = i915_reset_engine_count g a).
Proof.
  intros Hrun.
  destruct (IgtFacts.start_workers_all env target (engines env) ∅ ∅
              (emit [ev_reset_count] s) Hrun)
    as (threads & resets & s1 & Hstart & Hthreads & Hresets & _).
  destruct (start_workers_spec env target (engines env) ∅ ∅
              (emit [ev_reset_count] s))
    as (ran & new1 & Hlog1 & Herr1 & _ & Hstop1 & Hres1 & _).
  rewrite Hstart in Hlog1, Herr1. cbn [fst snd emit log error] in *.
  exists threads, resets, s1, new1.
  split; [exact Hstart |]. split; [exact Herr1 |].
  split; [rewrite Hlog1, <- app_assoc; reflexivity |].
  split; [exact Hstop1 |]. split; [exact Hres1 |]. split.
  - apply filter_ext_elem. intros x Hx. rewrite Hthreads. split.
    + intros [H | [_ H]]; [apply not_elem_of_empty in H; contradiction | exact H].
    + auto.
  - intros g Hg a Ha Ht. apply Hthreads in Ht as [Ht | [_ Hat]];
      [apply not_elem_of_empty in Ht; contradiction |].
    rewrite (Hresets a Ha Hat). unfold i915_reset_engine_count.
    rewrite Hg. reflexivity.
Qed.


Lemma resets_issued_replicate (n e : nat) :
  resets_issued (replicate n (ev_reset_engine e)) = replicate n e.
Proof.
  induction n as [| n IH]; [reflexivity |].
  cbn [replicate]. change (ev_reset_engine e :: replicate n (ev_reset_engine e))
    with ([ev_reset_engine e] ++ replicate n (ev_reset_engine e)).
  rewrite resets_issued_app, IH. reflexivity.
Qed.

(** X18.  With [do_reset], when every worker starts and no reset
    fails, a round of [t] clock ticks issues exactly [t + 1] resets, and the
    error state it leaves is the one [t + 1] resets make from the state with
    the target's reset bit set, with that bit cleared again. *)
Theorem successful_resets_counted (env : igt_env) (target : nat) (s : hstate) :
  (∀ a, a ∈ engines env -> a ≠ target -> kthread_run env target a = 0) ->
  (∀ g, (i915_reset_engine env target g).1 = 0) ->
  resets_issued (log (round env true target s).2)
  = resets_issued (log s) ++ replicate (S (timeout_ticks env true target)) target
  ∧ error (round env true target s).2
    = clear_bit (I915_RESET_ENGINE env + Z.of_nat target)
        (Nat.iter (S (timeout_ticks env true target))
           (fun g => (i915_reset_engine env target g).2)
           (set_bit (I915_RESET_ENGINE env + Z.of_nat target) (error s))).
Proof.
  intros Hrun Hok.
  destruct (round_all_started env target s Hrun)
    as (threads & resets & s1 & new1 & Hstart & Herr1 & Hlog1 & _ & Hres1 & _).
  unfold round. rewrite Hstart. unfold reset_phase.
  rewrite decide_True by reflexivity.
  rewrite reset_loop_all_succeed by exact Hok. cbn [error log].
  match goal with
  | |- context [stop_workers env target threads resets (engines env) 0 ?s2] =>
      pose proof (IgtFacts.stop_workers_error env target threads resets
                    (engines env) 0 s2) as Hsame;
      destruct (stop_workers_log env target threads resets (engines env) 0 s2)
        as (new3 & Hlog3 & _ & _ & Hres3);
      destruct (stop_workers env target threads resets (engines env) 0 s2)
        as [err2 s3]
  end.
  cbn [fst snd error log] in Hsame, Hlog3.
  destruct (decide (i915_reset_count (error s) = i915_reset_count (error s3)));
    cbn [snd emit error log]; rewrite Hsame, Hlog3, Hlog1, Herr1;
    (split; [| reflexivity]);
    rewrite !resets_issued_app, Hres1, Hres3, resets_issued_replicate;
    cbn [resets_issued omap list_omap app]; rewrite !app_nil_r; reflexivity.
Qed.

(** X19.  When every worker starts, the bit
    [I915_RESET_ENGINE + engine->id] is clear after the round, in either
    mode, whether or not a reset failed and whatever the reset did to the
    flags. *)
Theorem reset_engine_bit_cleared (env : igt_env) (do_reset : bool)
    (target : nat) (s : hstate) :
  (∀ a, a ∈ engines env -> a ≠ target -> kthread_run env target a = 0) ->
  0 <= I915_RESET_ENGINE env + Z.of_nat target ->
  Z.testbit (flags (error (round env do_reset target s).2))
    (I915_RESET_ENGINE env + Z.of_nat target) = false.
Proof.
  intros Hrun Hbit.
  destruct (round_all_started env target s Hrun)
    as (threads & resets & s1 & new1 & Hstart & _).
  unfold round. rewrite Hstart. unfold reset_phase.
  rewrite decide_True by reflexivity.
  match goal with
  | |- context [reset_loop env do_reset target ?n ?s0] =>
      destruct (reset_loop env do_reset target n s0) as [err1 s2]
  end.
  match goal with
  | |- context [stop_workers env target threads resets (engines env) err1 ?s2] =>
      pose proof (IgtFacts.stop_workers_error env target threads resets
                    (engines env) err1 s2) as Hsame;
      destruct (stop_workers env target threads resets (engines env) err1 s2)
        as [err2 s3]
  end.
  cbn [fst snd error] in Hsame.
  destruct (decide (i915_reset_count (error s) = i915_reset_count (error s3)));
    cbn [snd emit error]; rewrite Hsame; apply clear_bit_testbit; exact Hbit.
Qed.


(** X21.  When the first reset of a round fails, it is the only one
    issued; the round returns its error, which no worker's return value
    replaces, unless a counter check turns it into [-EIO]; and the target's
    reset bit is cleared all the same. *)
Theorem failed_reset_ends_the_loop (env : igt_env) (target : nat)
    (s : hstate) :
  (∀ a, a ∈ engines env -> a ≠ target -> kthread_run env target a = 0) ->
  (i915_reset_engine env target
     (set_bit (I915_RESET_ENGINE env + Z.of_nat target) (error s))).1 ≠ 0 ->
  ((round env true target s).1
   = (i915_reset_engine env target
        (set_bit (I915_RESET_ENGINE env + Z.of_nat target) (error s))).1
   ∨ (round env true target s).1 = - EIO)
  ∧ resets_issued (log (round env true target s).2)
    = resets_issued (log s) ++ [target]
  ∧ error (round env true target s).2
    = clear_bit (I915_RESET_ENGINE env + Z.of_nat target)
        (i915_reset_engine env target
           (set_bit (I915_RESET_ENGINE env + Z.of_nat target) (error s))).2.
Proof.
  intros Hrun Hfail.
  destruct (round_all_started env target s Hrun)
    as (threads & resets & s1 & new1 & Hstart & Herr1 & Hlog1 & _ & Hres1 & _).
  unfold round. rewrite Hstart. unfold reset_phase.
  rewrite decide_True by reflexivity.
  rewrite reset_loop_fails by (cbn [error]; rewrite Herr1; exact Hfail).
  cbn [error log]. rewrite Herr1.
  match goal with
  | |- context [stop_workers env target threads resets (engines env) ?e ?s2] =>
      pose proof (IgtFacts.stop_workers_error env target threads resets
                    (engines env) e s2) as Hsame;
      pose proof (stop_workers_keeps_error env target threads resets
                    (engines env) e s2 Hfail) as Hkeep;
      destruct (stop_workers_log env target threads resets (engines env) e s2)
        as (new3 & Hlog3 & _ & _ & Hres3);
      destruct (stop_workers env target threads resets (engines env) e s2)
        as [err2 s3]
  end.
  cbn [fst snd error log] in Hsame, Hlog3, Hkeep.
  destruct (decide (i915_reset_count (error s) = i915_reset_count (error s3)));
    cbn [fst snd emit error log]; rewrite Hsame, Hlog3, Hlog1;
    (split; [auto |]); (split; [| reflexivity]);
    rewrite !resets_issued_app, Hres1, Hres3;
    cbn [resets_issued omap list_omap app]; rewrite !app_nil_r; reflexivity.
Qed.

(** Without [do_reset] a round issues no reset and leaves every counter
    alone, whatever the workers do. *)
Lemma round_no_reset_counters (env : igt_env) (target : nat) (s : hstate) :
  reset_count (error (round env false target s).2) = reset_count (error s)
  ∧ reset_engine_count (error (round env false target s).2)
    = reset_engine_count (error s)
  ∧ resets_issued (log (round env false target s).2) = resets_issued (log s).
Proof.
  assert (Herr : error (round env false target s).2 = error s
                 ∨ error (round env false target s).2
                   = clear_bit (I915_RESET_ENGINE env + Z.of_nat target)
                       (error s)).
  { unfold round.
    destruct (start_workers_spec env target (engines env) ∅ ∅
                (emit [ev_reset_count] s))
      as (ran & new1 & _ & Herr1 & _).
    destruct (start_workers env target (engines env) ∅ ∅
                (emit [ev_reset_count] s)) as [[[err0 threads] resets] s1].
    cbn [fst snd emit error] in Herr1.
    destruct (decide (err0 = 0)) as [-> | He].
    - rewrite reset_phase_no_reset.
      match goal with
      | |- context [stop_workers env target threads resets (engines env) ?e ?s2] =>
          pose proof (IgtFacts.stop_workers_error env target threads resets
                        (engines env) e s2) as Hsame;
          destruct (stop_workers env target threads resets (engines env) e s2)
            as [err2 s3]
      end.
      cbn [fst snd error] in Hsame. right.
      destruct (decide (i915_reset_count (error s)
                        = i915_reset_count (error s3)));
        cbn [snd emit error]; rewrite Hsame, Herr1; reflexivity.
    - rewrite reset_phase_skipped by exact He.
      pose proof (IgtFacts.stop_workers_error env target threads resets
                    (engines env) err0 s1) as Hsame.
      destruct (stop_workers env target threads resets (engines env) err0 s1)
        as [err2 s3].
      cbn [fst snd error] in Hsame. left.
      destruct (decide (i915_reset_count (error s)
                        = i915_reset_count (error s3)));
        cbn [snd emit error]; rewrite Hsame, Herr1; reflexivity. }
  split; [| split].
  - destruct Herr as [-> | ->]; reflexivity.
  - destruct Herr as [-> | ->]; reflexivity.
  - destruct (round_log env false target s)
      as (ran & k & new & Hlog & _ & _ & _ & _ & Hres & _ & _ & Hkf & _).
    rewrite Hlog, resets_issued_app, Hres, (Hkf eq_refl).
    apply app_nil_r.
Qed.

Lemma rounds_no_reset_counters (env : igt_env) (targets : list nat)
    (s : hstate) :
  reset_count (error (rounds env false targets s).2) = reset_count (error s)
  ∧ reset_engine_count (error (rounds env false targets s).2)
    = reset_engine_count (error s)
  ∧ resets_issued (log (rounds env false targets s).2) = resets_issued (log s).
Proof.
  revert s. induction targets as [| t rest IH]; intros s; [auto |].
  cbn [rounds].
  destruct (round_no_reset_counters env t s) as (Hc & He & Hl).
  destruct (round env false t s) as [err s1]. cbn [snd] in Hc, He, Hl.
  destruct (decide (err = 0)).
  - destruct (IH (emit [ev_cond_resched] s1)) as (Hc' & He' & Hl').
    rewrite Hc', He', Hl'. cbn [emit error log].
    rewrite resets_issued_app, Hc, He, Hl.
    split; [reflexivity |]. split; [reflexivity |]. apply app_nil_r.
  - cbn [snd]. auto.
Qed.

(** X22.  [igt_active_engines_no_reset] issues no reset and leaves the
    global and the per-engine reset counters as they were, for any device
    and whatever the workers do. *)
Theorem no_reset_subtest_never_resets (env : igt_env) (s : hstate) :
  reset_count (error (igt_active_engines_no_reset env s).2)
  = reset_count (error s)
  ∧ reset_engine_count (error (igt_active_engines_no_reset env s).2)
    = reset_engine_count (error s)
  ∧ resets_issued (log (igt_active_engines_no_reset env s).2)
    = resets_issued (log s).
Proof.
  unfold igt_active_engines_no_reset, igt_active_engines.
  destruct (intel_has_reset_engine env); cbn [negb]; [| auto].
  destruct (rounds_no_reset_counters env (engines env) (emit [ev_pr_info] s))
    as (Hc & He & Hl).
  destruct (rounds env false (engines env) (emit [ev_pr_info] s)) as [err s1].
  cbn [snd emit error log] in Hc, He, Hl.
  rewrite resets_issued_app in Hl. cbn [resets_issued omap list_omap] in Hl.
  rewrite app_nil_r in Hl.
  destruct (i915_terminally_wedged env (error s1)); cbn [snd emit error log];
    rewrite resets_issued_app, Hl; cbn [resets_issued omap list_omap];
    rewrite app_nil_r; auto.
Qed.

Lemma sample_engines_distinct :
  NoDup (engines (Sample.igt_env true true Sample.reset_counting_engine)).
Proof. apply (bool_decide_unpack _). vm_compute. exact I. Qed.

Lemma started_workers_are_stopped_witness :
  NoDup (engines Faults.start_fails)
  ∧ ∃ new,
      log (round Faults.start_fails true 2 Sample.idle).2
      = log Sample.idle ++ new
      ∧ kthreads_run new
        `prefix_of` filter (fun a => a ≠ 2%nat) (engines Faults.start_fails)
      ∧ kthreads_stopped new
        = filter (fun a => kthread_run Faults.start_fails 2 a = 0)
            (kthreads_run new).
Proof.
  split; [exact sample_engines_distinct |].
  apply (started_workers_are_stopped Faults.start_fails true 2 Sample.idle).
  exact sample_engines_distinct.
Defined.

Lemma resets_hit_only_the_target_witness :
  let env := Sample.igt_env true true Sample.reset_counting_engine in
  ∃ new k,
    log (round env true 2 Sample.idle).2 = log Sample.idle ++ new
    ∧ resets_issued new = replicate k 2%nat
    ∧ (k <= S (timeout_ticks env true 2))%nat
    ∧ (true = false -> k = 0%nat)
    ∧ ((∃ a, a ∈ engines env ∧ a ≠ 2%nat ∧ kthread_run env 2 a ≠ 0) ->
       k = 0%nat)
    ∧ (true = true ->
       (∀ a, a ∈ engines env -> a ≠ 2%nat -> kthread_run env 2 a = 0) ->
       (1 <= k)%nat).
Proof.
  intros env. apply (resets_hit_only_the_target env true 2 Sample.idle).
Defined.

Lemma successful_resets_counted_witness :
  let env := Sample.igt_env true true Sample.reset_counting_engine in
  (∀ a, a ∈ engines env -> a ≠ 2%nat -> kthread_run env 2 a = 0)
  ∧ (∀ g, (i915_reset_engine env 2 g).1 = 0)
  ∧ resets_issued (log (round env true 2 Sample.idle).2)
    = resets_issued (log Sample.idle)
      ++ replicate (S (timeout_ticks env true 2)) 2%nat
  ∧ error (round env true 2 Sample.idle).2
    = clear_bit (I915_RESET_ENGINE env + Z.of_nat 2)
        (Nat.iter (S (timeout_ticks env true 2))
           (fun g => (i915_reset_engine env 2 g).2)
           (set_bit (I915_RESET_ENGINE env + Z.of_nat 2) (error Sample.idle))).
Proof.
  intros env. split; [intros a _ _; reflexivity |].
  split; [intros g; reflexivity |].
  apply (successful_resets_counted env 2 Sample.idle).
  - intros a _ _. reflexivity.
  - intros g. reflexivity.
Defined.

Lemma reset_engine_bit_cleared_witness :
  let env := Sample.igt_env true true Sample.reset_counting_engine in
  (∀ a, a ∈ engines env -> a ≠ 2%nat -> kthread_run env 2 a = 0)
  ∧ 0 <= I915_RESET_ENGINE env + Z.of_nat 2
  ∧ Z.testbit (flags (error (round env true 2 Sample.idle).2))
      (I915_RESET_ENGINE env + Z.of_nat 2) = false.
Proof.
  intros env. split; [intros a _ _; reflexivity |].
  split; [vm_compute; discriminate |].
  apply (reset_engine_bit_cleared env true 2 Sample.idle).
  - intros a _ _. reflexivity.
  - vm_compute; discriminate.
Defined.




Lemma failed_reset_ends_the_loop_witness :
  let env := Faults.reset_fails in
  let bit := I915_RESET_ENGINE env + Z.of_nat 2 in
  (∀ a, a ∈ engines env -> a ≠ 2%nat -> kthread_run env 2 a = 0)
  ∧ (i915_reset_engine env 2 (set_bit bit (error Sample.idle))).1 ≠ 0
  ∧ ((round env true 2 Sample.idle).1
     = (i915_reset_engine env 2 (set_bit bit (error Sample.idle))).1
     ∨ (round env true 2 Sample.idle).1 = - EIO)
  ∧ resets_issued (log (round env true 2 Sample.idle).2)
    = resets_issued (log Sample.idle) ++ [2%nat]
  ∧ error (round env true 2 Sample.idle).2
    = clear_bit bit
        (i915_reset_engine env 2 (set_bit bit (error Sample.idle))).2.
Proof.
  intros env bit. split; [intros a _ _; reflexivity |].
  split; [vm_compute; discriminate |].
  apply (failed_reset_ends_the_loop env 2 Sample.idle).
  - intros a _ _. reflexivity.
  - vm_compute; discriminate.
Defined.

End RoundFacts.
